(** * Mercury: a client-side soft-navigation engine

    A shallow embedding of [src/Mercury.js], [src/validation.js],
    [src/utils.js] and [src/constants.js], together with a model of the
    browser objects the engine talks to (document, session history,
    XMLHttpRequest, timers, console), and the properties of the
    navigation engine proved over that embedding.

    The engine is event driven and single threaded.  Every method of the
    class is a computation in the monad [Js], which threads the state of
    the page (the [World]) and may complete abruptly with an exception,
    the way a JavaScript function body does. *)

From Stdlib Require Import Floats.SpecFloat.
From stdpp Require Import gmap strings list fin_maps pretty.

#[local] Set Warnings "-register-all".

Open Scope string_scope.
Open Scope list_scope.
Open Scope nat_scope.

(** ** Numbers

    A JavaScript number is an IEEE 754 binary64 value, [spec_float] of
    the standard library: NaN, an infinity, a signed zero, or a finite
    value [(-1)^s * m * 2^e] in canonical form ([m] below [2^53], [e]
    from -1074 to 971, [m] of 53 bits unless [e] is -1074). *)

(** [m * 2^e], rounded to the nearest number. *)
Definition number (m e : Z) : spec_float := binary_normalize 53 1024 m e false.

(** The number of an integer literal. *)
Definition integer (n : Z) : spec_float := number n 0.

(** [x < 0] on numbers: false for NaN and for both zeros. *)
Definition belowZero (x : spec_float) : bool := SFltb x (S754_zero false).

(** [Number::toString(x)] in radix 10: the shortest decimal numeral
    that reads back as [x], the nearest to [x] among the shortest, laid
    out in positional notation for a magnitude from [1e-6] up to, not
    including, [1e21] and in exponent notation outside. *)
Module NumberToString.

(** The value [coefficient * 2^binaryExponent * 10^decimalExponent];
    such values are compared exactly, over a common scale. *)
Record Scaled := {
  coefficient : Z;
  binaryExponent : Z;
  decimalExponent : Z
}.

Definition aligned (x y : Scaled) : Z * Z :=
  let b := Z.min (binaryExponent x) (binaryExponent y) in
  let c := Z.min (decimalExponent x) (decimalExponent y) in
  ((coefficient x * 2 ^ (binaryExponent x - b) * 10 ^ (decimalExponent x - c))%Z,
   (coefficient y * 2 ^ (binaryExponent y - b) * 10 ^ (decimalExponent y - c))%Z).

Definition compare (x y : Scaled) : comparison :=
  let '(p, q) := aligned x y in (p ?= q)%Z.

Definition distance (x y : Scaled) : Scaled :=
  let '(p, q) := aligned x y in
  {| coefficient := Z.abs (p - q);
     binaryExponent := Z.min (binaryExponent x) (binaryExponent y);
     decimalExponent := Z.min (decimalExponent x) (decimalExponent y) |}.

(** The integer part of [x / y]. *)
Definition quotient (x y : Scaled) : Z :=
  let '(p, q) := aligned x y in (p / q)%Z.

Definition powerOfTen (t : Z) : Scaled :=
  {| coefficient := 1; binaryExponent := 0; decimalExponent := t |}.

(** The numeral with the digits of [s] and [n] of them (or zeros) before
    the decimal point, [k] being the number of digits of [s]. *)
Definition decimal (s n k : Z) : Scaled :=
  {| coefficient := s; binaryExponent := 0; decimalExponent := n - k |}.

Section Shortest.

(** The positive number [m * 2^e]. *)
Context (m : positive) (e : Z).

Definition exact : Scaled :=
  {| coefficient := Z.pos m; binaryExponent := e; decimalExponent := 0 |}.

(** The numbers next to [m * 2^e] lie [2^e] away, but for the one
    below the least mantissa of a binade, which lies [2^(e-1)] away.
    A numeral reads back as [m * 2^e] when it lies less than half way
    to them, or exactly half way and [m] is even. *)
Definition lowerGapHalved : bool :=
  (Z.pos m =? 2 ^ 52)%Z && (-1074 <? e)%Z.

Definition lowerEnd : Scaled :=
  {| coefficient := 4 * Z.pos m - (if lowerGapHalved then 1 else 2);
     binaryExponent := e - 2; decimalExponent := 0 |}.

Definition upperEnd : Scaled :=
  {| coefficient := 4 * Z.pos m + 2; binaryExponent := e - 2; decimalExponent := 0 |}.

Definition readsBack (numeral : Scaled) : bool :=
  match compare lowerEnd numeral, compare numeral upperEnd with
  | Lt, Lt => true
  | Eq, (Lt | Eq) | Lt, Eq => Z.even (Z.pos m)
  | _, _ => false
  end.

(** The [n] with [10^(n-1) <= m * 2^e < 10^n], searched upwards from an
    estimate that lies at most three below it. *)
Fixpoint magnitudeFrom (fuel : nat) (n : Z) : Z :=
  match fuel with
  | O => n
  | S fuel =>
      match compare (powerOfTen n) exact with
      | Gt => n
      | _ => magnitudeFrom fuel (n + 1)
      end
  end.

Definition magnitude : Z :=
  magnitudeFrom 5 ((Z.pos (digits2_pos m) + e - 1) * 1233 / 4096 - 1).

(** The numerals of [k] digits that read back as [m * 2^e], as pairs
    [(s, n)]: the two nearest to it at either magnitude. *)
Definition candidates (k : Z) : list (Z * Z) :=
  n ← [magnitude; (magnitude + 1)%Z];
  let below := quotient exact (powerOfTen (n - k)) in
  s ← [below; (below + 1)%Z];
  if (10 ^ (k - 1) <=? s)%Z && (s <? 10 ^ k)%Z && readsBack (decimal s n k)
  then [(s, n)] else [].

Definition nearer (k : Z) (a b : Z * Z) : Z * Z :=
  match compare (distance (decimal a.1 a.2 k) exact)
                (distance (decimal b.1 b.2 k) exact) with
  | Lt => a
  | Gt => b
  | Eq => if Z.even a.1 then a else b
  end.

Definition nearest (k : Z) : option (Z * Z) :=
  match candidates k with
  | [] => None
  | c :: rest => Some (foldl (nearer k) c rest)
  end.

(** Seventeen digits always suffice. *)
Fixpoint shortestFrom (fuel : nat) (k : Z) : Z * Z :=
  match fuel with
  | O => (Z.pos m, 0%Z)
  | S fuel =>
      match nearest k with
      | Some found => found
      | None => shortestFrom fuel (k + 1)
      end
  end.

Definition shortest : Z * Z := shortestFrom 17 1.

End Shortest.

Fixpoint zeros (n : nat) : string :=
  match n with O => "" | S n => "0" +:+ zeros n end.

Definition layout (s n : Z) : string :=
  let digits := pretty s in
  let k := Z.of_nat (String.length digits) in
  if (k <=? n)%Z && (n <=? 21)%Z then digits +:+ zeros (Z.to_nat (n - k))
  else if (0 <? n)%Z && (n <=? 21)%Z then
    String.substring 0 (Z.to_nat n) digits
      +:+ "." +:+ String.substring (Z.to_nat n) (Z.to_nat (k - n)) digits
  else if (-6 <? n)%Z && (n <=? 0)%Z then "0." +:+ zeros (Z.to_nat (- n)) +:+ digits
  else
    let exponent := (if (n - 1 <? 0)%Z then "-" else "+") +:+ pretty (Z.abs (n - 1)) in
    if (k =? 1)%Z then digits +:+ "e" +:+ exponent
    else String.substring 0 1 digits
           +:+ "." +:+ String.substring 1 (Z.to_nat (k - 1)) digits
           +:+ "e" +:+ exponent.

End NumberToString.

(** A finite value that is not written in canonical form is read as the
    number nearest to it. *)
Definition numberToString (x : spec_float) : string :=
  match x with
  | S754_nan => "NaN"
  | S754_zero _ => "0"
  | S754_infinity negative => if negative then "-Infinity" else "Infinity"
  | S754_finite negative m e =>
      (if negative then "-" else "")
        +:+ match number (Z.pos m) e with
            | S754_finite _ mantissa exponent =>
                let '(s, n) := NumberToString.shortest mantissa exponent in
                NumberToString.layout s n
            | S754_infinity _ => "Infinity"
            | _ => "0"
            end
  end.

(** ** JavaScript values

    The values a caller can hand to the constructor.  A function is
    opaque: it carries its source text and the value that a call of it
    returns (a function that raises or acts on the page when it is
    called is outside the embedding).  Objects are the property tables
    of plain objects (own data properties, with [Object.prototype]
    behind them), an earlier binding shadowing a later one. *)

Inductive JsValue : Type :=
| JsUndefined
| JsNull
| JsBoolean (b : bool)
| JsNumber (x : spec_float)
| JsString (s : string)
| JsSymbol (description : string)
| JsFunction (source : string) (returns : JsValue)
| JsArray (items : list JsValue)
| JsObject (props : list (string * JsValue)).

(** [typeof v] *)
Definition typeof (v : JsValue) : string :=
  match v with
  | JsUndefined => "undefined"
  | JsNull => "object"
  | JsBoolean _ => "boolean"
  | JsNumber _ => "number"
  | JsString _ => "string"
  | JsSymbol _ => "symbol"
  | JsFunction _ _ => "function"
  | JsArray _ => "object"
  | JsObject _ => "object"
  end.

(** Truthiness, as tested by [if (v)], [!v], [a && b] and [a || b]. *)
Definition toBoolean (v : JsValue) : bool :=
  match v with
  | JsUndefined | JsNull => false
  | JsBoolean b => b
  | JsNumber (S754_nan | S754_zero _) => false
  | JsNumber _ => true
  | JsString s => negb (String.eqb s "")
  | JsSymbol _ | JsFunction _ _ | JsArray _ | JsObject _ => true
  end.

(** [Array.isArray(v)] *)
Definition isArray (v : JsValue) : bool :=
  match v with JsArray _ => true | _ => false end.

Fixpoint assoc {A : Type} (key : string) (table : list (string * A)) : option A :=
  match table with
  | [] => None
  | (k, v) :: rest => if String.eqb k key then Some v else assoc key rest
  end.

(** [v[key]] for a [v] that is neither [undefined] nor [null].  None of
    the names the engine reads ([updateMatrix], [selector], [updateHTML],
    ...) is a property of a primitive wrapper, of an array or of a
    function, so only objects answer with something defined. *)
Definition property (v : JsValue) (key : string) : JsValue :=
  match v with
  | JsObject props => default JsUndefined (assoc key props)
  | _ => JsUndefined
  end.

(** Whether [v] is [undefined] or [null]: reading a property of such a
    value, or destructuring it, raises a TypeError. *)
Definition nullish (v : JsValue) : bool :=
  match v with JsUndefined | JsNull => true | _ => false end.

Fixpoint joinStrings (sep : string) (parts : list string) : string :=
  match parts with
  | [] => ""
  | [s] => s
  | s :: rest => s +:+ sep +:+ joinStrings sep rest
  end.

Fixpoint sequenceOptions {A : Type} (l : list (option A)) : option (list A) :=
  match l with
  | [] => Some []
  | o :: rest =>
      match o, sequenceOptions rest with
      | Some x, Some xs => Some (x :: xs)
      | _, _ => None
      end
  end.

(** Whether [v] is an object rather than a primitive value. *)
Definition isObject (v : JsValue) : bool :=
  match v with
  | JsFunction _ _ | JsArray _ | JsObject _ => true
  | _ => false
  end.

(** The string conversion of a primitive value; a symbol cannot be
    converted. *)
Definition primitiveToString (v : JsValue) : option string :=
  match v with
  | JsUndefined => Some "undefined"
  | JsNull => Some "null"
  | JsBoolean b => Some (if b then "true" else "false")
  | JsNumber x => Some (numberToString x)
  | JsString s => Some s
  | _ => None
  end.

(** What a conversion method of an object contributes: the value that
    the call returns, when the property is a function and the call
    returns a primitive value. *)
Definition converted (method : option JsValue) : option JsValue :=
  match method with
  | Some (JsFunction _ returns) => if isObject returns then None else Some returns
  | _ => None
  end.

(** The string conversion of a template literal or of [Array.join];
    [None] when the conversion raises a TypeError.  A symbol cannot be
    converted.  An object is converted by its [toString] method, which
    is the one of [Object.prototype] unless the object has a property
    [toString] of its own; when that is not a function, or returns an
    object, the conversion goes on to [valueOf], where the inherited
    method returns the object itself; when neither method gives a
    primitive value, the conversion raises. *)
Fixpoint toString (v : JsValue) : option string :=
  match v with
  | JsUndefined => Some "undefined"
  | JsNull => Some "null"
  | JsBoolean b => Some (if b then "true" else "false")
  | JsNumber x => Some (numberToString x)
  | JsString s => Some s
  | JsSymbol _ => None
  | JsFunction source _ => Some source
  | JsArray items =>
      joinStrings "," <$>
        sequenceOptions
          (map (fun item => if nullish item then Some "" else toString item) items)
  | JsObject props =>
      match assoc "toString" props with
      | None => Some "[object Object]"
      | Some method =>
          match converted (Some method) with
          | Some primitive => primitiveToString primitive
          | None => converted (assoc "valueOf" props) ≫= primitiveToString
          end
      end
  end.

(** [items.join(sep)] *)
Definition join (sep : string) (items : list JsValue) : option string :=
  joinStrings sep <$>
    sequenceOptions
      (map (fun item => if nullish item then Some "" else toString item) items).

(** [s.toUpperCase()], on the ASCII letters. *)
Definition upperAscii (c : Ascii.ascii) : Ascii.ascii :=
  let n := Ascii.nat_of_ascii c in
  if (97 <=? n) && (n <=? 122) then Ascii.ascii_of_nat (n - 32) else c.

Fixpoint toUpperCase (s : string) : string :=
  match s with
  | EmptyString => EmptyString
  | String c rest => String (upperAscii c) (toUpperCase rest)
  end.

(** ** The document

    A document is the list of its top-level nodes (normally the single
    [html] element).  An element is referred to by its path, the list of
    child indices leading to it from the top. *)

Inductive Node : Type :=
| Elem (tagName : string) (attributes : list (string * string)) (childNodes : list Node)
| TextNode (data : string).

Abbreviation Path := (list nat).

Definition isElement (n : Node) : bool :=
  match n with Elem _ _ _ => true | TextNode _ => false end.

Definition tagOf (n : Node) : string :=
  match n with Elem t _ _ => t | TextNode _ => "" end.

Definition attributesOf (n : Node) : list (string * string) :=
  match n with Elem _ a _ => a | TextNode _ => [] end.

Definition childrenOf (n : Node) : list Node :=
  match n with Elem _ _ k => k | TextNode _ => [] end.

Definition setChildren (kids : list Node) (n : Node) : Node :=
  match n with Elem t a _ => Elem t a kids | TextNode _ => n end.

Definition setAttributes (attrs : list (string * string)) (n : Node) : Node :=
  match n with Elem t _ k => Elem t attrs k | TextNode _ => n end.

Fixpoint nodeAt (nodes : list Node) (p : Path) : option Node :=
  match p with
  | [] => None
  | i :: q =>
      match nodes !! i with
      | None => None
      | Some n =>
          match q with
          | [] => Some n
          | _ => nodeAt (childrenOf n) q
          end
      end
  end.

Fixpoint updateAt (f : Node -> Node) (nodes : list Node) (p : Path) : list Node :=
  match p with
  | [] => nodes
  | i :: q =>
      match nodes !! i with
      | None => nodes
      | Some n =>
          match q with
          | [] => <[i := f n]> nodes
          | _ => <[i := setChildren (updateAt f (childrenOf n) q) n]> nodes
          end
      end
  end.

Fixpoint removeAt (nodes : list Node) (p : Path) : list Node :=
  match p with
  | [] => nodes
  | i :: q =>
      match nodes !! i with
      | None => nodes
      | Some n =>
          match q with
          | [] => delete i nodes
          | _ => <[i := setChildren (removeAt (childrenOf n) q) n]> nodes
          end
      end
  end.

(** The paths of the elements among the nodes [l] and below them, in
    document order, when [l] starts at child index [i]. *)
Definition pathsOfChildren (below : Node -> list Path) : nat -> list Node -> list Path :=
  fix children (i : nat) (l : list Node) : list Path :=
    match l with
    | [] => []
    | k :: rest =>
        (if isElement k then [[i]] else [])
          ++ map (cons i) (below k)
          ++ children (S i) rest
    end.

(** The paths of the elements below [n], relative to [n]. *)
Fixpoint elementPathsBelow (n : Node) : list Path :=
  match n with
  | TextNode _ => []
  | Elem _ _ kids => pathsOfChildren elementPathsBelow 0 kids
  end.

(** Induction over nodes that reaches the children. *)
Fixpoint Node_induction (P : Node -> Prop)
    (Htext : forall s, P (TextNode s))
    (Helem : forall t a kids, Forall P kids -> P (Elem t a kids))
    (n : Node) : P n :=
  match n with
  | TextNode s => Htext s
  | Elem t a kids =>
      Helem t a kids
        ((fix all (l : list Node) : Forall P l :=
            match l return Forall P l with
            | [] => List.Forall_nil P
            | k :: rest =>
                List.Forall_cons P k rest (Node_induction P Htext Helem k) (all rest)
            end) kids)
  end.

Definition elementPaths (doc : list Node) : list Path :=
  elementPathsBelow (Elem "#document" [] doc).

(** [document.body]: the first [body] or [frameset] child of the [html]
    document element, or [null]. *)
Definition bodyOf (doc : list Node) : option Path :=
  i ← fst <$> list_find isElement doc;
  root ← doc !! i;
  if String.eqb (toUpperCase (tagOf root)) "HTML" then
    j ← fst <$> list_find
           (fun k => bool_decide (toUpperCase (tagOf k) = "BODY"
                                  ∨ toUpperCase (tagOf k) = "FRAMESET"))
           (childrenOf root);
    Some [i; j]
  else None.

(** *** Attribute lists ([utils.js] works on these) *)

Fixpoint removeAttribute (name : string) (attrs : list (string * string))
  : list (string * string) :=
  match attrs with
  | [] => []
  | (k, v) :: rest =>
      if String.eqb k name then rest else (k, v) :: removeAttribute name rest
  end.

Fixpoint setAttribute (name value : string) (attrs : list (string * string))
  : list (string * string) :=
  match attrs with
  | [] => [(name, value)]
  | (k, v) :: rest =>
      if String.eqb k name then (k, value) :: rest
      else (k, v) :: setAttribute name value rest
  end.

(** [element.getAttribute(name)] *)
Definition getAttribute (name : string) (n : Node) : option string :=
  assoc name (attributesOf n).

(** ** Session history

    The entries behind the current one (nearest first), the current
    entry, and the entries ahead of it (nearest first).  An entry made by
    the engine carries a state object [{url}] or [{url, scroll}]; an entry
    made by the browser itself carries none.  The URL of an entry stands
    for [location.pathname + location.search] while it is current. *)

Record StateObject := {
  so_url : string;
  so_scroll : option (Z * Z)
}.

Record HistoryEntry := {
  entry_state : option StateObject;
  entry_url : string
}.

Record History := {
  past : list HistoryEntry;
  current : HistoryEntry;
  future : list HistoryEntry
}.

(** [history.pushState(state, title, url)]: the entries ahead are dropped. *)
Definition pushState (st : StateObject) (url : string) (h : History) : History :=
  {| past := current h :: past h;
     current := {| entry_state := Some st; entry_url := url |};
     future := [] |}.

(** [history.replaceState(state, title, url)] *)
Definition replaceState (st : StateObject) (url : string) (h : History) : History :=
  {| past := past h;
     current := {| entry_state := Some st; entry_url := url |};
     future := future h |}.

(** The browser's back and forward buttons. *)
Inductive Direction := Back | Forward.

Definition traverse (d : Direction) (h : History) : option History :=
  match d with
  | Back =>
      match past h with
      | [] => None
      | e :: rest =>
          Some {| past := rest; current := e; future := current h :: future h |}
      end
  | Forward =>
      match future h with
      | [] => None
      | e :: rest =>
          Some {| past := current h :: past h; current := e; future := rest |}
      end
  end.

(** The position of the current entry: how many entries the back button
    can reach, plus the current one. *)
Definition depth (h : History) : nat := S (length (past h)).

(** ** XMLHttpRequest objects

    A request object keeps what the closures installed by [makeRequest]
    captured ([url], [isPopState], [callback]) next to its own state.
    The callback of a history traversal closes over the state object of
    the popstate event; a click passes [null]. *)

Inductive ReadyState := UNSENT | OPENED | HEADERS_RECEIVED | LOADING | DONE.

Record Request := {
  req_url : string;
  req_isPopState : bool;
  req_callback : option StateObject;
  req_timeout : JsValue;
  readyState : ReadyState;
  status : Z;
  responseText : string
}.

(** A request that was sent and has not completed. *)
Definition inFlight (r : Request) : bool :=
  match readyState r with
  | OPENED | HEADERS_RECEIVED | LOADING => true
  | UNSENT | DONE => false
  end.

Definition settle (rs : ReadyState) (st : Z) (body : string) (r : Request) : Request :=
  {| req_url := req_url r; req_isPopState := req_isPopState r;
     req_callback := req_callback r; req_timeout := req_timeout r;
     readyState := rs; status := st; responseText := body |}.

(** ** Exceptions and observable effects *)

Inductive Exn :=
| TypeError (message : string)
| SyntaxError (message : string).

Inductive Effect :=
| ConsoleError (message : string)
| ConsoleErrorException (e : Exn)
| UncaughtException (e : Exn)
| LocationAssign (url : string)
| XhrSend (id : nat) (url : string)
| XhrAbort (id : nat)
| HistoryReplaceState (st : StateObject) (url : string)
| HistoryPushState (st : StateObject) (url : string)
| ScrollTo (x y : Z)
| DispatchEvent (type : string)
| CallBack (f : JsValue)
| PreventDefault.

(** ** The instance

    One rule of the update matrix, as read by [updateDOM]: the selector
    and the two flags, each a boolean or absent. *)

Record UpdateConfig := {
  selector : string;
  updateHTML : option bool;
  updateAttrs : option bool
}.

(** The fields of [this].  A field that was never assigned is
    [JsUndefined], [None] or empty. *)
Record Mercury := {
  updateMatrix : list UpdateConfig;
  timeout : JsValue;
  enableCache : JsValue;
  onLoad : JsValue;
  onUnload : JsValue;
  onNavigate : JsValue;
  onLoadDelay : JsValue;
  onClickExceptionSelector : string;
  onRequestExceptionRegex : option string;
  cache : option (gmap string (gmap string string));
  loadEvent : option string;
  unloadEvent : option string;
  XHR : option nat;
  onLoadDelayTimeout : option nat
}.

Definition blank : Mercury :=
  {| updateMatrix := []; timeout := JsUndefined; enableCache := JsUndefined;
     onLoad := JsUndefined; onUnload := JsUndefined; onNavigate := JsUndefined;
     onLoadDelay := JsUndefined; onClickExceptionSelector := "";
     onRequestExceptionRegex := None; cache := None;
     loadEvent := None; unloadEvent := None;
     XHR := None; onLoadDelayTimeout := None |}.

(** ** The page

    Everything a handler can read or change: the live document, the
    session history, the scroll offset, every request object created so
    far (a request is identified by its index), the pending timeouts
    (timer id, request whose response is to be applied), the event types
    the engine listens to, the chronological trace of effects, and the
    instance. *)

Record World := {
  document : list Node;
  history : History;
  scrollRestoration : string;
  pageOffset : Z * Z;
  requests : list Request;
  timers : list (nat * nat);
  timerCount : nat;
  listeners : list string;
  trace : list Effect;
  this : Mercury
}.

(** What the browser provides and the source does not define: the
    capabilities the constructor probes, selector matching, markup
    parsing and serialisation, regular expressions, and whether the
    request error steps of XMLHttpRequest (abort, network error, timeout)
    dispatch a last [readystatechange] with [readyState] DONE and status
    0, as the XMLHttpRequest standard prescribes. *)
Record Host := {
  hasHistory : bool;
  hasPushState : bool;
  hasQuerySelector : bool;
  hasScrollRestoration : bool;
  hasCustomEvent : bool;
  selectorValid : string -> bool;
  selects : string -> list Node -> Path -> bool;
  parseFromString : string -> list Node;
  parseFragment : string -> list Node;
  serialize : list Node -> string;
  regExpValid : string -> bool;
  regExpFinds : string -> string -> bool;
  errorStepsNotify : bool
}.

(** ** The monad of handler bodies *)

Inductive Completion (A : Type) :=
| Normal (a : A)
| Throw (e : Exn).
Arguments Normal {A} a.
Arguments Throw {A} e.

Definition Js (A : Type) : Type := World -> Completion A * World.

Definition ret {A : Type} (a : A) : Js A := fun w => (Normal a, w).

Definition bind {A B : Type} (c : Js A) (k : A -> Js B) : Js B :=
  fun w =>
    match c w with
    | (Normal a, w') => k a w'
    | (Throw e, w') => (Throw e, w')
    end.

Definition throw {A : Type} (e : Exn) : Js A := fun w => (Throw e, w).

(** [try { body } catch (error) { handler }] *)
Definition tryCatch {A : Type} (body : Js A) (handler : Exn -> Js A) : Js A :=
  fun w =>
    match body w with
    | (Normal a, w') => (Normal a, w')
    | (Throw e, w') => handler e w'
    end.

Definition get : Js World := fun w => (Normal w, w).

Definition modify (f : World -> World) : Js unit := fun w => (Normal tt, f w).

Notation "'let!' x := c 'in' k" := (bind c (fun x => k))
  (at level 10, x name, c at level 100, k at level 200).
Notation "c ;;; k" := (bind c (fun _ => k))
  (at level 100, k at level 200, right associativity).

(** [when c body]: [if (c) { body }] *)
Definition when (c : bool) (body : Js unit) : Js unit :=
  if c then body else ret tt.

(** [items.forEach(f)] *)
Fixpoint forEach {A : Type} (f : A -> Js unit) (items : list A) : Js unit :=
  match items with
  | [] => ret tt
  | x :: rest => f x ;;; forEach f rest
  end.

(** [items.every(f)]: stops at the first item that fails. *)
Fixpoint every {A : Type} (f : A -> Js bool) (items : list A) : Js bool :=
  match items with
  | [] => ret true
  | x :: rest => let! ok := f x in if ok then every f rest else ret false
  end.

(** *** Field updates *)

Definition set_document (v : list Node) (w : World) : World :=
  {| document := v; history := history w; scrollRestoration := scrollRestoration w;
     pageOffset := pageOffset w; requests := requests w; timers := timers w;
     timerCount := timerCount w; listeners := listeners w; trace := trace w;
     this := this w |}.

Definition set_history (v : History) (w : World) : World :=
  {| document := document w; history := v; scrollRestoration := scrollRestoration w;
     pageOffset := pageOffset w; requests := requests w; timers := timers w;
     timerCount := timerCount w; listeners := listeners w; trace := trace w;
     this := this w |}.

Definition set_scrollRestoration (v : string) (w : World) : World :=
  {| document := document w; history := history w; scrollRestoration := v;
     pageOffset := pageOffset w; requests := requests w; timers := timers w;
     timerCount := timerCount w; listeners := listeners w; trace := trace w;
     this := this w |}.

Definition set_pageOffset (v : Z * Z) (w : World) : World :=
  {| document := document w; history := history w; scrollRestoration := scrollRestoration w;
     pageOffset := v; requests := requests w; timers := timers w;
     timerCount := timerCount w; listeners := listeners w; trace := trace w;
     this := this w |}.

Definition set_requests (v : list Request) (w : World) : World :=
  {| document := document w; history := history w; scrollRestoration := scrollRestoration w;
     pageOffset := pageOffset w; requests := v; timers := timers w;
     timerCount := timerCount w; listeners := listeners w; trace := trace w;
     this := this w |}.

Definition set_timers (v : list (nat * nat)) (w : World) : World :=
  {| document := document w; history := history w; scrollRestoration := scrollRestoration w;
     pageOffset := pageOffset w; requests := requests w; timers := v;
     timerCount := timerCount w; listeners := listeners w; trace := trace w;
     this := this w |}.

Definition set_timerCount (v : nat) (w : World) : World :=
  {| document := document w; history := history w; scrollRestoration := scrollRestoration w;
     pageOffset := pageOffset w; requests := requests w; timers := timers w;
     timerCount := v; listeners := listeners w; trace := trace w;
     this := this w |}.

Definition set_listeners (v : list string) (w : World) : World :=
  {| document := document w; history := history w; scrollRestoration := scrollRestoration w;
     pageOffset := pageOffset w; requests := requests w; timers := timers w;
     timerCount := timerCount w; listeners := v; trace := trace w;
     this := this w |}.

Definition set_trace (v : list Effect) (w : World) : World :=
  {| document := document w; history := history w; scrollRestoration := scrollRestoration w;
     pageOffset := pageOffset w; requests := requests w; timers := timers w;
     timerCount := timerCount w; listeners := listeners w; trace := v;
     this := this w |}.

Definition set_this (v : Mercury) (w : World) : World :=
  {| document := document w; history := history w; scrollRestoration := scrollRestoration w;
     pageOffset := pageOffset w; requests := requests w; timers := timers w;
     timerCount := timerCount w; listeners := listeners w; trace := trace w;
     this := v |}.

(** An observable effect, appended to the trace. *)
Definition emit (e : Effect) : Js unit :=
  modify (fun w => set_trace (trace w ++ [e]) w).

(** [this.field = value] *)
Definition assign (f : Mercury -> Mercury) : Js unit :=
  modify (fun w => set_this (f (this w)) w).

(** [this] *)
Definition self : Js Mercury := fun w => (Normal (this w), w).

Definition with_updateMatrix (v : list UpdateConfig) (m : Mercury) : Mercury :=
  {| updateMatrix := v; timeout := timeout m; enableCache := enableCache m;
     onLoad := onLoad m; onUnload := onUnload m; onNavigate := onNavigate m;
     onLoadDelay := onLoadDelay m;
     onClickExceptionSelector := onClickExceptionSelector m;
     onRequestExceptionRegex := onRequestExceptionRegex m; cache := cache m;
     loadEvent := loadEvent m; unloadEvent := unloadEvent m; XHR := XHR m;
     onLoadDelayTimeout := onLoadDelayTimeout m |}.

Definition with_timeout (v : JsValue) (m : Mercury) : Mercury :=
  {| updateMatrix := updateMatrix m; timeout := v; enableCache := enableCache m;
     onLoad := onLoad m; onUnload := onUnload m; onNavigate := onNavigate m;
     onLoadDelay := onLoadDelay m;
     onClickExceptionSelector := onClickExceptionSelector m;
     onRequestExceptionRegex := onRequestExceptionRegex m; cache := cache m;
     loadEvent := loadEvent m; unloadEvent := unloadEvent m; XHR := XHR m;
     onLoadDelayTimeout := onLoadDelayTimeout m |}.

Definition with_enableCache (v : JsValue) (m : Mercury) : Mercury :=
  {| updateMatrix := updateMatrix m; timeout := timeout m; enableCache := v;
     onLoad := onLoad m; onUnload := onUnload m; onNavigate := onNavigate m;
     onLoadDelay := onLoadDelay m;
     onClickExceptionSelector := onClickExceptionSelector m;
     onRequestExceptionRegex := onRequestExceptionRegex m; cache := cache m;
     loadEvent := loadEvent m; unloadEvent := unloadEvent m; XHR := XHR m;
     onLoadDelayTimeout := onLoadDelayTimeout m |}.

Definition with_onLoad (v : JsValue) (m : Mercury) : Mercury :=
  {| updateMatrix := updateMatrix m; timeout := timeout m;
     enableCache := enableCache m; onLoad := v; onUnload := onUnload m;
     onNavigate := onNavigate m; onLoadDelay := onLoadDelay m;
     onClickExceptionSelector := onClickExceptionSelector m;
     onRequestExceptionRegex := onRequestExceptionRegex m; cache := cache m;
     loadEvent := loadEvent m; unloadEvent := unloadEvent m; XHR := XHR m;
     onLoadDelayTimeout := onLoadDelayTimeout m |}.

Definition with_onUnload (v : JsValue) (m : Mercury) : Mercury :=
  {| updateMatrix := updateMatrix m; timeout := timeout m;
     enableCache := enableCache m; onLoad := onLoad m; onUnload := v;
     onNavigate := onNavigate m; onLoadDelay := onLoadDelay m;
     onClickExceptionSelector := onClickExceptionSelector m;
     onRequestExceptionRegex := onRequestExceptionRegex m; cache := cache m;
     loadEvent := loadEvent m; unloadEvent := unloadEvent m; XHR := XHR m;
     onLoadDelayTimeout := onLoadDelayTimeout m |}.

Definition with_onNavigate (v : JsValue) (m : Mercury) : Mercury :=
  {| updateMatrix := updateMatrix m; timeout := timeout m;
     enableCache := enableCache m; onLoad := onLoad m; onUnload := onUnload m;
     onNavigate := v; onLoadDelay := onLoadDelay m;
     onClickExceptionSelector := onClickExceptionSelector m;
     onRequestExceptionRegex := onRequestExceptionRegex m; cache := cache m;
     loadEvent := loadEvent m; unloadEvent := unloadEvent m; XHR := XHR m;
     onLoadDelayTimeout := onLoadDelayTimeout m |}.

Definition with_onLoadDelay (v : JsValue) (m : Mercury) : Mercury :=
  {| updateMatrix := updateMatrix m; timeout := timeout m;
     enableCache := enableCache m; onLoad := onLoad m; onUnload := onUnload m;
     onNavigate := onNavigate m; onLoadDelay := v;
     onClickExceptionSelector := onClickExceptionSelector m;
     onRequestExceptionRegex := onRequestExceptionRegex m; cache := cache m;
     loadEvent := loadEvent m; unloadEvent := unloadEvent m; XHR := XHR m;
     onLoadDelayTimeout := onLoadDelayTimeout m |}.

Definition with_onClickExceptionSelector (v : string) (m : Mercury) : Mercury :=
  {| updateMatrix := updateMatrix m; timeout := timeout m;
     enableCache := enableCache m; onLoad := onLoad m; onUnload := onUnload m;
     onNavigate := onNavigate m; onLoadDelay := onLoadDelay m;
     onClickExceptionSelector := v;
     onRequestExceptionRegex := onRequestExceptionRegex m; cache := cache m;
     loadEvent := loadEvent m; unloadEvent := unloadEvent m; XHR := XHR m;
     onLoadDelayTimeout := onLoadDelayTimeout m |}.

Definition with_onRequestExceptionRegex (v : option string) (m : Mercury) : Mercury :=
  {| updateMatrix := updateMatrix m; timeout := timeout m;
     enableCache := enableCache m; onLoad := onLoad m; onUnload := onUnload m;
     onNavigate := onNavigate m; onLoadDelay := onLoadDelay m;
     onClickExceptionSelector := onClickExceptionSelector m;
     onRequestExceptionRegex := v; cache := cache m; loadEvent := loadEvent m;
     unloadEvent := unloadEvent m; XHR := XHR m;
     onLoadDelayTimeout := onLoadDelayTimeout m |}.

Definition with_cache (v : option (gmap string (gmap string string))) (m : Mercury) : Mercury :=
  {| updateMatrix := updateMatrix m; timeout := timeout m;
     enableCache := enableCache m; onLoad := onLoad m; onUnload := onUnload m;
     onNavigate := onNavigate m; onLoadDelay := onLoadDelay m;
     onClickExceptionSelector := onClickExceptionSelector m;
     onRequestExceptionRegex := onRequestExceptionRegex m; cache := v;
     loadEvent := loadEvent m; unloadEvent := unloadEvent m; XHR := XHR m;
     onLoadDelayTimeout := onLoadDelayTimeout m |}.

Definition with_loadEvent (v : option string) (m : Mercury) : Mercury :=
  {| updateMatrix := updateMatrix m; timeout := timeout m;
     enableCache := enableCache m; onLoad := onLoad m; onUnload := onUnload m;
     onNavigate := onNavigate m; onLoadDelay := onLoadDelay m;
     onClickExceptionSelector := onClickExceptionSelector m;
     onRequestExceptionRegex := onRequestExceptionRegex m; cache := cache m;
     loadEvent := v; unloadEvent := unloadEvent m; XHR := XHR m;
     onLoadDelayTimeout := onLoadDelayTimeout m |}.

Definition with_unloadEvent (v : option string) (m : Mercury) : Mercury :=
  {| updateMatrix := updateMatrix m; timeout := timeout m;
     enableCache := enableCache m; onLoad := onLoad m; onUnload := onUnload m;
     onNavigate := onNavigate m; onLoadDelay := onLoadDelay m;
     onClickExceptionSelector := onClickExceptionSelector m;
     onRequestExceptionRegex := onRequestExceptionRegex m; cache := cache m;
     loadEvent := loadEvent m; unloadEvent := v; XHR := XHR m;
     onLoadDelayTimeout := onLoadDelayTimeout m |}.

Definition with_XHR (v : option nat) (m : Mercury) : Mercury :=
  {| updateMatrix := updateMatrix m; timeout := timeout m;
     enableCache := enableCache m; onLoad := onLoad m; onUnload := onUnload m;
     onNavigate := onNavigate m; onLoadDelay := onLoadDelay m;
     onClickExceptionSelector := onClickExceptionSelector m;
     onRequestExceptionRegex := onRequestExceptionRegex m; cache := cache m;
     loadEvent := loadEvent m; unloadEvent := unloadEvent m; XHR := v;
     onLoadDelayTimeout := onLoadDelayTimeout m |}.

Definition with_onLoadDelayTimeout (v : option nat) (m : Mercury) : Mercury :=
  {| updateMatrix := updateMatrix m; timeout := timeout m;
     enableCache := enableCache m; onLoad := onLoad m; onUnload := onUnload m;
     onNavigate := onNavigate m; onLoadDelay := onLoadDelay m;
     onClickExceptionSelector := onClickExceptionSelector m;
     onRequestExceptionRegex := onRequestExceptionRegex m; cache := cache m;
     loadEvent := loadEvent m; unloadEvent := unloadEvent m; XHR := XHR m;
     onLoadDelayTimeout := v |}.

(** ** [constants.js] *)

(** The double quote character, and a quoted piece of selector text. *)
Definition dquote : string := String (Ascii.ascii_of_nat 34) EmptyString.

Definition quoted (s : string) : string := dquote +:+ s +:+ dquote.

Definition BASE_ON_CLICK_EXCEPTIONS : list JsValue :=
  [ JsString "a:not([href])";
    JsString ("[href^=" +:+ quoted "http" +:+ "]");
    JsString ("[href^=" +:+ quoted "#" +:+ "]");
    JsString ("[href^=" +:+ quoted "/#" +:+ "]");
    JsString ("[target=" +:+ quoted "_blank" +:+ "]");
    JsString ("[href^=" +:+ quoted "tel" +:+ "]");
    JsString ("[href^=" +:+ quoted "mailto" +:+ "]");
    JsString ("[href^=" +:+ quoted "javascript" +:+ "]") ].

(** ** Host primitives used by more than one file *)

(** [console.error(message)] *)
Definition consoleError (message : string) : Js unit :=
  emit (ConsoleError message).

(** The conversion inside a template literal. *)
Definition template (v : JsValue) : Js string :=
  match toString v with
  | Some s => ret s
  | None => throw (TypeError "Cannot convert the value to a string")
  end.

(** Destructuring [const { a, b } = v] or a destructuring parameter. *)
Definition requireObjectCoercible (v : JsValue) : Js unit :=
  if nullish v then throw (TypeError "Cannot destructure a nullish value")
  else ret tt.

(** ** [validation.js] *)

Definition isValidUpdateMatrix (matrix : JsValue) : Js bool :=
  match matrix with
  | JsArray items =>
      every
        (fun updateConfig =>
           requireObjectCoercible updateConfig ;;;
           let selector := property updateConfig "selector" in
           let updateHTML := property updateConfig "updateHTML" in
           let updateAttrs := property updateConfig "updateAttrs" in
           if negb (String.eqb (typeof selector) "string") then
             let! shown := template selector in
             consoleError (shown +:+ " is not a valid selector.") ;;;
             ret false
           else
             let nonBooleanUpdateHTML :=
               negb (String.eqb (typeof updateHTML) "undefined")
               && negb (String.eqb (typeof updateHTML) "boolean") in
             let nonBooleanUpdateAttrs :=
               negb (String.eqb (typeof updateAttrs) "undefined")
               && negb (String.eqb (typeof updateAttrs) "boolean") in
             if nonBooleanUpdateHTML || nonBooleanUpdateAttrs then
               let! shown := template selector in
               consoleError
                 ("Non-boolean updateHTML or updateAttrs provided for selector "
                    +:+ shown +:+ ".") ;;;
               ret false
             else ret true)
        items
  | _ =>
      consoleError "updateMatrix is not an Array" ;;;
      ret false
  end.

Definition validateOptionalParam (param : JsValue) (type : string) (fallback : JsValue)
  : Js JsValue :=
  match param with
  | JsUndefined => ret fallback
  | _ =>
      if negb (String.eqb (typeof param) type) then
        let! shown := template param in
        consoleError (shown +:+ " is not a " +:+ type +:+ ".") ;;;
        ret fallback
      else ret param
  end.

(** [delayTime < 0], reached for numbers only. *)
Definition lessThanZero (v : JsValue) : bool :=
  match v with JsNumber x => belowZero x | _ => false end.

Definition validateOnLoadDelay (delayTime : JsValue) : Js JsValue :=
  match delayTime with
  | JsUndefined => ret (JsNumber (integer 0))
  | _ =>
      if negb (String.eqb (typeof delayTime) "number") then
        let! shown := template delayTime in
        consoleError (shown +:+ " is not a number.") ;;;
        ret (JsNumber (integer 0))
      else if lessThanZero delayTime then
        let! shown := template delayTime in
        consoleError (shown +:+ " is less than 0.") ;;;
        ret (JsNumber (integer 0))
      else ret delayTime
  end.

(** ** DOM operations on the live document *)

Definition onElement (element : Path) (f : Node -> Node) : Js unit :=
  modify (fun w => set_document (updateAt f (document w) element) w).

(** [element.removeAttribute(name)] *)
Definition elementRemoveAttribute (element : Path) (name : string) : Js unit :=
  onElement element (fun n => setAttributes (removeAttribute name (attributesOf n)) n).

(** [element.setAttribute(name, value)] *)
Definition elementSetAttribute (element : Path) (name value : string) : Js unit :=
  onElement element (fun n => setAttributes (setAttribute name value (attributesOf n)) n).

(** [Array.from(element.attributes)] *)
Definition elementAttributes (element : Path) : Js (list (string * string)) :=
  let! w := get in
  ret (match nodeAt (document w) element with
       | Some n => attributesOf n
       | None => []
       end).

(** [element.parentNode.removeChild(element)] *)
Definition removeFromParent (element : Path) : Js unit :=
  modify (fun w => set_document (removeAt (document w) element) w).

(** [window.scrollTo(x, y)] *)
Definition scrollTo (x y : Z) : Js unit :=
  modify (set_pageOffset (x, y)) ;;;
  emit (ScrollTo x y).

(** [window.location = url]: the browser leaves for [url]. *)
Definition assignLocation (url : string) : Js unit :=
  emit (LocationAssign url).

(** [window.dispatchEvent(event)]; the listeners are the caller's. *)
Definition dispatchEvent (event : option string) : Js unit :=
  match event with
  | Some type => emit (DispatchEvent type)
  | None => throw (TypeError "parameter 1 is not of type Event")
  end.

(** ** [utils.js] *)

Definition replaceAttributes (element : Path) (referenceElement : Node) : Js unit :=
  let! elementAttributes := elementAttributes element in
  forEach (fun attribute => elementRemoveAttribute element (fst attribute))
          elementAttributes ;;;
  forEach (fun attribute => elementSetAttribute element (fst attribute) (snd attribute))
          (attributesOf referenceElement).

(** ** [Mercury.js] *)

(** The typed reading of an accepted rule: [updateDOM] reads the three
    properties of each rule object, and [isValidUpdateMatrix] has made
    sure that the selector is a string and each flag a boolean or
    absent. *)
Definition flagOf (v : JsValue) : option bool :=
  match v with JsBoolean b => Some b | _ => None end.

Definition ruleOf (updateConfig : JsValue) : UpdateConfig :=
  {| selector := match property updateConfig "selector" with
                 | JsString s => s
                 | _ => ""
                 end;
     updateHTML := flagOf (property updateConfig "updateHTML");
     updateAttrs := flagOf (property updateConfig "updateAttrs") |}.

Definition rulesOf (matrix : JsValue) : list UpdateConfig :=
  match matrix with
  | JsArray items => map ruleOf items
  | _ => []
  end.

(** Truthiness of a flag that is a boolean or absent. *)
Definition isSet (flag : option bool) : bool := default false flag.

(** A destructured property with a default value. *)
Definition propertyOr (v : JsValue) (key : string) (fallback : JsValue) : JsValue :=
  match property v key with
  | JsUndefined => fallback
  | x => x
  end.

Definition itemsOf (v : JsValue) : list JsValue :=
  match v with JsArray items => items | _ => [] end.

(** A click event: the modifier keys and the element clicked on. *)
Record ClickEvent := {
  metaKey : bool;
  ctrlKey : bool;
  altKey : bool;
  shiftKey : bool;
  target : Path
}.

Section Engine.

Context (host : Host).

(** [doc.querySelector(selector)]: the first element in document order
    that the selector selects; a SyntaxError for an invalid selector. *)
Definition querySelectorIn (doc : list Node) (sel : string) : Js (option Path) :=
  if selectorValid host sel then
    ret (List.find (selects host sel doc) (elementPaths doc))
  else throw (SyntaxError "not a valid selector").

Definition querySelector (sel : string) : Js (option Path) :=
  let! w := get in
  querySelectorIn (document w) sel.

(** [element.matches(selector)] on the live document. *)
Definition elementMatches (element : Path) (sel : string) : Js bool :=
  let! w := get in
  if selectorValid host sel then ret (selects host sel (document w) element)
  else throw (SyntaxError "not a valid selector").

(** [element.innerHTML] *)
Definition innerHTML (n : Node) : string := serialize host (childrenOf n).

(** [element.innerHTML = html] *)
Definition setInnerHTML (element : Path) (html : string) : Js unit :=
  onElement element (setChildren (parseFragment host html)).

(** [new RegExp(pattern, 'gi')] *)
Definition newRegExp (pattern : string) : Js string :=
  if regExpValid host pattern then ret pattern
  else throw (SyntaxError "Invalid regular expression").

(** [new CustomEvent(type)] *)
Definition newCustomEvent (type : string) : Js string :=
  if hasCustomEvent host then ret type
  else throw (TypeError "CustomEvent is not a constructor").

(** [target.addEventListener(type, listener)] *)
Definition addEventListener (type : string) : Js unit :=
  modify (fun w =>
            if bool_decide (type ∈ listeners w) then w
            else set_listeners (listeners w ++ [type]) w).

(** [target.removeEventListener(type, listener)] *)
Definition removeEventListener (type : string) : Js unit :=
  modify (fun w =>
            set_listeners (filter (fun t => t ≠ type) (listeners w)) w).

(** [document.body], dereferenced. *)
Definition documentBody : Js Path :=
  let! w := get in
  match bodyOf (document w) with
  | Some body => ret body
  | None => throw (TypeError "document.body is null")
  end.

Definition validateAndAssignConfig (config : JsValue) : Js bool :=
  requireObjectCoercible config ;;;
  let updateMatrix := property config "updateMatrix" in
  let onClickExceptions := propertyOr config "onClickExceptions" (JsArray []) in
  let onRequestExceptions := propertyOr config "onRequestExceptions" (JsArray []) in
  let! valid := isValidUpdateMatrix updateMatrix in
  if negb valid then ret false
  else
    assign (with_updateMatrix (rulesOf updateMatrix)) ;;;
    let! v := validateOptionalParam (property config "timeout") "number"
                (JsNumber (integer 5000)) in
    assign (with_timeout v) ;;;
    let! v := validateOptionalParam (property config "enableCache") "boolean"
                (JsBoolean false) in
    assign (with_enableCache v) ;;;
    let! v := validateOptionalParam (property config "onLoad") "function"
                (JsFunction "() => {}" JsUndefined) in
    assign (with_onLoad v) ;;;
    let! v := validateOptionalParam (property config "onUnload") "function"
                (JsFunction "() => {}" JsUndefined) in
    assign (with_onUnload v) ;;;
    let! v := validateOptionalParam (property config "onNavigate") "function"
                (JsFunction "() => {}" JsUndefined) in
    assign (with_onNavigate v) ;;;
    let! v := validateOnLoadDelay (property config "onLoadDelay") in
    assign (with_onLoadDelay v) ;;;
    (if isArray onClickExceptions then
       match join "," (BASE_ON_CLICK_EXCEPTIONS ++ itemsOf onClickExceptions) with
       | Some s => assign (with_onClickExceptionSelector s)
       | None => throw (TypeError "Cannot convert the value to a string")
       end
     else
       match join "," BASE_ON_CLICK_EXCEPTIONS with
       | Some s => assign (with_onClickExceptionSelector s)
       | None => throw (TypeError "Cannot convert the value to a string")
       end) ;;;
    when (isArray onRequestExceptions
          && negb (length (itemsOf onRequestExceptions) =? 0))
      (match join "|" (itemsOf onRequestExceptions) with
       | Some pattern =>
           let! regex := newRegExp pattern in
           assign (with_onRequestExceptionRegex (Some regex))
       | None => throw (TypeError "Cannot convert the value to a string")
       end) ;;;
    ret true.

Definition replaceHistoryStateWithScrollPosition : Js unit :=
  let! w := get in
  let url := entry_url (current (history w)) in
  let stateObject := {| so_url := url; so_scroll := Some (pageOffset w) |} in
  modify (fun w => set_history (replaceState stateObject url (history w)) w) ;;;
  emit (HistoryReplaceState stateObject url).

(** [this.enableCache && this.cache[url] && this.cache[url][selector]],
    as the markup to use when the conjunction is truthy.  The cache and
    its tables are finite maps here: URLs and selectors are looked up
    as keys of the objects themselves, which is what the code does for
    every string that does not name a property of [Object.prototype]. *)
Definition hasCached (url sel : string) : Js (option string) :=
  let! me := self in
  if toBoolean (enableCache me) then
    match cache me with
    | None => throw (TypeError "this.cache is undefined")
    | Some entries =>
        ret (html ← (entries !! url) ≫= (.!! sel);
             if String.eqb html "" then None else Some html)
    end
  else ret None.

(** The callback that [updateDOM] hands to [updateMatrix.forEach]: one
    rule of the matrix applied to the live document, against the
    reference document [newDoc]. *)
Definition patch (newDoc : list Node) (url : string) (updateConfig : UpdateConfig)
  : Js unit :=
  let! activeElement := querySelector (selector updateConfig) in
  let! referenceElement := querySelectorIn newDoc (selector updateConfig) in
  match activeElement, referenceElement ≫= nodeAt newDoc with
  | Some activeElement, Some referenceElement =>
      when (isSet (updateHTML updateConfig))
        (let! cached := hasCached url (selector updateConfig) in
         let newHTML := default (innerHTML referenceElement) cached in
         setInnerHTML activeElement newHTML) ;;;
      when (isSet (updateAttrs updateConfig))
        (replaceAttributes activeElement referenceElement)
  | Some activeElement, None => removeFromParent activeElement
  | None, _ => ret tt
  end.

Definition updateDOM (url responseText : string) : Js unit :=
  let newDoc := parseFromString host responseText in
  let! me := self in
  forEach (patch newDoc url) (updateMatrix me) ;;;
  scrollTo 0 0.

(** The callback of [onPopState], closed over the state of the event. *)
Definition restoreScroll (state : StateObject) : Js unit :=
  match so_scroll state with
  | Some (x, y) => scrollTo x y
  | None => scrollTo 0 0
  end.

Definition modifyPageAndHistory
    (url : string) (isPopState : bool) (callback : option StateObject)
    (responseText : string) : Js unit :=
  when (negb isPopState)
    (let stateObject := {| so_url := url; so_scroll := None |} in
     modify (fun w => set_history (pushState stateObject url (history w)) w) ;;;
     emit (HistoryPushState stateObject url)) ;;;
  updateDOM url responseText ;;;
  match callback with
  | Some state => restoreScroll state
  | None => ret tt
  end ;;;
  let! me := self in
  dispatchEvent (loadEvent me).

(** *** Requests and timers *)

Definition updateRequest (id : nat) (f : Request -> Request) : Js unit :=
  modify (fun w => set_requests (alter f id (requests w)) w).

(** A listener or timer callback run by the browser: an exception that
    escapes it is reported and goes no further. *)
Definition listener (body : Js unit) : Js unit :=
  tryCatch body (fun error => emit (UncaughtException error)).

(** [window.setTimeout(callback, delay)], for the callback that applies
    the response of [request]. *)
Definition setTimeout (request : nat) : Js nat :=
  let! w := get in
  let id := S (timerCount w) in
  modify (fun w => set_timerCount id (set_timers (timers w ++ [(id, request)]) w)) ;;;
  ret id.

(** [window.clearTimeout(id)]; nothing happens for [undefined]. *)
Definition clearTimeout (id : option nat) : Js unit :=
  match id with
  | Some id =>
      modify (fun w => set_timers (filter (fun t => t.1 ≠ id) (timers w)) w)
  | None => ret tt
  end.

(** The [onreadystatechange] handler installed by [makeRequest]; the
    event target is the request [e_target]. *)
Definition onreadystatechange (e_target : nat) : Js unit :=
  let! w := get in
  match requests w !! e_target with
  | None => ret tt
  | Some request =>
      let url := req_url request in
      match readyState request with
      | DONE =>
          if negb (status request =? 200)%Z then assignLocation url
          else
            tryCatch
              (let! me := self in
               let isRegExp := bool_decide (is_Some (onRequestExceptionRegex me)) in
               let doesNotMatchExceptions :=
                 match onRequestExceptionRegex me with
                 | Some pattern => regExpFinds host pattern (responseText request)
                 | None => true
                 end in
               if isRegExp && doesNotMatchExceptions then assignLocation url
               else
                 dispatchEvent (unloadEvent me) ;;;
                 let! me := self in
                 if toBoolean (onLoadDelay me) then
                   let! id := setTimeout e_target in
                   assign (with_onLoadDelayTimeout (Some id))
                 else
                   modifyPageAndHistory url (req_isPopState request)
                     (req_callback request) (responseText request))
              (fun error => emit (ConsoleErrorException error))
      | _ => ret tt
      end
  end.

(** The body of the timeout set by [onreadystatechange]. *)
Definition onLoadDelayElapsed (e_target : nat) : Js unit :=
  let! w := get in
  match requests w !! e_target with
  | None => ret tt
  | Some request =>
      modifyPageAndHistory (req_url request) (req_isPopState request)
        (req_callback request) (responseText request)
  end.

(** The [ontimeout] and [onerror] handlers installed by [makeRequest]. *)
Definition ontimeout (e_target : nat) : Js unit :=
  let! w := get in
  match requests w !! e_target with
  | None => ret tt
  | Some request => assignLocation (req_url request)
  end.

Definition onerror (e_target : nat) : Js unit :=
  let! w := get in
  match requests w !! e_target with
  | None => ret tt
  | Some request => assignLocation (req_url request)
  end.

(** [xhr.abort()]: a request in flight is terminated by the request
    error steps and then reset; a completed one is only reset. *)
Definition abort (xhr : nat) : Js unit :=
  emit (XhrAbort xhr) ;;;
  let! w := get in
  match requests w !! xhr with
  | None => ret tt
  | Some request =>
      if inFlight request then
        updateRequest xhr (settle DONE 0 "") ;;;
        when (errorStepsNotify host) (listener (onreadystatechange xhr)) ;;;
        updateRequest xhr (settle UNSENT 0 "")
      else
        match readyState request with
        | DONE => updateRequest xhr (settle UNSENT 0 "")
        | _ => ret tt
        end
  end.

Definition makeRequest
    (url : string) (isPopState : bool) (callback : option StateObject) : Js unit :=
  let! me := self in
  when (toBoolean (onNavigate me)) (emit (CallBack (onNavigate me))) ;;;
  replaceHistoryStateWithScrollPosition ;;;
  let! w := get in
  let xhr := length (requests w) in
  let! me := self in
  modify (set_requests
            (requests w ++
             [ {| req_url := url; req_isPopState := isPopState;
                  req_callback := callback; req_timeout := timeout me;
                  readyState := OPENED; status := 0; responseText := "" |} ])) ;;;
  assign (with_XHR (Some xhr)) ;;;
  emit (XhrSend xhr url).

Definition isKeyModified (e : ClickEvent) : bool :=
  metaKey e || ctrlKey e || altKey e || shiftKey e.

(** The walk up the ancestors in [onClick].  The path is given
    innermost index first, so that the parent element is the tail; the
    empty path stands for [null], the parent of the root element. *)
Fixpoint climb (doc : list Node) (body : option Path) (reversed : list nat)
  : option Path :=
  match reversed with
  | [] => None
  | _ :: parent =>
      let target := rev reversed in
      if bool_decide (Some target = body)
         || String.eqb (toUpperCase (from_option tagOf "" (nodeAt doc target))) "A"
      then Some target
      else climb doc body parent
  end.

(** The text of the [href] attribute.  A link without [href] is
    selected by the first base exception, so [getAttribute] answers
    with a string at the point of use; [null] would read as the text
    null in a URL. *)
Definition hrefOf (doc : list Node) (target : Path) : string :=
  default "null" (nodeAt doc target ≫= getAttribute "href").

Definition onClick (e : ClickEvent) : Js unit :=
  if isKeyModified e then ret tt
  else
    let! w := get in
    let body := bodyOf (document w) in
    match climb (document w) body (rev (target e)) with
    | None => ret tt
    | Some target =>
        if bool_decide (Some target = body) then ret tt
        else
          let! me := self in
          let! excepted := elementMatches target (onClickExceptionSelector me) in
          if excepted then ret tt
          else
            emit PreventDefault ;;;
            let! me := self in
            match XHR me with
            | Some xhr =>
                abort xhr ;;;
                let! me := self in
                clearTimeout (onLoadDelayTimeout me)
            | None => ret tt
            end ;;;
            let! w := get in
            makeRequest (hrefOf (document w) target) false None
    end.

Definition onPopState (e_state : option StateObject) : Js unit :=
  match e_state with
  | None => ret tt
  | Some state =>
      let callback := Some state in
      let! me := self in
      match XHR me with
      | Some xhr =>
          abort xhr ;;;
          let! me := self in
          clearTimeout (onLoadDelayTimeout me)
      | None => ret tt
      end ;;;
      makeRequest (so_url state) true callback
  end.

(** As in [hasCached], the cache and its tables are finite maps of the
    strings that do not name a property of [Object.prototype]. *)
Definition commitCacheEntry (url sel : string) : Js unit :=
  let! me := self in
  if negb (toBoolean (enableCache me)) || String.eqb url "" || String.eqb sel ""
  then ret tt
  else
    match cache me with
    | None => throw (TypeError "this.cache is undefined")
    | Some entries =>
        let forUrl := default ∅ (entries !! url) in
        assign (with_cache (Some (<[url := forUrl]> entries))) ;;;
        let! found := querySelector sel in
        match found with
        | None => throw (TypeError "null has no property innerHTML")
        | Some element =>
            let! w := get in
            let html := innerHTML (default (TextNode "") (nodeAt (document w) element)) in
            assign (with_cache (Some (<[url := <[sel := html]> forUrl]> entries)))
        end
    end.

Definition eventType (event : option string) : Js string :=
  match event with
  | Some type => ret type
  | None => throw (TypeError "undefined has no property type")
  end.

Definition bindListeners : Js unit :=
  documentBody ;;;
  addEventListener "click" ;;;
  addEventListener "popstate" ;;;
  let! me := self in
  let! type := eventType (loadEvent me) in
  addEventListener type ;;;
  let! type := eventType (unloadEvent me) in
  addEventListener type.

Definition destroy : Js unit :=
  let! me := self in
  match XHR me with
  | Some xhr => abort xhr
  | None => ret tt
  end ;;;
  let! me := self in
  clearTimeout (onLoadDelayTimeout me) ;;;
  documentBody ;;;
  removeEventListener "click" ;;;
  removeEventListener "popstate" ;;;
  let! type := eventType (loadEvent me) in
  removeEventListener type ;;;
  let! type := eventType (unloadEvent me) in
  removeEventListener type.

(** [new Mercury(config)]; a call without argument passes [undefined]. *)
Definition construct (config : JsValue) : Js unit :=
  if negb (hasHistory host) || negb (hasPushState host) || negb (hasQuerySelector host)
  then consoleError "Your browser does not support Mercury."
  else
    let! valid := validateAndAssignConfig config in
    if negb valid then ret tt
    else
      when (hasScrollRestoration host) (modify (set_scrollRestoration "manual")) ;;;
      let! me := self in
      when (toBoolean (enableCache me)) (assign (with_cache (Some ∅))) ;;;
      let! event := newCustomEvent "mercury:load" in
      assign (with_loadEvent (Some event)) ;;;
      let! event := newCustomEvent "mercury:unload" in
      assign (with_unloadEvent (Some event)) ;;;
      bindListeners.

(** ** The event loop

    What can happen to the page between two handler runs: the user
    clicks, presses the back or forward button, or scrolls; a request
    in flight makes progress, completes with a response, fails or times
    out; a pending timeout elapses; the embedding page calls one of the
    two public methods. *)

Inductive Event :=
| Click (e : ClickEvent)
| PopState (d : Direction)
| Scroll (x y : Z)
| Progress (xhr : nat) (rs : ReadyState)
| Load (xhr : nat) (status : Z) (body : string)
| NetworkError (xhr : nat)
| TimedOut (xhr : nat)
| TimerFired (id : nat)
| CallCommitCacheEntry (url sel : string)
| CallDestroy.

Definition requestInFlight (w : World) (xhr : nat) : bool :=
  from_option inFlight false (requests w !! xhr).

Definition enabled (ev : Event) (w : World) : bool :=
  match ev with
  | Click e =>
      bool_decide ("click" ∈ listeners w)
      && from_option isElement false (nodeAt (document w) (target e))
  | PopState d => bool_decide (is_Some (traverse d (history w)))
  | Scroll _ _ => true
  | Progress xhr rs =>
      requestInFlight w xhr
      && match rs with HEADERS_RECEIVED | LOADING => true | _ => false end
  | Load xhr _ _ | NetworkError xhr | TimedOut xhr => requestInFlight w xhr
  | TimerFired id => bool_decide (id ∈ (timers w).*1)
  | CallCommitCacheEntry _ _ | CallDestroy => true
  end.

Definition deliver (ev : Event) : Js unit :=
  match ev with
  | Click e => listener (onClick e)
  | PopState d =>
      let! w := get in
      match traverse d (history w) with
      | None => ret tt
      | Some h =>
          modify (set_history h) ;;;
          when (bool_decide ("popstate" ∈ listeners w))
            (listener (onPopState (entry_state (current h))))
      end
  | Scroll x y => modify (set_pageOffset (x, y))
  | Progress xhr rs =>
      updateRequest xhr (fun r => settle rs (status r) (responseText r) r) ;;;
      listener (onreadystatechange xhr)
  | Load xhr st body =>
      updateRequest xhr (settle DONE st body) ;;;
      listener (onreadystatechange xhr)
  | NetworkError xhr =>
      updateRequest xhr (settle DONE 0 "") ;;;
      when (errorStepsNotify host) (listener (onreadystatechange xhr)) ;;;
      listener (onerror xhr)
  | TimedOut xhr =>
      updateRequest xhr (settle DONE 0 "") ;;;
      when (errorStepsNotify host) (listener (onreadystatechange xhr)) ;;;
      listener (ontimeout xhr)
  | TimerFired id =>
      let! w := get in
      match List.find (fun t => bool_decide (t.1 = id)) (timers w) with
      | None => ret tt
      | Some t =>
          modify (fun w => set_timers (filter (fun t => t.1 ≠ id) (timers w)) w) ;;;
          listener (onLoadDelayElapsed t.2)
      end
  | CallCommitCacheEntry url sel => listener (commitCacheEntry url sel)
  | CallDestroy => listener destroy
  end.

(** One turn of the event loop. *)
Definition step (ev : Event) (w : World) : World := (deliver ev w).2.

(** A run: every event must be possible when its turn comes. *)
Fixpoint run (evs : list Event) (w : World) : option World :=
  match evs with
  | [] => Some w
  | ev :: rest => if enabled ev w then run rest (step ev w) else None
  end.

End Engine.


(** ** [utils.js]: [replaceScript] *)

(** [element.parentElement]: the element one step up, or [null] for the
    root element, whose parent is the document. *)
Definition parentElementOf (element : Path) : option Path :=
  match rev element with
  | [] | [_] => None
  | _ :: parent => Some (rev parent)
  end.

(** [parent.appendChild(node)], for a node that is not in the document. *)
Definition appendChild (parent : Path) (node : Node) : Js unit :=
  onElement parent (fun n => setChildren (childrenOf n ++ [node]) n).

Section Script.

Context (host : Host).

(** [document.createElement(tag)] followed by [node.innerHTML = html]:
    the new element is not in the document yet. *)
Definition createElementWithHTML (tag html : string) : Node :=
  Elem tag [] (parseFragment host html).

Definition replaceScript (element : Path) (referenceElement : Node) : Js unit :=
  let parentElement := parentElementOf element in
  let newScriptElement := createElementWithHTML "script" (innerHTML host referenceElement) in
  let! attrs := elementAttributes element in
  let newScriptElement :=
    if negb (length attrs =? 0) then
      fold_left (fun node attr =>
                   setAttributes (setAttribute (fst attr) (snd attr) (attributesOf node)) node)
                attrs newScriptElement
    else newScriptElement in
  match parentElement with
  | None => throw (TypeError "parentElement is null")
  | Some parentElement =>
      removeFromParent element ;;;
      appendChild parentElement newScriptElement
  end.

End Script.
(** ** The acceptance condition in the words of the specification

    An update matrix is acceptable when it is an array in which every
    rule has a string selector and each of [updateHTML] and [updateAttrs]
    is absent or a boolean. *)

Definition hasStringSelector (rule : JsValue) : bool :=
  match property rule "selector" with JsString _ => true | _ => false end.

Definition absentOrBoolean (v : JsValue) : bool :=
  match v with JsUndefined | JsBoolean _ => true | _ => false end.

Definition acceptableRule (rule : JsValue) : bool :=
  hasStringSelector rule
  && absentOrBoolean (property rule "updateHTML")
  && absentOrBoolean (property rule "updateAttrs").

Definition acceptableMatrix (matrix : JsValue) : bool :=
  match matrix with
  | JsArray rules => forallb acceptableRule rules
  | _ => false
  end.

(** ** Frame reasoning

    [preserves f c]: whatever way the computation [c] completes, the
    observation [f] of the page is the same after it as before. *)

Definition preserves {X A : Type} (f : World -> X) (c : Js A) : Prop :=
  forall w, f (c w).2 = f w.

(** [ignores set f]: the observation [f] does not depend on the field
    written by [set]. *)
Definition ignores {X V : Type} (set : V -> World -> World) (f : World -> X) : Prop :=
  forall v w, f (set v w) = f w.


(** ** Bookkeeping of requests and timers

    What the engine remembers of its own asynchronous work: the request
    objects, the pending timeouts, and the two fields [this.XHR] and
    [this.onLoadDelayTimeout]. *)

Definition bookkeeping (w : World)
  : list Request * list (nat * nat) * option nat * option nat :=
  (requests w, timers w, XHR (this w), onLoadDelayTimeout (this w)).

(** The bookkeeping is consistent when every request in flight is the one
    remembered in [this.XHR], and every pending timeout is the one
    remembered in [this.onLoadDelayTimeout], belongs to the request
    remembered in [this.XHR], and that request has completed; there is at
    most one pending timeout. *)
Definition consistent (w : World) : Prop :=
  (forall xhr, requestInFlight w xhr = true -> XHR (this w) = Some xhr)
  /\ (forall t, t ∈ timers w ->
        onLoadDelayTimeout (this w) = Some t.1
        /\ XHR (this w) = Some t.2
        /\ requestInFlight w t.2 = false)
  /\ length (timers w) <= 1.

(** [started w w']: between [w] and [w'] a navigation has begun.  One
    request was created; it is in flight and remembered in [this.XHR];
    no other request is in flight and no timeout is pending. *)
Definition started (w w' : World) : Prop :=
  length (requests w') = S (length (requests w))
  /\ XHR (this w') = Some (length (requests w))
  /\ (forall xhr, requestInFlight w' xhr = true <-> xhr = length (requests w))
  /\ timers w' = [].

(** [quiet w w']: between [w] and [w'] no request was created, no request
    came to be in flight, and a timeout that is pending in [w'] was
    pending in [w] or belongs to a request that was in flight in [w]. *)
Definition quiet (w w' : World) : Prop :=
  length (requests w') = length (requests w)
  /\ (forall xhr, requestInFlight w' xhr = true -> requestInFlight w xhr = true)
  /\ (forall t, t ∈ timers w' -> t ∈ timers w \/ requestInFlight w t.2 = true).

(** [superseded n w]: no request older than [n] is in flight, and no
    pending timeout belongs to one. *)
Definition superseded (n : nat) (w : World) : Prop :=
  (forall xhr, xhr < n -> requestInFlight w xhr = false)
  /\ (forall t, t ∈ timers w -> n <= t.2).

(** The turns that may apply a response to the document. *)
Definition appliesResponse (ev : Event) : bool :=
  match ev with
  | Load _ _ _ | TimerFired _ => true
  | _ => false
  end.

(** ** Configurations and environments that construction copes with *)

(** [v] can be shown in a diagnostic: its conversion to a string does not
    raise. *)
Definition showable (v : JsValue) : Prop := is_Some (toString v).

(** The configuration is an object; no rule of its update matrix is
    [null] or [undefined]; every value that a diagnostic may have to show
    can be shown; the click exceptions can be joined; the request
    exceptions, when there are any, join to a pattern that the host
    accepts as a regular expression. *)
Record admissible (host : Host) (config : JsValue) : Prop := {
  admissible_object : nullish config = false;
  admissible_rules :
    forall rules,
      property config "updateMatrix" = JsArray rules ->
      Forall (fun rule => nullish rule = false /\ showable (property rule "selector"))
             rules;
  admissible_fields :
    Forall (fun key => showable (property config key))
           ["timeout"; "enableCache"; "onLoad"; "onUnload"; "onNavigate"; "onLoadDelay"];
  admissible_clicks :
    forall items,
      propertyOr config "onClickExceptions" (JsArray []) = JsArray items ->
      is_Some (join "," (BASE_ON_CLICK_EXCEPTIONS ++ items));
  admissible_requests :
    forall items,
      propertyOr config "onRequestExceptions" (JsArray []) = JsArray items ->
      items ≠ [] ->
      exists pattern, join "|" items = Some pattern /\ regExpValid host pattern = true
}.

(** An environment that passes the capability check of the constructor
    also has [CustomEvent] and a [body] element. *)
Definition adequate (host : Host) (w : World) : Prop :=
  hasHistory host = true -> hasPushState host = true -> hasQuerySelector host = true ->
  hasCustomEvent host = true /\ is_Some (bodyOf (document w)).

(** ** When the constructor completes

    The constructor has no [try]: it completes unless one of its steps
    raises.  The steps that can raise are the destructuring of the
    configuration and of a rule, the string conversions of the
    diagnostics and of the two joins, [new RegExp], [new CustomEvent]
    and [document.body.addEventListener]. *)

(** The capability check at the head of the constructor. *)
Definition capable (host : Host) : bool :=
  hasHistory host && hasPushState host && hasQuerySelector host.

Definition shows (v : JsValue) : bool := bool_decide (showable v).

(** What the check of the update matrix comes to.  The rules are
    looked at in order up to the first one that is not acceptable: a
    rule that is [null] or [undefined] cannot be destructured, and a
    rule that is rejected has its selector shown in the diagnostic. *)
Inductive Verdict := Accepts | Rejects | Raises.

Fixpoint rulesVerdict (rules : list JsValue) : Verdict :=
  match rules with
  | [] => Accepts
  | rule :: rest =>
      if nullish rule then Raises
      else if acceptableRule rule then rulesVerdict rest
      else if shows (property rule "selector") then Rejects
      else Raises
  end.

Definition matrixVerdict (matrix : JsValue) : Verdict :=
  match matrix with
  | JsArray rules => rulesVerdict rules
  | _ => Rejects
  end.

(** An option gets through its validation: it is absent, or of the
    expected type, or can be shown in the diagnostic. *)
Definition reportable (param : JsValue) (type : string) : bool :=
  match param with
  | JsUndefined => true
  | _ => String.eqb (typeof param) type || shows param
  end.

Definition optionsPass (config : JsValue) : bool :=
  reportable (property config "timeout") "number"
  && reportable (property config "enableCache") "boolean"
  && reportable (property config "onLoad") "function"
  && reportable (property config "onUnload") "function"
  && reportable (property config "onNavigate") "function"
  && reportable (property config "onLoadDelay") "number".

(** The click exceptions, when they are an array, can be joined; the
    request exceptions, when they are an array that is not empty, can
    be joined and make a regular expression. *)
Definition exceptionsJoin (host : Host) (config : JsValue) : bool :=
  match propertyOr config "onClickExceptions" (JsArray []) with
  | JsArray items => bool_decide (is_Some (join "," (BASE_ON_CLICK_EXCEPTIONS ++ items)))
  | _ => true
  end
  && match propertyOr config "onRequestExceptions" (JsArray []) with
     | JsArray [] => true
     | JsArray items => from_option (regExpValid host) false (join "|" items)
     | _ => true
     end.

(** No step of [new Mercury(config)] raises on the page [w]. *)
Definition completes (host : Host) (config : JsValue) (w : World) : bool :=
  negb (capable host)
  || negb (nullish config)
     && match matrixVerdict (property config "updateMatrix") with
        | Rejects => true
        | Raises => false
        | Accepts =>
            optionsPass config && exceptionsJoin host config
            && hasCustomEvent host && bool_decide (is_Some (bodyOf (document w)))
        end.

(** [touchesInstance w w']: [w'] differs from [w] in the trace and in the
    fields of the instance only. *)
Definition touchesInstance (w w' : World) : Prop :=
  exists tr m, w' = set_trace tr (set_this m w).

(** [yields P c]: [c] completes normally with a result that satisfies
    [P], and touches the trace and the instance only. *)
Definition yields {A : Type} (P : A -> Prop) (c : Js A) : Prop :=
  forall w, exists a w', c w = (Normal a, w') /\ touchesInstance w w' /\ P a.

Definition benign {A : Type} (c : Js A) : Prop := yields (fun _ => True) c.

(** [raising c]: [c] raises, whatever the page. *)
Definition raising {A : Type} (c : Js A) : Prop :=
  forall w, exists e w', c w = (Throw e, w').

(** [decided ok P c]: [c] yields a result in [P] when [ok] holds and
    raises when it does not. *)
Definition decided {A : Type} (ok : bool) (P : A -> Prop) (c : Js A) : Prop :=
  if ok then yields P c else raising c.

(** The entry that a navigation rewrites is the one that is current when
    the trigger runs, and it receives the scroll offset of that moment. *)
Definition rewritten (w : World) : History :=
  let here := entry_url (current (history w)) in
  replaceState {| so_url := here; so_scroll := Some (pageOffset w) |} here (history w).


(** ** Where the walk up the ancestors in [onClick] stops

    The loop goes on while the element is neither [document.body] nor an
    [A] element. *)
Definition isBodyOrLink (doc : list Node) (body : option Path) (element : Path) : bool :=
  bool_decide (Some element = body)
  || String.eqb (toUpperCase (from_option tagOf "" (nodeAt doc element))) "A".

(** ** What applying a response is observed to do

    The effects of [modifyPageAndHistory] in the order of the source: the
    entry pushed unless the navigation replays a history entry, the
    scroll to the top at the end of [updateDOM], the scroll of the
    callback of a popstate, and the load event. *)
Definition callbackEffects (callback : option StateObject) : list Effect :=
  match callback with
  | Some state =>
      match so_scroll state with
      | Some (x, y) => [ScrollTo x y]
      | None => [ScrollTo 0 0]
      end
  | None => []
  end.

Definition applyEffects (url : string) (isPopState : bool)
    (callback : option StateObject) (loadType : string) : list Effect :=
  (if isPopState then []
   else [HistoryPushState {| so_url := url; so_scroll := None |} url])
  ++ [ScrollTo 0 0] ++ callbackEffects callback ++ [DispatchEvent loadType].

(** The scroll offset that applying a response ends with. *)
Definition finalOffset (callback : option StateObject) : Z * Z :=
  match callback with
  | Some state => default (0, 0)%Z (so_scroll state)
  | None => (0, 0)%Z
  end.

(** The history that applying a response ends with. *)
Definition appliedHistory (url : string) (isPopState : bool) (h : History) : History :=
  if isPopState then h else pushState {| so_url := url; so_scroll := None |} url h.

(** ** The keys of the cache

    [this.cache] and the table it holds for a URL are plain objects,
    with [Object.prototype] behind them.  Under the name of a property
    of [Object.prototype] they answer with that property, and a write
    under such a name may go to the shared object behind it or be
    ignored.  For every other string they are the finite maps of the
    embedding. *)
Definition inheritedNames : list string :=
  [ "__proto__"; "constructor"; "hasOwnProperty"; "isPrototypeOf";
    "propertyIsEnumerable"; "toLocaleString"; "toString"; "valueOf";
    "__defineGetter__"; "__defineSetter__"; "__lookupGetter__"; "__lookupSetter__" ].

Definition plainKey (key : string) : bool :=
  negb (bool_decide (key ∈ inheritedNames)).

(** ** What patching the document depends on

    [updateDOM] reads the live document and the instance and writes the
    document: on two pages with the same document and the same instance
    it completes the same way and leaves the same document. *)
Definition sameDocument (w1 w2 : World) : Prop :=
  document w1 = document w2 /\ this w1 = this w2.

Definition documentOnly {A : Type} (c : Js A) : Prop :=
  forall w1 w2, sameDocument w1 w2 ->
                (c w1).1 = (c w2).1 /\ sameDocument (c w1).2 (c w2).2.

(** ** An instance that is in operation

    What the constructor has set up when it returned with the listeners
    bound, as far as applying a response depends on it: the two events
    exist, the cache exists when caching is on; and the selectors of the
    update matrix are selectors that the host accepts (the constructor
    checks that they are strings, not that they are selectors). *)
Definition operational (host : Host) (m : Mercury) : Prop :=
  Forall (fun rule => selectorValid host (selector rule) = true) (updateMatrix m)
  /\ (toBoolean (enableCache m) = true -> is_Some (cache m))
  /\ loadEvent m = Some "mercury:load"
  /\ unloadEvent m = Some "mercury:unload".

(** The response text does not match the pattern of the request
    exceptions, if the instance has one. *)
Definition notExcepted (host : Host) (m : Mercury) (body : string) : Prop :=
  forall pattern, onRequestExceptionRegex m = Some pattern ->
                  regExpFinds host pattern body = false.

(** ** Steps of the constructor that work on the instance

    [settles Pre c Post]: on an instance that satisfies [Pre], the
    computation [c] completes normally, touches the trace and the
    instance only, and leaves its result and the instance related by
    [Post].  [reports R c]: [c] completes normally with a result that
    satisfies [R] and at most appends to the trace. *)
Definition settles {A : Type} (Pre : Mercury -> Prop) (c : Js A)
    (Post : A -> Mercury -> Prop) : Prop :=
  forall w, Pre (this w) ->
            exists a w', c w = (Normal a, w') /\ touchesInstance w w' /\ Post a (this w').

Definition reports {A : Type} (R : A -> Prop) (c : Js A) : Prop :=
  forall w, exists a more, c w = (Normal a, set_trace (trace w ++ more) w) /\ R a.

(** The options that [validateAndAssignConfig] passes through
    [validateOptionalParam]: the key, the field of the instance, the
    type, the fallback. *)
Definition optionalParams : list (string * (Mercury -> JsValue) * string * JsValue) :=
  [ ("timeout", timeout, "number", JsNumber (integer 5000));
    ("enableCache", enableCache, "boolean", JsBoolean false);
    ("onLoad", onLoad, "function", JsFunction "() => {}" JsUndefined);
    ("onUnload", onUnload, "function", JsFunction "() => {}" JsUndefined);
    ("onNavigate", onNavigate, "function", JsFunction "() => {}" JsUndefined) ].

(** The two tests of [validateOnLoadDelay] that a delay has to pass to
    be returned as it is: it is a number, and [delayTime < 0] is false
    for it.  Every number but the negative ones passes: a fraction, an
    infinity above zero and NaN as well. *)
Definition passesDelayChecks (delayTime : JsValue) : bool :=
  String.eqb (typeof delayTime) "number" && negb (lessThanZero delayTime).

(** What [validateAndAssignConfig] leaves in the fields of the instance
    [m], which was [m0] before, when it accepts the configuration. *)
Definition configured (config : JsValue) (m0 m : Mercury) : Prop :=
  updateMatrix m = rulesOf (property config "updateMatrix")
  /\ Forall (fun '(key, field, type, fallback) =>
               typeof (field m) = type
               /\ (typeof (property config key) = type -> field m = property config key)
               /\ (typeof (property config key) ≠ type -> field m = fallback))
            optionalParams
  /\ (typeof (onLoadDelay m) = "number"
      /\ lessThanZero (onLoadDelay m) = false
      /\ onLoadDelay m = (if passesDelayChecks (property config "onLoadDelay")
                          then property config "onLoadDelay"
                          else JsNumber (integer 0)))
  /\ join "," (BASE_ON_CLICK_EXCEPTIONS
               ++ itemsOf (propertyOr config "onClickExceptions" (JsArray [])))
     = Some (onClickExceptionSelector m)
  /\ onRequestExceptionRegex m
     = match itemsOf (propertyOr config "onRequestExceptions" (JsArray [])) with
       | [] => onRequestExceptionRegex m0
       | items => join "|" items
       end
  /\ cache m = cache m0 /\ loadEvent m = loadEvent m0 /\ unloadEvent m = unloadEvent m0
  /\ XHR m = XHR m0 /\ onLoadDelayTimeout m = onLoadDelayTimeout m0.

(** ** An engine that has been taken down

    Neither the click nor the popstate listener is bound, no request is
    in flight and no timeout is pending. *)
Definition inert (w : World) : Prop :=
  ("click" ∉ listeners w)
  /\ ("popstate" ∉ listeners w)
  /\ (forall xhr, requestInFlight w xhr = false)
  /\ timers w = [].

(** [unbinds c]: the computation [c] binds no listener. *)
Definition unbinds {A : Type} (c : Js A) : Prop :=
  forall w type, type ∈ listeners (c w).2 -> type ∈ listeners w.

(** The listeners after [destroy]. *)
Definition unbound (loadType unloadType : string) (bound : list string) : list string :=
  filter (fun t => t ≠ unloadType)
    (filter (fun t => t ≠ loadType)
       (filter (fun t => t ≠ "popstate")
          (filter (fun t => t ≠ "click") bound))).
(** ** A small host and page, used to run the engine on concrete inputs *)

Module Demo.

(** A selector of the demo host is a tag name, [#] followed by an id,
    or the exception list of [onClick], of which the demo host knows the
    first alternative (a link without [href]) and [target=_blank]. *)
Definition demoSelects (sel : string) (doc : list Node) (p : Path) : bool :=
  match nodeAt doc p with
  | Some (Elem tag attrs _) =>
      String.eqb sel tag
      || from_option (fun id => String.eqb sel ("#" +:+ id)) false (assoc "id" attrs)
      || (String.prefix "a:not([href])" sel
          && (bool_decide (assoc "href" attrs = None)
              || bool_decide (assoc "target" attrs = Some "_blank")))
  | _ => false
  end.

Fixpoint demoSerialize (nodes : list Node) : string :=
  match nodes with
  | [] => ""
  | TextNode s :: rest => s +:+ demoSerialize rest
  | Elem tag _ kids :: rest =>
      "<" +:+ tag +:+ ">" +:+
      (fix inner (l : list Node) : string :=
         match l with
         | [] => ""
         | TextNode s :: r => s +:+ inner r
         | Elem t _ _ :: r => "<" +:+ t +:+ "/>" +:+ inner r
         end) kids
      +:+ "</" +:+ tag +:+ ">" +:+ demoSerialize rest
  end.

(** The page the demo server answers with: the response text is the
    title and the content of the feed. *)
Definition demoPage (text : string) : list Node :=
  [ Elem "html" []
      [ Elem "head" [] [ Elem "title" [] [TextNode text] ];
        Elem "body" [("class", "served")]
          [ Elem "div" [("id", "feed"); ("data-page", text)] [TextNode text];
            Elem "a" [("href", "/b")] [TextNode "next"] ] ] ].

Definition demoHost : Host :=
  {| hasHistory := true; hasPushState := true; hasQuerySelector := true;
     hasScrollRestoration := true; hasCustomEvent := true;
     selectorValid := fun sel =>
       negb (String.eqb sel "") && negb (String.eqb sel "div[");
     selects := demoSelects;
     parseFromString := demoPage;
     parseFragment := fun html => if String.eqb html "" then [] else [TextNode html];
     serialize := demoSerialize;
     regExpValid := fun pattern => negb (String.eqb pattern "(");
     regExpFinds := fun pattern text => String.eqb pattern text;
     errorStepsNotify := true |}.

(** The page before the engine is constructed: the feed is empty, the
    link leads to [/b], the only history entry is the browser's. *)
Definition page : World :=
  {| document :=
       [ Elem "html" []
           [ Elem "head" [] [ Elem "title" [] [TextNode "A"] ];
             Elem "body" [("class", "live"); ("data-old", "1")]
               [ Elem "div" [("id", "feed")] [];
                 Elem "a" [("href", "/b")] [TextNode "next"] ] ] ];
     history := {| past := [];
                   current := {| entry_state := None; entry_url := "/a" |};
                   future := [] |};
     scrollRestoration := "auto";
     pageOffset := (0%Z, 0%Z);
     requests := [];
     timers := [];
     timerCount := 0;
     listeners := [];
     trace := [];
     this := blank |}.

Definition feed : Path := [0; 1; 0].
Definition link : Path := [0; 1; 1].

Definition plainClick (target : Path) : ClickEvent :=
  {| metaKey := false; ctrlKey := false; altKey := false; shiftKey := false;
     target := target |}.

Definition rule (sel : string) (html attrs : JsValue) : JsValue :=
  JsObject [("selector", JsString sel); ("updateHTML", html); ("updateAttrs", attrs)].

(** Configurations: the feed is patched; caching on; a post-load delay;
    a selector that the host refuses. *)
Definition feedConfig : JsValue :=
  JsObject [("updateMatrix", JsArray [rule "#feed" (JsBoolean true) JsUndefined])].

Definition cachingConfig : JsValue :=
  JsObject [("updateMatrix", JsArray [rule "#feed" (JsBoolean true) (JsBoolean true)]);
            ("enableCache", JsBoolean true)].

Definition brokenSelectorConfig (delay : Z) : JsValue :=
  JsObject [("updateMatrix", JsArray [rule "div[" (JsBoolean true) JsUndefined]);
            ("onLoadDelay", JsNumber (integer delay))].

Definition constructed (config : JsValue) : World :=
  (construct demoHost config page).2.

(** The page after a click on the link: the request for [/b] is in
    flight. *)
Definition clicked : World :=
  step demoHost (Click (plainClick link)) (constructed feedConfig).

Definition requestForB : Request :=
  {| req_url := "/b"; req_isPopState := false; req_callback := None;
     req_timeout := JsNumber (integer 5000); readyState := OPENED; status := 0;
     responseText := "" |}.

(** The rule that replaces the attributes of [body]. *)
Definition bodyRule : UpdateConfig :=
  {| selector := "body"; updateHTML := None; updateAttrs := Some true |}.

End Demo.


(** ** More pages and configurations to run the engine on *)

Module Tour.

(** A delay before the response is applied; a request exception; a
    matrix whose second selector the demo host refuses. *)
Definition delayedConfig : JsValue :=
  JsObject [("updateMatrix", JsArray [Demo.rule "#feed" (JsBoolean true) JsUndefined]);
            ("onLoadDelay", JsNumber (integer 100))].

Definition exceptingConfig : JsValue :=
  JsObject [("updateMatrix", JsArray [Demo.rule "#feed" (JsBoolean true) JsUndefined]);
            ("onRequestExceptions", JsArray [JsString "login"])].

Definition mixedConfig : JsValue :=
  JsObject [("updateMatrix",
             JsArray [Demo.rule "#feed" (JsBoolean true) JsUndefined;
                      Demo.rule "div[" (JsBoolean true) JsUndefined;
                      Demo.rule "title" (JsBoolean true) JsUndefined])].

(** The state after a click on the link, for each configuration. *)
Definition clickedWith (config : JsValue) : World :=
  step Demo.demoHost (Click (Demo.plainClick Demo.link)) (Demo.constructed config).

(** A click with the control key down. *)
Definition controlClick : ClickEvent :=
  {| metaKey := false; ctrlKey := true; altKey := false; shiftKey := false;
     target := Demo.link |}.

(** The page on which the selector of the click exceptions has come out
    as one that the host refuses. *)
Definition brokenExceptions : World :=
  set_this (with_onClickExceptionSelector "div[" (this (Demo.constructed Demo.feedConfig)))
    (Demo.constructed Demo.feedConfig).

(** A document whose body has not been parsed yet. *)
Definition headOnly : World :=
  set_document [ Elem "html" [] [ Elem "head" [] [ Elem "title" [] [TextNode "A"] ] ] ]
    Demo.page.

(** The page after a visit of [/b]: scrolled, navigated, scrolled again. *)
Definition visitedB : World :=
  default Demo.page
    (run Demo.demoHost
       [Scroll 0 100; Click (Demo.plainClick Demo.link); Load 0 200 "B"; Scroll 0 50]
       (Demo.constructed Demo.feedConfig)).

Definition titleElement : Path := [0; 0; 0].

Definition feedRule : UpdateConfig :=
  {| selector := "#feed"; updateHTML := Some true; updateAttrs := None |}.

Definition titleRule : UpdateConfig :=
  {| selector := "title"; updateHTML := Some true; updateAttrs := None |}.

(** A live page that carries a block the server no longer sends. *)
Definition withPromo : World :=
  set_document
    [ Elem "html" []
        [ Elem "head" [] [ Elem "title" [] [TextNode "A"] ];
          Elem "body" [("class", "live")]
            [ Elem "div" [("id", "feed")] [];
              Elem "a" [("href", "/b")] [TextNode "next"];
              Elem "aside" [("id", "promo")] [TextNode "sale"] ] ] ]
    (Demo.constructed Demo.feedConfig).

Definition promoRule : UpdateConfig :=
  {| selector := "aside"; updateHTML := Some true; updateAttrs := None |}.

Definition promo : Path := [0; 1; 2].

(** The same page, with caching on. *)
Definition withPromoCached : World :=
  set_document (document withPromo) (Demo.constructed Demo.cachingConfig).

(** A page with a second link, which leads to [/c], before the engine
    is constructed. *)
Definition twoLinks : World :=
  set_document
    [ Elem "html" []
        [ Elem "head" [] [ Elem "title" [] [TextNode "A"] ];
          Elem "body" [("class", "live")]
            [ Elem "div" [("id", "feed")] [];
              Elem "a" [("href", "/b")] [TextNode "next"];
              Elem "a" [("href", "/c")] [TextNode "archive"] ] ] ]
    Demo.page.

Definition secondLink : Path := [0; 1; 2].

End Tour.
(** * Properties *)

Implicit Types (host : Host) (w : World) (url sel : string).

(** ** String conversion *)

(** [Number::toString] on integers, on fractions, at the two ends of
    the positional notation, on a sum that is not exact, on the least
    and the greatest number, and on the values that are not finite. *)
Example numberToString_examples :
  numberToString (integer 5000) = "5000"
  /\ numberToString (integer (-100)) = "-100"
  /\ numberToString (number 1 (-1)) = "0.5"
  /\ numberToString (number 3 (-1)) = "1.5"
  /\ numberToString (SFdiv 53 1024 (integer 1) (integer 10)) = "0.1"
  /\ numberToString
       (SFadd 53 1024 (SFdiv 53 1024 (integer 1) (integer 10))
          (SFdiv 53 1024 (integer 2) (integer 10)))
     = "0.30000000000000004"
  /\ numberToString (SFdiv 53 1024 (integer 1) (integer 3)) = "0.3333333333333333"
  /\ numberToString (integer (10 ^ 21 - 1)) = "1e+21"
  /\ numberToString (integer (10 ^ 20)) = "100000000000000000000"
  /\ numberToString (integer (2 ^ 53)) = "9007199254740992"
  /\ numberToString (integer (2 ^ 53 + 1)) = "9007199254740992"
  /\ numberToString (integer (2 ^ 64)) = "18446744073709552000"
  /\ numberToString (SFdiv 53 1024 (integer 1) (integer 1000000)) = "0.000001"
  /\ numberToString (SFdiv 53 1024 (integer 1) (integer 10000000)) = "1e-7"
  /\ numberToString (SFdiv 53 1024 (integer 123456) (integer 1000)) = "123.456"
  /\ numberToString (number 1 (-1074)) = "5e-324"
  /\ numberToString (number (2 ^ 53 - 1) 971) = "1.7976931348623157e+308"
  /\ numberToString (number 1 1024) = "Infinity"
  /\ numberToString (S754_finite false 1 10) = "1024"
  /\ numberToString S754_nan = "NaN"
  /\ numberToString (S754_zero true) = "0".
Proof. by vm_compute. Qed.

(** The conversion of the values that are not strings: an array is
    joined with commas, [null] and [undefined] giving nothing inside an
    array; an object is shown by the inherited [toString] unless it has
    one of its own, and an own method that returns no primitive value
    hands over to [valueOf]; a symbol cannot be shown, alone or in an
    array. *)
Example toString_examples :
  toString (JsArray [JsNumber (integer 1); JsNull; JsArray [JsString "a"; JsUndefined];
                     JsBoolean true])
  = Some "1,,a,,true"
  /\ toString JsNull = Some "null"
  /\ toString (JsObject [("selector", JsString "div")]) = Some "[object Object]"
  /\ toString (JsObject [("valueOf", JsNumber (integer 1))]) = Some "[object Object]"
  /\ toString (JsObject [("toString", JsNumber (integer 1))]) = None
  /\ toString (JsObject [("toString", JsFunction "() => 'x'" (JsString "x"))]) = Some "x"
  /\ toString (JsObject [("toString", JsFunction "() => ({})" (JsObject []));
                         ("valueOf", JsFunction "() => 7" (JsNumber (integer 7)))])
     = Some "7"
  /\ toString (JsObject [("toString", JsFunction "() => Symbol()" (JsSymbol ""))]) = None
  /\ toString (JsFunction "() => {}" JsUndefined) = Some "() => {}"
  /\ toString (JsSymbol "s") = None
  /\ toString (JsArray [JsSymbol "s"]) = None.
Proof. by vm_compute. Qed.

(** ** Validation of the update matrix *)

Lemma every_accepts {A : Type} (f : A -> Js bool) (p : A -> bool) :
  (forall x w, (f x w).1 = Normal true <-> p x = true) ->
  forall items w, (every f items w).1 = Normal true <-> forallb p items = true.
Proof.
  intros Hf items. induction items as [|x rest IH]; intros w; simpl.
  - done.
  - unfold bind. specialize (Hf x w).
    destruct (f x w) as [[[|]|e] w1]; simpl in *.
    + rewrite IH. destruct (p x); simpl; [done|].
      destruct Hf as [Hf _]. by specialize (Hf eq_refl).
    + destruct (p x); simpl; [|done].
      destruct Hf as [_ Hf]. by specialize (Hf eq_refl).
    + destruct (p x); simpl; [|done].
      destruct Hf as [_ Hf]. by specialize (Hf eq_refl).
Qed.

Lemma rule_check_accepts (selector updateHTML updateAttrs : JsValue) w :
  ((if negb (String.eqb (typeof selector) "string") then
      let! shown := template selector in
      consoleError (shown +:+ " is not a valid selector.") ;;;
      ret false
    else
      if (negb (String.eqb (typeof updateHTML) "undefined")
          && negb (String.eqb (typeof updateHTML) "boolean"))
         || (negb (String.eqb (typeof updateAttrs) "undefined")
             && negb (String.eqb (typeof updateAttrs) "boolean"))
      then
        let! shown := template selector in
        consoleError
          ("Non-boolean updateHTML or updateAttrs provided for selector "
             +:+ shown +:+ ".") ;;;
        ret false
      else ret true) w).1 = Normal true
  <-> (match selector with JsString _ => true | _ => false end
       && absentOrBoolean updateHTML && absentOrBoolean updateAttrs) = true.
Proof.
  assert (Hno : forall (v : JsValue) (text : string -> string),
             ((let! shown := template v in consoleError (text shown) ;;; ret false) w).1
             = Normal true <-> false = true).
  { intros v text. unfold bind, template.
    destruct (toString v); simpl; split; discriminate. }
  destruct selector;
    try (cbn [typeof String.eqb Ascii.eqb Bool.eqb negb];
         apply (Hno _ (fun shown => shown +:+ " is not a valid selector."))).
  cbn [typeof String.eqb Ascii.eqb Bool.eqb negb andb].
  destruct updateHTML, updateAttrs; simpl; split; try done; discriminate.
Qed.

(** C9. [isValidUpdateMatrix] accepts a matrix (returns [true]) exactly
    when the matrix is an array in which every rule has a string selector
    and each of [updateHTML] and [updateAttrs] is absent or a boolean. *)
Theorem isValidUpdateMatrix_accepts_iff (matrix : JsValue) w :
  (isValidUpdateMatrix matrix w).1 = Normal true <-> acceptableMatrix matrix = true.
Proof.
  destruct matrix as [| | | | | | |rules|]; simpl; try (split; discriminate).
  revert w. apply every_accepts. intros rule w.
  unfold acceptableRule, hasStringSelector.
  destruct (nullish rule) eqn:Hnull.
  - unfold bind, requireObjectCoercible. rewrite Hnull.
    destruct rule; try discriminate; simpl; split; discriminate.
  - unfold bind at 1, requireObjectCoercible. rewrite Hnull.
    apply (rule_check_accepts (property rule "selector") (property rule "updateHTML")
             (property rule "updateAttrs")).
Qed.

(** The typed reading of a rule loses nothing on an accepted rule: the
    properties that [updateDOM] reads are the selector string and the
    truthiness of the two flags. *)
Lemma ruleOf_faithful rule :
  acceptableRule rule = true ->
  property rule "selector" = JsString (selector (ruleOf rule))
  /\ toBoolean (property rule "updateHTML") = isSet (updateHTML (ruleOf rule))
  /\ toBoolean (property rule "updateAttrs") = isSet (updateAttrs (ruleOf rule)).
Proof.
  unfold acceptableRule, hasStringSelector, absentOrBoolean, ruleOf, isSet, flagOf.
  cbn [selector updateHTML updateAttrs].
  intros H. apply andb_true_iff in H as [H Hattrs]. apply andb_true_iff in H as [Hsel Hhtml].
  destruct (property rule "selector"); try done.
  destruct (property rule "updateHTML"); try done;
    destruct (property rule "updateAttrs"); done.
Qed.

(** ** Frame lemmas *)

Create HintDb frame discriminated.

Section Frame.

Context {X : Type} (f : World -> X).

Lemma preserves_ret {A : Type} (a : A) : preserves f (ret a).
Proof. done. Qed.

Lemma preserves_throw {A : Type} (e : Exn) : preserves f (throw (A := A) e).
Proof. done. Qed.

Lemma preserves_get : preserves f get.
Proof. done. Qed.

Lemma preserves_self : preserves f self.
Proof. done. Qed.

Lemma preserves_bind {A B : Type} (c : Js A) (k : A -> Js B) :
  preserves f c -> (forall a, preserves f (k a)) -> preserves f (bind c k).
Proof.
  intros Hc Hk w. unfold bind. specialize (Hc w).
  destruct (c w) as [[a|e] w1]; simpl in *; [|done].
  by rewrite Hk.
Qed.

Lemma preserves_tryCatch {A : Type} (body : Js A) (handler : Exn -> Js A) :
  preserves f body -> (forall e, preserves f (handler e)) ->
  preserves f (tryCatch body handler).
Proof.
  intros Hc Hk w. unfold tryCatch. specialize (Hc w).
  destruct (body w) as [[a|e] w1]; simpl in *; [done|].
  by rewrite Hk.
Qed.

Lemma preserves_when (c : bool) (body : Js unit) :
  preserves f body -> preserves f (when c body).
Proof. destruct c; [done|]. intros _. apply preserves_ret. Qed.

Lemma preserves_forEach {A : Type} (g : A -> Js unit) (items : list A) :
  (forall x, preserves f (g x)) -> preserves f (forEach g items).
Proof.
  intros Hg. induction items as [|x rest IH]; simpl.
  - apply preserves_ret.
  - apply preserves_bind; [apply Hg|]. intros _. apply IH.
Qed.

Lemma preserves_modify (g : World -> World) :
  (forall w, f (g w) = f w) -> preserves f (modify g).
Proof. intros Hg w. apply Hg. Qed.

Lemma preserves_emit (e : Effect) : ignores set_trace f -> preserves f (emit e).
Proof. intros Hf. apply preserves_modify. intros w. apply Hf. Qed.

Lemma preserves_listener (body : Js unit) :
  ignores set_trace f -> preserves f body -> preserves f (listener body).
Proof.
  intros Hf Hb. apply preserves_tryCatch; [done|].
  intros e. by apply preserves_emit.
Qed.

Lemma preserves_onElement (element : Path) (g : Node -> Node) :
  ignores set_document f -> preserves f (onElement element g).
Proof. intros Hf. apply preserves_modify. intros w. apply Hf. Qed.

Lemma preserves_scrollTo (x y : Z) :
  ignores set_pageOffset f -> ignores set_trace f -> preserves f (scrollTo x y).
Proof.
  intros Ho Ht. apply preserves_bind.
  - apply preserves_modify. intros w. apply Ho.
  - intros _. by apply preserves_emit.
Qed.

Lemma preserves_dispatchEvent (event : option string) :
  ignores set_trace f -> preserves f (dispatchEvent event).
Proof. intros Ht. destruct event; [by apply preserves_emit|done]. Qed.

Lemma preserves_replaceAttributes (element : Path) (reference : Node) :
  ignores set_document f -> preserves f (replaceAttributes element reference).
Proof.
  intros Hd. apply preserves_bind.
  - apply preserves_bind; [apply preserves_get|]. intros w. apply preserves_ret.
  - intros attrs. apply preserves_bind.
    + apply preserves_forEach. intros a. by apply preserves_onElement.
    + intros _. apply preserves_forEach. intros a. by apply preserves_onElement.
Qed.

Lemma preserves_querySelectorIn host (doc : list Node) sel :
  preserves f (querySelectorIn host doc sel).
Proof. unfold querySelectorIn. by destruct (selectorValid host sel). Qed.

Lemma preserves_querySelector host sel : preserves f (querySelector host sel).
Proof.
  apply preserves_bind; [apply preserves_get|].
  intros w. apply preserves_querySelectorIn.
Qed.

Lemma preserves_hasCached url sel : preserves f (hasCached url sel).
Proof.
  apply preserves_bind; [apply preserves_self|]. intros me.
  destruct (toBoolean (enableCache me)); [|done]. by destruct (cache me).
Qed.

Lemma preserves_patch host (newDoc : list Node) url (rule : UpdateConfig) :
  ignores set_document f -> preserves f (patch host newDoc url rule).
Proof.
  intros Hd.
  apply preserves_bind; [apply preserves_querySelector|]. intros active.
  apply preserves_bind; [apply preserves_querySelectorIn|]. intros reference.
  destruct active as [active|]; [|done].
  destruct (reference ≫= _) as [node|].
  - apply preserves_bind.
    + apply preserves_when.
      apply preserves_bind; [apply preserves_hasCached|]. intros cached.
      by apply preserves_onElement.
    + intros _. apply preserves_when. by apply preserves_replaceAttributes.
  - apply preserves_modify. intros w. apply Hd.
Qed.

Lemma preserves_updateDOM host url (text : string) :
  ignores set_document f -> ignores set_pageOffset f -> ignores set_trace f ->
  preserves f (updateDOM host url text).
Proof.
  intros Hd Ho Ht. apply preserves_bind; [apply preserves_self|]. intros me.
  apply preserves_bind; [|intros _; by apply preserves_scrollTo].
  apply preserves_forEach. intros rule. by apply preserves_patch.
Qed.

Lemma preserves_restoreScroll (state : StateObject) :
  ignores set_pageOffset f -> ignores set_trace f -> preserves f (restoreScroll state).
Proof.
  intros Ho Ht. unfold restoreScroll.
  destruct (so_scroll state) as [[x y]|]; by apply preserves_scrollTo.
Qed.

Lemma preserves_modifyPageAndHistory host url (isPopState : bool)
    (callback : option StateObject) (text : string) :
  ignores set_history f -> ignores set_document f ->
  ignores set_pageOffset f -> ignores set_trace f ->
  preserves f (modifyPageAndHistory host url isPopState callback text).
Proof.
  intros Hh Hd Ho Ht. apply preserves_bind.
  - apply preserves_when. apply preserves_bind.
    + apply preserves_modify. intros w. apply Hh.
    + intros _. by apply preserves_emit.
  - intros _. apply preserves_bind; [by apply preserves_updateDOM|]. intros _.
    apply preserves_bind.
    + destruct callback; [by apply preserves_restoreScroll|done].
    + intros _. apply preserves_bind; [apply preserves_self|]. intros me.
      by apply preserves_dispatchEvent.
Qed.

Lemma preserves_replaceHistoryStateWithScrollPosition :
  ignores set_history f -> ignores set_trace f ->
  preserves f replaceHistoryStateWithScrollPosition.
Proof.
  intros Hh Ht. apply preserves_bind; [apply preserves_get|]. intros w0.
  apply preserves_bind.
  - apply preserves_modify. intros w. apply Hh.
  - intros _. by apply preserves_emit.
Qed.

End Frame.

#[local] Hint Extern 1 (ignores _ _) => (intros ? ?; reflexivity) : frame.

Lemma preserves_every {X A : Type} (f : World -> X) (g : A -> Js bool) (items : list A) :
  (forall x, preserves f (g x)) -> preserves f (every g items).
Proof.
  intros Hg. induction items as [|x rest IH]; simpl.
  - apply preserves_ret.
  - apply preserves_bind; [apply Hg|]. intros []; [apply IH|apply preserves_ret].
Qed.

(** Frame goals are solved by following the structure of the code. *)
Ltac frame_step :=
  first
    [ apply preserves_ret
    | apply preserves_throw
    | apply preserves_get
    | apply preserves_self
    | apply preserves_bind
    | apply preserves_tryCatch
    | apply preserves_when
    | apply preserves_forEach
    | apply preserves_every
    | apply preserves_modify; intros; reflexivity
    | apply preserves_modify; intros w; destruct (bool_decide _); reflexivity
    | match goal with
      | |- preserves _ (match ?x with _ => _ end) => destruct x
      | |- preserves _ (if ?x then _ else _) => destruct x
      | |- forall _, _ => intro
      end ].

Ltac frame := repeat frame_step.

Lemma preserves_construct {X : Type} (f : World -> X) host (config : JsValue) :
  ignores set_trace f -> ignores set_this f -> ignores set_listeners f ->
  ignores set_scrollRestoration f ->
  preserves f (construct host config).
Proof.
  intros Ht Hthis Hl Hs.
  assert (Hemit : forall e, preserves f (emit e)) by (intros e; by apply preserves_emit).
  assert (Hassign : forall g, preserves f (assign g)).
  { intros g. apply preserves_modify. intros w. apply Hthis. }
  assert (Hadd : forall type, preserves f (addEventListener type)).
  { intros type. apply preserves_modify. intros w.
    destruct (bool_decide _); [done|apply Hl]. }
  assert (Hparam : forall param type fallback,
             preserves f (validateOptionalParam param type fallback)).
  { intros param type fallback. unfold validateOptionalParam, template, consoleError.
    destruct param; frame; apply Hemit. }
  unfold construct, validateAndAssignConfig, isValidUpdateMatrix, validateOnLoadDelay,
    bindListeners, documentBody, eventType, newCustomEvent, newRegExp,
    requireObjectCoercible, template, consoleError.
  frame; try apply Hemit; try apply Hassign; try apply Hadd; try apply Hparam.
  all: try (apply preserves_modify; intros w; apply Hs).
Qed.

(** ** History and the apply step *)

(** C3. The apply step pushes exactly one entry, keyed by the destination
    URL, when the navigation is not a history replay, and leaves the
    session history as it is when it is one; in the first case the depth
    of the history grows by exactly one, in the second it does not change.
    This holds however the rest of the apply step completes. *)
Theorem apply_step_history_depth host url (isPopState : bool)
    (callback : option StateObject) (responseText : string) w :
  let w' := (modifyPageAndHistory host url isPopState callback responseText w).2 in
  history w' =
    (if isPopState then history w
     else pushState {| so_url := url; so_scroll := None |} url (history w))
  /\ depth (history w') =
       (if isPopState then depth (history w) else S (depth (history w)))
  /\ (if isPopState then True
      else current (history w') =
             {| entry_state := Some {| so_url := url; so_scroll := None |};
                entry_url := url |}
           /\ past (history w') = current (history w) :: past (history w)).
Proof.
  assert (Hrest : forall w0,
             history
               ((updateDOM host url responseText ;;;
                 match callback with
                 | Some state => restoreScroll state
                 | None => ret tt
                 end ;;;
                 let! me := self in dispatchEvent (loadEvent me)) w0).2
             = history w0).
  { apply preserves_bind; [apply preserves_updateDOM; auto with frame|].
    intros _. apply preserves_bind.
    - destruct callback; [apply preserves_restoreScroll; auto with frame|done].
    - intros _. apply preserves_bind; [apply preserves_self|].
      intros me. apply preserves_dispatchEvent; auto with frame. }
  cbv zeta.
  assert (Hh : history (modifyPageAndHistory host url isPopState callback responseText w).2
               = (if isPopState then history w
                  else pushState {| so_url := url; so_scroll := None |} url (history w))).
  { unfold modifyPageAndHistory.
    destruct isPopState; unfold bind at 1; simpl; by rewrite Hrest. }
  rewrite Hh. by destruct isPopState.
Qed.

(** ** Requests that do not succeed *)

Lemma onreadystatechange_failed host w xhr (request : Request) :
  requests w !! xhr = Some request ->
  readyState request = DONE ->
  status request ≠ 200%Z ->
  onreadystatechange host xhr w = assignLocation (req_url request) w.
Proof.
  intros Hreq Hdone Hstatus. unfold onreadystatechange, bind at 1, get.
  rewrite Hreq, Hdone.
  destruct (Z.eqb_spec (status request) 200) as [|_]; done.
Qed.

Lemma listener_normal (body : Js unit) w w' :
  body w = (Normal tt, w') -> listener body w = (Normal tt, w').
Proof. intros H. unfold listener, tryCatch. by rewrite H. Qed.

Lemma settled_lookup w xhr (request : Request) (f : Request -> Request) :
  requests w !! xhr = Some request ->
  requests (set_requests (alter f xhr (requests w)) w) !! xhr = Some (f request).
Proof. intros H. simpl. by rewrite list_lookup_alter_eq, H. Qed.

Lemma step_Load_failed host w xhr (request : Request) (st : Z) (body : string) :
  requests w !! xhr = Some request ->
  st ≠ 200%Z ->
  step host (Load xhr st body) w =
    set_trace (trace w ++ [LocationAssign (req_url request)])
      (set_requests (alter (settle DONE st body) xhr (requests w)) w).
Proof.
  intros Hreq Hst. unfold step, deliver, bind, updateRequest, modify.
  pose proof (settled_lookup w xhr request (settle DONE st body) Hreq) as Hl.
  erewrite listener_normal; last first.
  { rewrite (onreadystatechange_failed _ _ _ _ Hl); [reflexivity|done|done]. }
  done.
Qed.

Lemma step_error_steps host w xhr (request : Request) (ev : Event) :
  requests w !! xhr = Some request ->
  ev = NetworkError xhr \/ ev = TimedOut xhr ->
  step host ev w =
    set_trace (trace w
               ++ (if errorStepsNotify host
                   then [LocationAssign (req_url request)] else [])
               ++ [LocationAssign (req_url request)])
      (set_requests (alter (settle DONE 0 "") xhr (requests w)) w).
Proof.
  intros Hreq Hev.
  pose proof (settled_lookup w xhr request (settle DONE 0 "") Hreq) as Hl.
  assert (Hrsc : listener (onreadystatechange host xhr)
                   (set_requests (alter (settle DONE 0 "") xhr (requests w)) w)
                 = (Normal tt,
                    set_trace (trace w ++ [LocationAssign (req_url request)])
                      (set_requests (alter (settle DONE 0 "") xhr (requests w)) w))).
  { apply listener_normal.
    rewrite (onreadystatechange_failed _ _ _ _ Hl); [reflexivity|done|done]. }
  destruct Hev as [-> | ->];
    unfold step, deliver, bind, updateRequest, modify, when;
    destruct (errorStepsNotify host).
  - rewrite Hrsc. unfold listener, tryCatch, onerror, bind, get. simpl.
    rewrite list_lookup_alter_eq, Hreq. simpl. by rewrite <- app_assoc.
  - unfold ret, listener, tryCatch, onerror, bind, get. simpl.
    rewrite list_lookup_alter_eq, Hreq. simpl. done.
  - rewrite Hrsc. unfold listener, tryCatch, ontimeout, bind, get. simpl.
    rewrite list_lookup_alter_eq, Hreq. simpl. by rewrite <- app_assoc.
  - unfold ret, listener, tryCatch, ontimeout, bind, get. simpl.
    rewrite list_lookup_alter_eq, Hreq. simpl. done.
Qed.

(** C2. When the request of a navigation completes with a status other
    than 200, fails in the network or times out, the engine assigns the
    requested URL to [window.location] (a full top-level navigation); the
    document and the session history are not touched, hence nothing is
    pushed, and no delayed apply is scheduled. *)
Theorem failed_request_full_navigation host w xhr (request : Request) :
  requests w !! xhr = Some request ->
  inFlight request = true ->
  (forall (st : Z) (body : string), st ≠ 200%Z ->
     let w' := step host (Load xhr st body) w in
     document w' = document w /\ history w' = history w /\ timers w' = timers w
     /\ trace w' = trace w ++ [LocationAssign (req_url request)])
  /\ (forall ev, ev = NetworkError xhr \/ ev = TimedOut xhr ->
        let w' := step host ev w in
        document w' = document w /\ history w' = history w /\ timers w' = timers w
        /\ trace w' = trace w
                      ++ (if errorStepsNotify host
                          then [LocationAssign (req_url request)] else [])
                      ++ [LocationAssign (req_url request)]).
Proof.
  intros Hreq _. split.
  - intros st body Hst. cbv zeta.
    by rewrite (step_Load_failed host w xhr request st body Hreq Hst).
  - intros ev Hev. cbv zeta.
    by rewrite (step_error_steps host w xhr request ev Hreq Hev).
Qed.

(** ** The document *)

Lemma nodeAt_nil (nodes : list Node) : nodeAt nodes [] = None.
Proof. by destruct nodes. Qed.

Lemma nodeAt_updateAt (f : Node -> Node) (p : Path) :
  forall (nodes : list Node) (n : Node),
    nodeAt nodes p = Some n -> nodeAt (updateAt f nodes p) p = Some (f n).
Proof.
  induction p as [|i q IH]; intros nodes n H; simpl in H |- *; [done|].
  destruct (nodes !! i) as [m|] eqn:Hi; [|done].
  pose proof (lookup_lt_Some _ _ _ Hi) as Hlt.
  destruct q as [|j q].
  - inversion H; subst. by rewrite list_lookup_insert_eq.
  - rewrite list_lookup_insert_eq by done.
    destruct m as [t a kids|s]; [by apply IH|done].
Qed.

Lemma pathsOfChildren_inv (P : Node -> Prop) (kids : list Node) :
  forall (i : nat) (p : Path),
    p ∈ pathsOfChildren elementPathsBelow i kids ->
    exists (j : nat) (q : Path) (k : Node),
      p = (i + j) :: q /\ kids !! j = Some k
      /\ ((q = [] /\ isElement k = true) \/ q ∈ elementPathsBelow k).
Proof.
  induction kids as [|k rest IH]; intros i p Hp; simpl in Hp.
  - by apply elem_of_nil in Hp.
  - rewrite !elem_of_app in Hp. destruct Hp as [Hp|[Hp|Hp]].
    + destruct (isElement k) eqn:Hk; [|by apply elem_of_nil in Hp].
      apply list_elem_of_singleton in Hp. subst p.
      exists 0, [], k. rewrite Nat.add_0_r. auto.
    + apply list_elem_of_fmap in Hp as (q & -> & Hq).
      exists 0, q, k. rewrite Nat.add_0_r. auto.
    + apply IH in Hp as (j & q & k' & -> & Hj & Hq).
      exists (S j), q, k'. split; [f_equal; lia|]. auto.
Qed.

Lemma elementPathsBelow_element (n : Node) :
  forall q, q ∈ elementPathsBelow n ->
            exists t a k, nodeAt (childrenOf n) q = Some (Elem t a k).
Proof.
  induction n as [s|t a kids IH] using Node_induction; intros q Hq; simpl in *.
  - by apply elem_of_nil in Hq.
  - apply (pathsOfChildren_inv (fun _ => True)) in Hq
      as (j & p & k & -> & Hj & Hcase). simpl. rewrite Hj.
    destruct Hcase as [[-> Hk]|Hp].
    + destruct k; [eauto|done].
    + rewrite Forall_forall in IH.
      destruct (IH k (list_elem_of_lookup_2 _ _ _ Hj) p Hp) as (t' & a' & k' & Hn).
      destruct p; [by rewrite nodeAt_nil in Hn|]. eauto.
Qed.

Lemma elementPaths_element (doc : list Node) (p : Path) :
  p ∈ elementPaths doc -> exists t a k, nodeAt doc p = Some (Elem t a k).
Proof. apply (elementPathsBelow_element (Elem "#document" [] doc)). Qed.

Lemma querySelectorIn_element host (doc : list Node) sel w (p : Path) :
  (querySelectorIn host doc sel w).1 = Normal (Some p) ->
  selectorValid host sel = true
  /\ selects host sel doc p = true
  /\ exists t a k, nodeAt doc p = Some (Elem t a k).
Proof.
  unfold querySelectorIn. destruct (selectorValid host sel); [|done].
  simpl. intros [= H]. apply List.find_some in H as [Hin Hsel].
  split; [done|]. split; [done|].
  apply elementPaths_element. by apply list_elem_of_In.
Qed.

(** *** Attribute lists *)

Lemma removeAttribute_all (attrs : list (string * string)) :
  fold_left (fun acc a => removeAttribute a.1 acc) attrs attrs = [].
Proof.
  induction attrs as [|[k v] rest IH]; simpl; [done|].
  by rewrite String.eqb_refl.
Qed.

Lemma setAttribute_fresh (name value : string) (attrs : list (string * string)) :
  name ∉ attrs.*1 -> setAttribute name value attrs = attrs ++ [(name, value)].
Proof.
  induction attrs as [|[k v] rest IH]; simpl; intros Hfresh; [done|].
  rewrite not_elem_of_cons in Hfresh. destruct Hfresh as [Hne Hrest].
  destruct (String.eqb_spec k name) as [->|_]; [done|].
  by rewrite IH.
Qed.

Lemma setAttribute_all (reference : list (string * string)) :
  forall acc, NoDup (acc ++ reference).*1 ->
              fold_left (fun acc a => setAttribute a.1 a.2 acc) reference acc
              = acc ++ reference.
Proof.
  induction reference as [|[k v] rest IH]; intros acc Hnd; simpl.
  - by rewrite app_nil_r.
  - rewrite setAttribute_fresh.
    + rewrite IH; [by rewrite <- app_assoc|]. by rewrite <- app_assoc.
    + rewrite fmap_app in Hnd. apply NoDup_app in Hnd as (_ & Hdisj & _).
      intros Hin. apply (Hdisj k Hin). simpl. left.
Qed.

Lemma fold_attributes {A : Type} (h : A -> list (string * string) -> list (string * string))
    (items : list A) (t : string) (k : list Node) :
  forall a,
    fold_left (fun n x => setAttributes (h x (attributesOf n)) n) items (Elem t a k)
    = Elem t (fold_left (fun acc x => h x acc) items a) k.
Proof. induction items as [|x rest IH]; intros a; simpl; [done|]. apply IH. Qed.

Lemma set_document_same w : set_document (document w) w = w.
Proof. by destruct w. Qed.

Lemma forEach_onElement {A : Type} (g : A -> Node -> Node) (p : Path) (items : list A) :
  forall w (n : Node),
    nodeAt (document w) p = Some n ->
    exists doc,
      forEach (fun x => onElement p (g x)) items w = (Normal tt, set_document doc w)
      /\ nodeAt doc p = Some (fold_left (fun n x => g x n) items n).
Proof.
  induction items as [|x rest IH]; intros w n Hn; simpl.
  - exists (document w). by rewrite set_document_same.
  - unfold bind, onElement at 1, modify.
    destruct (IH (set_document (updateAt (g x) (document w) p) w) (g x n))
      as (doc & Hrun & Hdoc); [by apply nodeAt_updateAt|].
    exists doc. by rewrite Hrun.
Qed.

(** [replaceAttributes] leaves the element with exactly the attributes of
    the reference element, in the same order, and changes nothing else of
    the page than the document. *)
Lemma replaceAttributes_exact (element : Path) (reference : Node) w
    (t : string) (a : list (string * string)) (k : list Node) :
  nodeAt (document w) element = Some (Elem t a k) ->
  NoDup (attributesOf reference).*1 ->
  exists doc,
    replaceAttributes element reference w = (Normal tt, set_document doc w)
    /\ nodeAt doc element = Some (Elem t (attributesOf reference) k).
Proof.
  intros Hn Hnd. unfold replaceAttributes, bind at 1, elementAttributes, bind at 1, get.
  rewrite Hn. cbn [ret attributesOf]. unfold bind at 1.
  destruct (forEach_onElement
              (fun (x : string * string) n =>
                 setAttributes (removeAttribute x.1 (attributesOf n)) n)
              element a w _ Hn) as (doc1 & Hrun1 & Hdoc1).
  unfold elementRemoveAttribute. rewrite Hrun1.
  rewrite (fold_attributes (fun x => removeAttribute x.1)), removeAttribute_all in Hdoc1.
  destruct (forEach_onElement
              (fun (x : string * string) n =>
                 setAttributes (setAttribute x.1 x.2 (attributesOf n)) n)
              element (attributesOf reference) (set_document doc1 w) _ Hdoc1)
    as (doc2 & Hrun2 & Hdoc2).
  unfold elementSetAttribute. rewrite Hrun2.
  rewrite (fold_attributes (fun x => setAttribute x.1 x.2)) in Hdoc2.
  rewrite setAttribute_all in Hdoc2 by done.
  exists doc2. done.
Qed.

(** ** One rule of the update matrix *)

Lemma querySelectorIn_run host (doc : list Node) sel w (found : option Path) :
  (querySelectorIn host doc sel w).1 = Normal found ->
  querySelectorIn host doc sel w = (Normal found, w).
Proof.
  unfold querySelectorIn. destruct (selectorValid host sel); [|done].
  simpl. by intros [= ->].
Qed.

Lemma querySelector_run host sel w (found : option Path) :
  (querySelector host sel w).1 = Normal found ->
  querySelector host sel w = (Normal found, w).
Proof. apply querySelectorIn_run. Qed.

Lemma querySelector_document host sel w w1 :
  document w1 = document w ->
  (querySelector host sel w1).1 = (querySelector host sel w).1.
Proof.
  intros Hdoc. unfold querySelector, bind, get, querySelectorIn. rewrite Hdoc.
  by destruct (selectorValid host sel).
Qed.

Lemma hasCached_run url sel w :
  (toBoolean (enableCache (this w)) = true -> is_Some (cache (this w))) ->
  exists cached, hasCached url sel w = (Normal cached, w).
Proof.
  intros Hready. unfold hasCached, bind, self.
  destruct (toBoolean (enableCache (this w))); [|by eexists].
  destruct (Hready eq_refl) as [entries ->]. by eexists.
Qed.

(** C7. A patch step whose rule has [updateAttrs] set leaves the live
    element with exactly the attributes of the reference element: none of
    its old attributes is left and none of the reference is missing.  This
    holds whether or not the rule also replaces the content of the
    element, and whether that content came from the response or from the
    cache; the content is replaced as the rule says. *)
Theorem patch_replaces_attributes host (newDoc : list Node) url (rule : UpdateConfig) w
    (active reference : Path) (referenceElement : Node) :
  isSet (updateAttrs rule) = true ->
  (querySelector host (selector rule) w).1 = Normal (Some active) ->
  (querySelectorIn host newDoc (selector rule) w).1 = Normal (Some reference) ->
  nodeAt newDoc reference = Some referenceElement ->
  NoDup (attributesOf referenceElement).*1 ->
  (toBoolean (enableCache (this w)) = true -> is_Some (cache (this w))) ->
  exists w' tag oldAttributes oldChildren newChildren,
    patch host newDoc url rule w = (Normal tt, w')
    /\ nodeAt (document w) active = Some (Elem tag oldAttributes oldChildren)
    /\ nodeAt (document w') active
       = Some (Elem tag (attributesOf referenceElement) newChildren)
    /\ (isSet (updateHTML rule) = false -> newChildren = oldChildren)
    /\ (isSet (updateHTML rule) = true ->
        exists cached,
          hasCached url (selector rule) w = (Normal cached, w)
          /\ newChildren
             = parseFragment host (default (innerHTML host referenceElement) cached)).
Proof.
  intros Hattrs Hactive Href Hnode Hnd Hready.
  destruct (querySelectorIn_element host (document w) (selector rule) w active Hactive)
    as (_ & _ & tag & a & k & Hlive).
  apply querySelector_run in Hactive. apply querySelectorIn_run in Href.
  unfold patch, bind at 1. rewrite Hactive. unfold bind at 1. rewrite Href.
  cbn [mbind option_bind]. rewrite Hnode, Hattrs. cbn [when].
  destruct (isSet (updateHTML rule)) eqn:Hhtml; cbn [when].
  - destruct (hasCached_run url (selector rule) w Hready) as [cached Hcached].
    unfold bind at 1, bind at 1. rewrite Hcached.
    unfold setInnerHTML, onElement, modify.
    set (html := default (innerHTML host referenceElement) cached).
    set (w1 := set_document _ w).
    assert (Hlive1 : nodeAt (document w1) active
                     = Some (Elem tag a (parseFragment host html))).
    { subst w1. simpl. by rewrite (nodeAt_updateAt _ _ _ _ Hlive). }
    destruct (replaceAttributes_exact active referenceElement w1 _ _ _ Hlive1 Hnd)
      as (doc & Hrun & Hdoc).
    exists (set_document doc w1), tag, a, k, (parseFragment host html).
    rewrite Hrun. repeat split; try done.
    intros _. by exists cached.
  - unfold bind at 1, ret.
    destruct (replaceAttributes_exact active referenceElement w _ _ _ Hlive Hnd)
      as (doc & Hrun & Hdoc).
    exists (set_document doc w), tag, a, k, k.
    rewrite Hrun. repeat split; done.
Qed.

(** ** The fragment cache *)

(** C10. With caching enabled, [commitCacheEntry] returns at once and
    changes nothing when the URL or the selector is empty; when both are
    non-empty and no element of the live document matches the selector,
    it raises a TypeError (the query result [null] is dereferenced) after
    having created the table of the URL, instead of doing nothing. *)
Theorem commitCacheEntry_requires_live_element host w url sel
    (entries : gmap string (gmap string string)) :
  toBoolean (enableCache (this w)) = true ->
  cache (this w) = Some entries ->
  ((url = "" \/ sel = "") -> commitCacheEntry host url sel w = (Normal tt, w))
  /\ (url ≠ "" -> sel ≠ "" ->
      (querySelector host sel w).1 = Normal None ->
      exists message,
        commitCacheEntry host url sel w
        = (Throw (TypeError message),
           set_this (with_cache (Some (<[url := default ∅ (entries !! url)]> entries))
                       (this w)) w)).
Proof.
  intros Henabled Hcache. split.
  - intros Hempty. unfold commitCacheEntry, bind, self. rewrite Henabled.
    destruct Hempty as [-> | ->]; simpl; [done|].
    by rewrite orb_true_r.
  - intros Hurl Hsel Hquery. unfold commitCacheEntry, bind at 1, self.
    rewrite Henabled, Hcache.
    destruct (String.eqb_spec url "") as [|_]; [done|].
    destruct (String.eqb_spec sel "") as [|_]; [done|].
    cbn [negb orb]. unfold bind at 1, assign, modify.
    set (w1 := set_this _ w).
    assert (Hquery1 : querySelector host sel w1 = (Normal None, w1)).
    { apply querySelector_run. by rewrite (querySelector_document host sel w w1). }
    unfold bind at 1. rewrite Hquery1. by eexists.
Qed.

(** What [commitCacheEntry] stores: the serialised content of the first
    element that the selector selects. *)
Lemma commitCacheEntry_stores host w url sel
    (entries : gmap string (gmap string string)) (element : Path) (n : Node) :
  toBoolean (enableCache (this w)) = true ->
  cache (this w) = Some entries ->
  url ≠ "" -> sel ≠ "" ->
  (querySelector host sel w).1 = Normal (Some element) ->
  nodeAt (document w) element = Some n ->
  exists stored,
    commitCacheEntry host url sel w
    = (Normal tt, set_this (with_cache (Some stored) (this w)) w)
    /\ stored !! url ≫= (.!! sel) = Some (innerHTML host n).
Proof.
  intros Henabled Hcache Hurl Hsel Hquery Hnode.
  unfold commitCacheEntry, bind at 1, self. rewrite Henabled, Hcache.
  destruct (String.eqb_spec url "") as [|_]; [done|].
  destruct (String.eqb_spec sel "") as [|_]; [done|].
  cbn [negb orb]. unfold bind at 1, assign, modify.
  set (w1 := set_this _ w).
  assert (Hquery1 : querySelector host sel w1 = (Normal (Some element), w1)).
  { apply querySelector_run. by rewrite (querySelector_document host sel w w1). }
  unfold bind at 1. rewrite Hquery1. unfold bind, get. simpl. rewrite Hnode.
  eexists. split; [reflexivity|].
  rewrite lookup_insert_eq. simpl. by rewrite lookup_insert_eq.
Qed.

(** What [updateDOM] makes of a cache entry: markup that is not empty
    replaces the markup of the response; the empty string is falsy, so an
    entry holding it counts as no entry. *)
Lemma hasCached_lookup url sel w (entries : gmap string (gmap string string))
    (html : string) :
  toBoolean (enableCache (this w)) = true ->
  cache (this w) = Some entries ->
  entries !! url ≫= (.!! sel) = Some html ->
  hasCached url sel w = (Normal (if String.eqb html "" then None else Some html), w).
Proof.
  intros Henabled Hcache Hlookup. unfold hasCached, bind, self.
  rewrite Henabled, Hcache.
  destruct (entries !! url) as [forUrl|]; [|done]. simpl in *.
  by rewrite Hlookup.
Qed.

(** C5. The cache round trip does not hold for empty markup.  On the demo
    page the feed is empty; [commitCacheEntry] captures its markup, the
    empty string, for [/b]; the next patch for that URL and selector with
    [updateHTML] set fills the feed with the content of the response
    instead of applying the captured markup, which would leave it empty. *)
Theorem cache_round_trip_empty_markup :
  let w0 := Demo.constructed Demo.cachingConfig in
  let w1 := (commitCacheEntry Demo.demoHost "/b" "#feed" w0).2 in
  let w2 := (updateDOM Demo.demoHost "/b" "fresh" w1).2 in
  (commitCacheEntry Demo.demoHost "/b" "#feed" w0).1 = Normal tt
  /\ (entries ← cache (this w1); forUrl ← entries !! "/b"; forUrl !! "#feed") = Some ""
  /\ updateMatrix (this w1)
     = [ {| selector := "#feed"; updateHTML := Some true; updateAttrs := Some true |} ]
  /\ childrenOf <$> nodeAt (document w2) Demo.feed = Some [TextNode "fresh"]
  /\ parseFragment Demo.demoHost "" = [].
Proof. vm_compute. repeat split; reflexivity. Qed.

(** ** Exceptions while a response is handled *)

(** The [onreadystatechange] handler itself never completes abruptly:
    whatever is raised while a 200 response is handled inside it is
    caught by its [try] block. *)
Lemma onreadystatechange_completes host xhr w :
  exists w', onreadystatechange host xhr w = (Normal tt, w').
Proof.
  unfold onreadystatechange, bind at 1, get.
  destruct (requests w !! xhr) as [request|]; [|by eexists].
  destruct (readyState request); try by eexists.
  destruct (negb _); [by eexists|].
  unfold tryCatch.
  match goal with |- context [match ?c w with _ => _ end] => destruct (c w) as [[[]|e] w1] end;
    by eexists.
Qed.

(** C6. An exception raised by the apply step is caught and logged by
    the engine only when the step runs inside the handler.  With a
    post-load delay the step runs from a timeout, outside the [try]
    block: on the demo page, with a selector that the host refuses, the
    SyntaxError raised by [updateDOM] escapes to the event loop and the
    engine logs nothing; without the delay the same exception is caught
    and passed to [console.error].  In both runs the new history entry
    has been pushed, nothing is assigned to [window.location], and the
    engine accepts the next click. *)
Theorem delayed_apply_exception_not_caught :
  let delayed := Demo.constructed (Demo.brokenSelectorConfig 100) in
  let immediate := Demo.constructed (Demo.brokenSelectorConfig 0) in
  let click := Click (Demo.plainClick Demo.link) in
  trace <$> run Demo.demoHost [click; Load 0 200 "x"; TimerFired 1] delayed
  = Some [ PreventDefault; CallBack (JsFunction "() => {}" JsUndefined);
           HistoryReplaceState {| so_url := "/a"; so_scroll := Some (0, 0)%Z |} "/a";
           XhrSend 0 "/b"; DispatchEvent "mercury:unload";
           HistoryPushState {| so_url := "/b"; so_scroll := None |} "/b";
           UncaughtException (SyntaxError "not a valid selector") ]
  /\ trace <$> run Demo.demoHost [click; Load 0 200 "x"] immediate
     = Some [ PreventDefault; CallBack (JsFunction "() => {}" JsUndefined);
              HistoryReplaceState {| so_url := "/a"; so_scroll := Some (0, 0)%Z |} "/a";
              XhrSend 0 "/b"; DispatchEvent "mercury:unload";
              HistoryPushState {| so_url := "/b"; so_scroll := None |} "/b";
              ConsoleErrorException (SyntaxError "not a valid selector") ]
  /\ (requests <$> run Demo.demoHost [click; Load 0 200 "x"; TimerFired 1; click] delayed)
       ≫= (.!! 1)
     = Some {| req_url := "/b"; req_isPopState := false; req_callback := None;
               req_timeout := JsNumber (integer 5000); readyState := OPENED;
               status := 0; responseText := "" |}.
Proof. vm_compute. repeat split; reflexivity. Qed.

(** ** Scroll offsets in the session history *)

(** [makeRequest] rewrites the entry that is current when it runs, with
    the URL of that entry and the scroll offset of that moment, and only
    then creates and sends the request. *)
Lemma makeRequest_rewrites_current_entry url (isPopState : bool)
    (callback : option StateObject) w :
  let w' := (makeRequest url isPopState callback w).2 in
  let here := entry_url (current (history w)) in
  let stateObject := {| so_url := here; so_scroll := Some (pageOffset w) |} in
  history w' = replaceState stateObject here (history w)
  /\ trace w' = trace w
                ++ (if toBoolean (onNavigate (this w))
                    then [CallBack (onNavigate (this w))] else [])
                ++ [HistoryReplaceState stateObject here;
                    XhrSend (length (requests w)) url]
  /\ requests w' = requests w
                   ++ [ {| req_url := url; req_isPopState := isPopState;
                           req_callback := callback; req_timeout := timeout (this w);
                           readyState := OPENED; status := 0; responseText := "" |} ]
  /\ XHR (this w') = Some (length (requests w))
  /\ timers w' = timers w
  /\ onLoadDelayTimeout (this w') = onLoadDelayTimeout (this w).
Proof.
  cbv zeta. unfold makeRequest, bind, self, when, get, modify, emit, assign,
    replaceHistoryStateWithScrollPosition, bind, get, modify, emit.
  destruct (toBoolean (onNavigate (this w))); simpl;
    rewrite <- ?app_assoc; done.
Qed.

(** C4. The entry that [makeRequest] rewrites is the one that is current
    when it runs.  For a click that is the entry of the page being left.
    For a history traversal the browser has already made the destination
    entry current when [popstate] fires: on the demo page, after a click
    from [/a] (left at offset 100) to [/b] and a press on the back button
    at offset 50, the entry of [/b], the page being left, still carries no
    scroll offset, and the entry of [/a] has lost its offset 100 for the
    offset 50 of [/b]. *)
Theorem popstate_rewrites_destination_entry :
  let start := Demo.constructed Demo.feedConfig in
  let click := Click (Demo.plainClick Demo.link) in
  history <$> run Demo.demoHost [Scroll 0 100; click; Load 0 200 "B"; Scroll 0 50] start
  = Some {| past := [ {| entry_state :=
                           Some {| so_url := "/a"; so_scroll := Some (0, 100)%Z |};
                         entry_url := "/a" |} ];
            current := {| entry_state := Some {| so_url := "/b"; so_scroll := None |};
                          entry_url := "/b" |};
            future := [] |}
  /\ history <$> run Demo.demoHost
                   [Scroll 0 100; click; Load 0 200 "B"; Scroll 0 50; PopState Back] start
     = Some {| past := [];
               current := {| entry_state :=
                               Some {| so_url := "/a"; so_scroll := Some (0, 50)%Z |};
                             entry_url := "/a" |};
               future := [ {| entry_state := Some {| so_url := "/b"; so_scroll := None |};
                              entry_url := "/b" |} ] |}.
Proof. vm_compute. split; reflexivity. Qed.

(** ** One navigation at a time *)

Lemma requestInFlight_alter w xhr (f : Request -> Request) (x : nat) :
  requestInFlight (set_requests (alter f xhr (requests w)) w) x
  = if decide (x = xhr)
    then from_option (fun r => inFlight (f r)) false (requests w !! xhr)
    else requestInFlight w x.
Proof.
  unfold requestInFlight. simpl. destruct (decide (x = xhr)) as [->|Hne].
  - rewrite list_lookup_alter_eq. by destruct (requests w !! xhr).
  - by rewrite list_lookup_alter_ne.
Qed.

Lemma requestInFlight_requests w1 w2 (x : nat) :
  requests w1 = requests w2 -> requestInFlight w1 x = requestInFlight w2 x.
Proof. unfold requestInFlight. by intros ->. Qed.

Lemma consistent_bookkeeping w w' :
  bookkeeping w' = bookkeeping w -> consistent w -> consistent w'.
Proof.
  unfold bookkeeping, consistent. intros [= Hr Ht Hx Ho] (Ha & Hb & Hc).
  rewrite Ht, Hx, Ho. repeat split.
  - intros xhr. rewrite (requestInFlight_requests w' w xhr Hr). apply Ha.
  - by apply Hb.
  - by apply Hb.
  - rewrite (requestInFlight_requests w' w _ Hr). by apply Hb.
  - done.
Qed.

Lemma quiet_bookkeeping w w' : bookkeeping w' = bookkeeping w -> quiet w w'.
Proof.
  unfold bookkeeping, quiet. intros [= Hr Ht Hx Ho]. rewrite Hr, Ht. repeat split.
  - intros xhr. by rewrite (requestInFlight_requests w' w xhr Hr).
  - auto.
Qed.

Lemma preserves_bookkeeping_modifyPageAndHistory host url (isPopState : bool)
    (callback : option StateObject) (text : string) :
  preserves bookkeeping (modifyPageAndHistory host url isPopState callback text).
Proof. apply preserves_modifyPageAndHistory; auto with frame. Qed.

(** The handler of [readystatechange] changes the bookkeeping in one way
    only: it may schedule the delayed apply of its own request. *)
Lemma onreadystatechange_effect host xhr w :
  let w' := (onreadystatechange host xhr w).2 in
  bookkeeping w' = bookkeeping w
  \/ (requests w' = requests w
      /\ XHR (this w') = XHR (this w)
      /\ exists id, timers w' = timers w ++ [(id, xhr)]
                    /\ onLoadDelayTimeout (this w') = Some id).
Proof.
  cbv zeta. destruct (onreadystatechange host xhr w) as [c w'] eqn:Hrun.
  cbn [snd]. revert Hrun. unfold onreadystatechange, bind at 1, get.
  destruct (requests w !! xhr) as [request|]; [|intros [= <- <-]; by left].
  destruct (readyState request); try (intros [= <- <-]; by left).
  destruct (negb _); [intros [= <- <-]; by left|].
  unfold tryCatch, bind at 1, self.
  destruct (_ && _); [intros [= <- <-]; by left|].
  unfold bind at 1.
  destruct (unloadEvent (this w)) as [type|]; [|intros [= <- <-]; by left].
  cbn [dispatchEvent emit modify]. unfold bind at 1, self. cbn [this set_trace].
  destruct (toBoolean (onLoadDelay (this w))).
  - intros [= <- <-]. right. simpl. repeat split; eauto.
  - match goal with
    | |- context [modifyPageAndHistory host ?u ?p ?k ?t ?w1] =>
        pose proof (preserves_bookkeeping_modifyPageAndHistory host u p k t w1) as Hm;
        destruct (modifyPageAndHistory host u p k t w1) as [[[]|e] w2]
    end; intros [= <- <-]; left; simpl in *; exact Hm.
Qed.

Lemma abort_effect host xhr w :
  exists w',
    abort host xhr w = (Normal tt, w')
    /\ timers w' = timers w
    /\ XHR (this w') = XHR (this w)
    /\ onLoadDelayTimeout (this w') = onLoadDelayTimeout (this w)
    /\ length (requests w') = length (requests w)
    /\ (forall x, requestInFlight w' x = requestInFlight w x && bool_decide (x ≠ xhr))
    /\ history w' = history w /\ pageOffset w' = pageOffset w
    /\ document w' = document w
    /\ exists tr reqs, w' = set_trace tr (set_requests reqs w).
Proof.
  unfold abort, bind at 1, emit, modify. unfold bind at 1, get. cbn [requests set_trace].
  destruct (requests w !! xhr) as [request|] eqn:Hreq.
  - destruct (inFlight request) eqn:Hfl.
    + unfold bind at 1, updateRequest, modify.
      set (w1 := set_requests _ _).
      assert (Hl : requests w1 !! xhr = Some (settle DONE 0 "" request)).
      { subst w1. simpl. by rewrite list_lookup_alter_eq, Hreq. }
      assert (Hn : exists w2, when (errorStepsNotify host)
                                (listener (onreadystatechange host xhr)) w1
                              = (Normal tt, w2)
                              /\ exists tr, w2 = set_trace tr w1).
      { destruct (errorStepsNotify host).
        - eexists. split.
          + apply listener_normal.
            rewrite (onreadystatechange_failed _ _ _ _ Hl); [reflexivity|done|done].
          + by eexists.
        - exists w1. split; [done|]. exists (trace w1). by destruct w1. }
      destruct Hn as (w2 & Hrun & tr & ->).
      unfold bind at 1. rewrite Hrun. eexists. split; [reflexivity|].
      subst w1. simpl. rewrite !length_alter. repeat split; try done;
        [|by eexists _, _].
      intros x. unfold requestInFlight. simpl.
      destruct (decide (x = xhr)) as [->|Hne].
      * rewrite !list_lookup_alter_eq, Hreq. simpl.
        rewrite bool_decide_false by (intros Hne; by apply Hne).
        by rewrite andb_false_r.
      * rewrite !list_lookup_alter_ne by done.
        rewrite bool_decide_true by done. by rewrite andb_true_r.
    + assert (Hx : forall x, requestInFlight w x
                             = requestInFlight w x && bool_decide (x ≠ xhr)).
      { intros x. destruct (decide (x = xhr)) as [->|Hne].
        - unfold requestInFlight. rewrite Hreq. simpl. by rewrite Hfl.
        - rewrite bool_decide_true by done. by rewrite andb_true_r. }
      assert (Hsame : exists tr reqs,
                 set_trace (trace w ++ [XhrAbort xhr]) w
                 = set_trace tr (set_requests reqs w)).
      { exists (trace w ++ [XhrAbort xhr]), (requests w). by destruct w. }
      destruct (readyState request) eqn:Hrs;
        try (eexists; split; [reflexivity|by repeat split]).
      eexists. split; [reflexivity|]. simpl. rewrite length_alter.
      repeat split; try done; [|by eexists _, _].
      intros x. rewrite <- Hx. unfold requestInFlight. simpl.
      destruct (decide (x = xhr)) as [->|Hne].
      * rewrite list_lookup_alter_eq, Hreq. simpl. by rewrite Hfl.
      * by rewrite list_lookup_alter_ne.
  - eexists. split; [reflexivity|]. repeat split; try done.
    + intros x. destruct (decide (x = xhr)) as [->|Hne].
      * unfold requestInFlight. simpl. by rewrite Hreq.
      * rewrite bool_decide_true by done. by rewrite andb_true_r.
    + exists (trace w ++ [XhrAbort xhr]), (requests w). by destruct w.
Qed.

Lemma preserves_abort {X : Type} (f : World -> X) host xhr :
  ignores set_trace f -> ignores set_requests f -> preserves f (abort host xhr).
Proof.
  intros Ht Hr w.
  destruct (abort_effect host xhr w) as (w' & Hrun & _ & _ & _ & _ & _ & _ & _ & _ & Hw').
  rewrite Hrun. destruct Hw' as (tr & reqs & ->). simpl. by rewrite Ht, Hr.
Qed.

Lemma preserves_makeRequest {X : Type} (f : World -> X) url (isPopState : bool)
    (callback : option StateObject) :
  ignores set_trace f -> ignores set_requests f -> ignores set_history f ->
  ignores set_this f ->
  preserves f (makeRequest url isPopState callback).
Proof.
  intros Ht Hr Hh Hthis.
  unfold makeRequest, replaceHistoryStateWithScrollPosition, assign. frame.
  all: try (by apply preserves_emit).
  all: apply preserves_modify; intros w'; first [apply Hr|apply Hh|apply Hthis].
Qed.

Lemma preserves_clearTimeout {X : Type} (f : World -> X) (id : option nat) :
  ignores set_timers f -> preserves f (clearTimeout id).
Proof.
  intros Ht. destruct id; [|done]. apply preserves_modify. intros w. apply Ht.
Qed.

Lemma preserves_onPopState {X : Type} (f : World -> X) host (state : option StateObject) :
  ignores set_trace f -> ignores set_requests f -> ignores set_history f ->
  ignores set_this f -> ignores set_timers f ->
  preserves f (onPopState host state).
Proof.
  intros Ht Hr Hh Hthis Htm. destruct state as [state|]; [|done].
  unfold onPopState.
  apply preserves_bind; [apply preserves_self|]. intros me.
  apply preserves_bind; [|intros _; by apply preserves_makeRequest].
  destruct (XHR me); [|done].
  apply preserves_bind; [by apply preserves_abort|]. intros _.
  apply preserves_bind; [apply preserves_self|]. intros me'.
  by apply preserves_clearTimeout.
Qed.

Lemma preserves_onClick {X : Type} (f : World -> X) host (e : ClickEvent) :
  ignores set_trace f -> ignores set_requests f -> ignores set_history f ->
  ignores set_this f -> ignores set_timers f ->
  preserves f (onClick host e).
Proof.
  intros Ht Hr Hh Hthis Htm. unfold onClick.
  destruct (isKeyModified e); [done|].
  apply preserves_bind; [apply preserves_get|]. intros w.
  destruct (climb _ _ _) as [target|]; [|done].
  destruct (bool_decide _); [done|].
  apply preserves_bind; [apply preserves_self|]. intros me.
  apply preserves_bind.
  { unfold elementMatches. frame. }
  intros []; [done|].
  apply preserves_bind; [by apply preserves_emit|]. intros _.
  apply preserves_bind; [apply preserves_self|]. intros me'.
  apply preserves_bind.
  - destruct (XHR me'); [|done].
    apply preserves_bind; [by apply preserves_abort|]. intros _.
    apply preserves_bind; [apply preserves_self|]. intros me''.
    by apply preserves_clearTimeout.
  - intros _. apply preserves_bind; [apply preserves_get|]. intros w'.
    by apply preserves_makeRequest.
Qed.

Lemma preserves_destroy {X : Type} (f : World -> X) host :
  ignores set_trace f -> ignores set_requests f -> ignores set_timers f ->
  ignores set_listeners f ->
  preserves f (destroy host).
Proof.
  intros Ht Hr Htm Hl. unfold destroy.
  apply preserves_bind; [apply preserves_self|]. intros me.
  apply preserves_bind; [destruct (XHR me); [by apply preserves_abort|done]|].
  intros _. apply preserves_bind; [apply preserves_self|]. intros me'.
  apply preserves_bind; [by apply preserves_clearTimeout|]. intros _.
  unfold documentBody, eventType, removeEventListener. frame.
  all: apply preserves_modify; intros w'; apply Hl.
Qed.

Lemma preserves_commitCacheEntry {X : Type} (f : World -> X) host url sel :
  ignores set_this f -> preserves f (commitCacheEntry host url sel).
Proof.
  intros Hthis. unfold commitCacheEntry, querySelector, querySelectorIn, assign. frame.
  all: apply preserves_modify; intros w'; apply Hthis.
Qed.

Lemma started_bookkeeping w w1 w2 :
  bookkeeping w2 = bookkeeping w1 -> started w w1 -> started w w2.
Proof.
  unfold bookkeeping, started. intros [= Hr Ht Hx Ho] (Hlen & Hxhr & Hfl & Htm).
  rewrite Hr, Ht, Hx. repeat split; try done.
  - rewrite (requestInFlight_requests w2 w1 xhr Hr). apply Hfl.
  - rewrite (requestInFlight_requests w2 w1 xhr Hr). apply Hfl.
Qed.

Lemma listener_bookkeeping (body : Js unit) w :
  bookkeeping (listener body w).2 = bookkeeping (body w).2.
Proof. unfold listener, tryCatch. by destruct (body w) as [[[]|e] w1]. Qed.

Lemma filter_none {A : Type} (P : A -> Prop) `{!forall x, Decision (P x)} (l : list A) :
  (forall x, x ∈ l -> ~ P x) -> filter P l = [].
Proof.
  intros Hl. apply elem_of_nil_inv. intros x Hx.
  apply list_elem_of_filter in Hx as [HP Hin]. by apply (Hl x).
Qed.

(** What both triggers do before they call [makeRequest]: the request
    remembered in [this.XHR] is aborted and the timeout remembered in
    [this.onLoadDelayTimeout] is cleared.  On consistent bookkeeping this
    leaves no request in flight and no timeout pending. *)
Lemma supersede_effect host w :
  consistent w ->
  exists w1,
    (match XHR (this w) with
     | Some xhr =>
         abort host xhr ;;;
         let! me := self in
         clearTimeout (onLoadDelayTimeout me)
     | None => ret tt
     end) w = (Normal tt, w1)
    /\ length (requests w1) = length (requests w)
    /\ (forall x, requestInFlight w1 x = false)
    /\ timers w1 = []
    /\ history w1 = history w /\ pageOffset w1 = pageOffset w
    /\ document w1 = document w.
Proof.
  intros (Ha & Hb & Hc).
  destruct (XHR (this w)) as [xhr|] eqn:Hxhr.
  - destruct (abort_effect host xhr w)
      as (w' & Hrun & Ht & Hx & Ho & Hlen & Hfl & Hh & Hp & Hd & _).
    unfold bind at 1. rewrite Hrun. unfold bind, self. cbn [fst snd].
    rewrite Ho.
    assert (Hnone : forall x, requestInFlight w' x = false).
    { intros x. rewrite Hfl. destruct (requestInFlight w x) eqn:Hx1; [|done].
      apply Ha in Hx1. simplify_eq.
      rewrite bool_decide_false; [done|]. intros Hne. by apply Hne. }
    destruct (onLoadDelayTimeout (this w)) as [id|] eqn:Hid.
    + eexists. split; [reflexivity|]. simpl. rewrite Ht. repeat split; try done.
      apply filter_none. intros t Hin. destruct (Hb t Hin) as (Ht1 & _).
      simplify_eq. intros Hne. by apply Hne.
    + eexists. split; [reflexivity|]. repeat split; try done.
      rewrite Ht. apply elem_of_nil_inv. intros t Hin.
      destruct (Hb t Hin) as (Ht1 & _). simplify_eq.
  - eexists. split; [reflexivity|]. repeat split; try done.
    + intros x. destruct (requestInFlight w x) eqn:Hx1; [|done].
      apply Ha in Hx1. simplify_eq.
    + apply elem_of_nil_inv. intros t Hin.
      destruct (Hb t Hin) as (_ & Ht2 & _). simplify_eq.
Qed.

Lemma started_requests w0 w w' :
  requests w0 = requests w -> started w0 w' -> started w w'.
Proof. unfold started. by intros ->. Qed.

Lemma supersede_then_request host w (continue : Js unit) :
  consistent w ->
  (forall w1, exists url isPopState callback,
      continue w1 = makeRequest url isPopState callback w1) ->
  started w
    ((let! me := self in
      match XHR me with
      | Some xhr =>
          abort host xhr ;;;
          let! me := self in
          clearTimeout (onLoadDelayTimeout me)
      | None => ret tt
      end ;;;
      continue) w).2.
Proof.
  intros Hc Hk. unfold bind at 1. unfold self at 1. cbv beta iota.
  destruct (supersede_effect host w Hc) as (w1 & Hrun & Hlen & Hnone & Htm & _).
  unfold bind at 1. rewrite Hrun.
  destruct (Hk w1) as (url & isPopState & callback & ->).
  destruct (makeRequest_rewrites_current_entry url isPopState callback w1)
    as (_ & _ & Hreqs & Hxhr & Htimers & _).
  unfold started. rewrite Hxhr, Htimers, Hreqs, length_app, Hlen. simpl.
  repeat split; try done; try lia.
  - intros Hfl. unfold requestInFlight in Hfl. rewrite Hreqs in Hfl.
    destruct (decide (xhr < length (requests w1))) as [Hlt|Hge].
    + rewrite lookup_app_l in Hfl by done.
      specialize (Hnone xhr). unfold requestInFlight in Hnone. congruence.
    + destruct (decide (xhr = length (requests w1))) as [->|Hne]; [done|].
      rewrite lookup_ge_None_2 in Hfl; [done|].
      rewrite length_app. simpl. lia.
  - intros ->. unfold requestInFlight. rewrite Hreqs, <- Hlen.
    by rewrite list_lookup_middle.
Qed.

Lemma onClick_effect host (e : ClickEvent) w :
  consistent w ->
  let w' := (onClick host e w).2 in
  bookkeeping w' = bookkeeping w \/ started w w'.
Proof.
  intros Hc. cbv zeta.
  destruct (onClick host e w) as [c w'] eqn:Hrun. cbn [snd]. revert Hrun.
  unfold onClick. destruct (isKeyModified e); [intros [= <- <-]; by left|].
  unfold bind at 1, get.
  destruct (climb _ _ _) as [target|]; [|intros [= <- <-]; by left].
  destruct (bool_decide _); [intros [= <- <-]; by left|].
  unfold bind at 1, self. unfold bind at 1, elementMatches, bind at 1, get.
  destruct (selectorValid host _); [|intros [= <- <-]; by left].
  cbn [ret]. destruct (selects host _ _ _); [intros [= <- <-]; by left|].
  unfold bind at 1, emit, modify.
  set (w0 := set_trace _ w). intros Hrun. right.
  apply (f_equal snd) in Hrun. cbn [snd] in Hrun. subst w'.
  apply (started_requests w0 w); [done|].
  apply supersede_then_request.
  - by apply (consistent_bookkeeping w w0).
  - intros w1. unfold bind, get. by eexists _, _, _.
Qed.

Lemma onPopState_effect host (state : option StateObject) w :
  consistent w ->
  let w' := (onPopState host state w).2 in
  bookkeeping w' = bookkeeping w \/ started w w'.
Proof.
  intros Hc. cbv zeta. destruct state as [state|]; [|by left].
  right. unfold onPopState. apply supersede_then_request; [done|].
  intros w1. by eexists _, _, _.
Qed.

Lemma started_consistent w w' : started w w' -> consistent w'.
Proof.
  intros (Hlen & Hxhr & Hfl & Htm). unfold consistent. rewrite Htm, Hxhr.
  repeat split.
  - intros xhr Hx. apply Hfl in Hx. by subst.
  - by apply elem_of_nil in H.
  - by apply elem_of_nil in H.
  - by apply elem_of_nil in H.
  - simpl. lia.
Qed.

Lemma onreadystatechange_pending host w xhr (request : Request) :
  requests w !! xhr = Some request ->
  readyState request ≠ DONE ->
  onreadystatechange host xhr w = (Normal tt, w).
Proof.
  intros Hreq Hrs. unfold onreadystatechange, bind at 1, get. rewrite Hreq.
  by destruct (readyState request).
Qed.

Lemma preserves_bookkeeping_onLoadDelayElapsed host xhr :
  preserves bookkeeping (onLoadDelayElapsed host xhr).
Proof.
  apply preserves_bind; [apply preserves_get|]. intros w.
  destruct (requests w !! xhr); [|done].
  apply preserves_bookkeeping_modifyPageAndHistory.
Qed.

Lemma preserves_bookkeeping_commitCacheEntry host url sel :
  preserves bookkeeping (commitCacheEntry host url sel).
Proof.
  apply preserves_bind; [apply preserves_self|]. intros me.
  destruct (_ || _); [done|]. destruct (cache me); [|done].
  apply preserves_bind; [by apply preserves_modify|]. intros _.
  apply preserves_bind; [apply preserves_querySelector|]. intros found.
  destruct found; [|done].
  apply preserves_bind; [apply preserves_get|]. intros w.
  by apply preserves_modify.
Qed.

Lemma preserves_bookkeeping_unbind (loadEvent unloadEvent : option string) :
  preserves bookkeeping
    (documentBody ;;;
     removeEventListener "click" ;;;
     removeEventListener "popstate" ;;;
     let! type := eventType loadEvent in
     removeEventListener type ;;;
     let! type := eventType unloadEvent in
     removeEventListener type).
Proof.
  apply preserves_bind.
  { apply preserves_bind; [apply preserves_get|]. intros w.
    by destruct (bodyOf (document w)). }
  intros _. apply preserves_bind; [by apply preserves_modify|].
  intros _. apply preserves_bind; [by apply preserves_modify|].
  intros _. apply preserves_bind; [by destruct loadEvent|].
  intros type. apply preserves_bind; [by apply preserves_modify|].
  intros _. apply preserves_bind; [by destruct unloadEvent|].
  intros type'. by apply preserves_modify.
Qed.

Lemma destroy_effect host w :
  consistent w ->
  let w' := (destroy host w).2 in
  consistent w' /\ quiet w w'.
Proof.
  intros (Ha & Hb & Hc). cbv zeta.
  assert (Habort : exists w1,
             (match XHR (this w) with
              | Some xhr => abort host xhr
              | None => ret tt
              end) w = (Normal tt, w1)
             /\ timers w1 = timers w /\ XHR (this w1) = XHR (this w)
             /\ onLoadDelayTimeout (this w1) = onLoadDelayTimeout (this w)
             /\ length (requests w1) = length (requests w)
             /\ forall x, requestInFlight w1 x = false).
  { destruct (XHR (this w)) as [xhr|] eqn:Hxhr.
    - destruct (abort_effect host xhr w)
        as (w1 & Hrun & Ht & Hx & Ho & Hlen & Hfl & _).
      exists w1. repeat split; try done; try congruence.
      intros x. rewrite Hfl. destruct (requestInFlight w x) eqn:Hx1; [|done].
      apply Ha in Hx1. simplify_eq.
      rewrite bool_decide_false; [done|]. intros Hne. by apply Hne.
    - exists w. repeat split; try done.
      intros x. destruct (requestInFlight w x) eqn:Hx1; [|done].
      apply Ha in Hx1. simplify_eq. }
  destruct Habort as (w1 & Hrun & Ht & Hx & Ho & Hlen & Hnone).
  set (w2 := (clearTimeout (onLoadDelayTimeout (this w1)) w1).2).
  assert (Hclear : clearTimeout (onLoadDelayTimeout (this w1)) w1 = (Normal tt, w2)).
  { subst w2. by destruct (onLoadDelayTimeout (this w1)). }
  assert (Hw2 : requests w2 = requests w1 /\ XHR (this w2) = XHR (this w1)
                /\ onLoadDelayTimeout (this w2) = onLoadDelayTimeout (this w1)
                /\ (forall t, t ∈ timers w2 -> t ∈ timers w1)
                /\ length (timers w2) <= length (timers w1)).
  { subst w2. destruct (onLoadDelayTimeout (this w1)) eqn:E; simpl; repeat split;
      try done.
    - intros t Hin. by apply list_elem_of_filter in Hin as [_ Hin].
    - apply length_filter. }
  destruct Hw2 as (Hr2 & Hx2 & Ho2 & Ht2 & Hl2).
  assert (Hrest : bookkeeping (destroy host w).2 = bookkeeping w2).
  { unfold destroy, bind at 1. unfold self at 1. cbv beta iota.
    unfold bind at 1. rewrite Hrun. unfold bind at 1. unfold self at 1. cbv beta iota.
    unfold bind at 1. rewrite Hclear. apply preserves_bookkeeping_unbind. }
  set (w3 := (destroy host w).2) in *.
  injection Hrest as Hr3 Ht3 Hx3 Ho3.
  assert (Hnone3 : forall x, requestInFlight w3 x = false).
  { intros x. rewrite (requestInFlight_requests w3 w2 x Hr3).
    rewrite (requestInFlight_requests w2 w1 x Hr2). apply Hnone. }
  split.
  - unfold consistent. rewrite Ht3, Hx3, Ho3, Hx2, Ho2, Hx, Ho. repeat split.
    + intros x Hx1. by rewrite Hnone3 in Hx1.
    + apply Hb. rewrite <- Ht. by apply Ht2.
    + apply Hb. rewrite <- Ht. by apply Ht2.
    + apply Hnone3.
    + rewrite Ht in Hl2. lia.
  - unfold quiet. rewrite Hr3, Hr2, Hlen, Ht3. repeat split.
    + intros x Hx1. by rewrite Hnone3 in Hx1.
    + intros t Hin. left. rewrite <- Ht. by apply Ht2.
Qed.

Lemma effect_of_bookkeeping w w0 w1 w' :
  consistent w ->
  bookkeeping w0 = bookkeeping w ->
  bookkeeping w1 = bookkeeping w0 \/ started w0 w1 ->
  bookkeeping w' = bookkeeping w1 ->
  consistent w' /\ (started w w' \/ quiet w w').
Proof.
  intros Hc H0 [H1|H1] H'.
  - assert (Hb : bookkeeping w' = bookkeeping w) by congruence.
    split; [by apply (consistent_bookkeeping w)|].
    right. by apply quiet_bookkeeping.
  - assert (Hs : started w w').
    { apply (started_bookkeeping _ w1); [done|].
      apply (started_requests w0); [|done]. by injection H0. }
    split; [by apply (started_consistent w)|by left].
Qed.

Lemma in_flight_no_timers w xhr :
  consistent w -> requestInFlight w xhr = true ->
  XHR (this w) = Some xhr /\ timers w = [].
Proof.
  intros (Ha & Hb & _) Hfl. pose proof (Ha _ Hfl) as Hx. split; [done|].
  apply elem_of_nil_inv. intros t Hin. destruct (Hb t Hin) as (_ & Hx2 & Hn).
  rewrite Hx in Hx2. injection Hx2 as ->. congruence.
Qed.

(** A request that completes, fails or makes progress: no request comes
    to be in flight, and the only timeout that can appear is the delayed
    apply of that request. *)
Lemma settled_effect w xhr (f : Request -> Request) w1 w' :
  consistent w ->
  requestInFlight w xhr = true ->
  w1 = set_requests (alter f xhr (requests w)) w ->
  (bookkeeping w' = bookkeeping w1
   \/ (requests w' = requests w1 /\ XHR (this w') = XHR (this w1)
       /\ (forall r, inFlight (f r) = false)
       /\ exists id, timers w' = timers w1 ++ [(id, xhr)]
                     /\ onLoadDelayTimeout (this w') = Some id)) ->
  consistent w' /\ (started w w' \/ quiet w w').
Proof.
  intros Hc Hfl -> Hw'.
  destruct (in_flight_no_timers w xhr Hc Hfl) as [Hx Hnil].
  destruct Hc as (Ha & Hb & Hc).
  assert (Hmono : forall x,
             requestInFlight (set_requests (alter f xhr (requests w)) w) x = true ->
             requestInFlight w x = true).
  { intros x. rewrite requestInFlight_alter.
    by destruct (decide (x = xhr)) as [->|_]. }
  destruct Hw' as [[= Hr Ht Hx' Ho]|(Hr & Hx' & Hdone & id & Ht & Ho)].
  - simpl in Hr, Ht, Hx', Ho. split.
    + unfold consistent. rewrite Ht, Hx', Ho. repeat split.
      * intros x Hx1. rewrite (requestInFlight_requests w' (set_requests (alter f xhr (requests w)) w) x Hr)
          in Hx1.
        apply Ha. by apply Hmono.
      * by rewrite Hnil in H; apply elem_of_nil in H.
      * by rewrite Hnil in H; apply elem_of_nil in H.
      * by rewrite Hnil in H; apply elem_of_nil in H.
      * done.
    + right. unfold quiet. rewrite Hr, Ht, length_alter. repeat split.
      * intros x Hx1. rewrite (requestInFlight_requests w' (set_requests (alter f xhr (requests w)) w) x Hr)
          in Hx1.
        by apply Hmono.
      * auto.
  - simpl in Hr, Ht, Hx'. rewrite Hnil in Ht. simpl in Ht. split.
    + unfold consistent. rewrite Ht, Hx', Ho. repeat split.
      * intros x Hx1. rewrite (requestInFlight_requests w' (set_requests (alter f xhr (requests w)) w) x Hr)
          in Hx1.
        apply Ha. by apply Hmono.
      * apply list_elem_of_singleton in H. by subst.
      * apply list_elem_of_singleton in H. by subst.
      * apply list_elem_of_singleton in H. subst. simpl.
        rewrite (requestInFlight_requests w' (set_requests (alter f xhr (requests w)) w)
                   xhr Hr), requestInFlight_alter.
        rewrite decide_True by done.
        destruct (requests w !! xhr); [apply Hdone|done].
      * simpl. lia.
    + right. unfold quiet. rewrite Hr, Ht, length_alter. repeat split.
      * intros x Hx1. rewrite (requestInFlight_requests w' (set_requests (alter f xhr (requests w)) w) x Hr)
          in Hx1.
        by apply Hmono.
      * intros t Hin. apply list_elem_of_singleton in Hin. subst. by right.
Qed.

Lemma quiet_transfer w w1 w' :
  bookkeeping w' = bookkeeping w1 -> quiet w w1 -> quiet w w'.
Proof.
  unfold bookkeeping, quiet. intros [= Hr Ht Hx Ho] (Hlen & Hfl & Htm).
  rewrite Hr, Ht. repeat split; try done.
  intros xhr. rewrite (requestInFlight_requests w' w1 xhr Hr). apply Hfl.
Qed.

Lemma requestInFlight_lookup w xhr :
  requestInFlight w xhr = true -> exists request, requests w !! xhr = Some request.
Proof. unfold requestInFlight. destruct (requests w !! xhr); [eauto|done]. Qed.

(** One turn of the event loop keeps the bookkeeping consistent, and
    either starts a navigation or is quiet. *)
Lemma step_effect host (ev : Event) w :
  consistent w ->
  enabled ev w = true ->
  consistent (step host ev w)
  /\ (started w (step host ev w) \/ quiet w (step host ev w)).
Proof.
  intros Hc Hen. destruct ev as [e|d|x y|xhr rs|xhr st body|xhr|xhr|id|url sel|].
  - change (step host (Click e) w) with (listener (onClick host e) w).2.
    apply (effect_of_bookkeeping w w (onClick host e w).2);
      [done|done|by apply onClick_effect|apply listener_bookkeeping].
  - simpl in Hen. apply bool_decide_eq_true in Hen as [h Hh].
    assert (step host (PopState d) w
            = (when (bool_decide ("popstate" ∈ listeners w))
                 (listener (onPopState host (entry_state (current h))))
                 (set_history h w)).2) as ->.
    { unfold step, deliver, bind, get, modify. by rewrite Hh. }
    destruct (bool_decide ("popstate" ∈ listeners w)); cbn [when].
    + apply (effect_of_bookkeeping w (set_history h w)
               (onPopState host (entry_state (current h)) (set_history h w)).2);
        [done|done| |apply listener_bookkeeping].
      apply onPopState_effect. by apply (consistent_bookkeeping w).
    + apply (effect_of_bookkeeping w w w); [done|done|by left|done].
  - apply (effect_of_bookkeeping w w w); [done|done|by left|done].
  - simpl in Hen. apply andb_true_iff in Hen as [Hfl Hrs].
    destruct (requestInFlight_lookup w xhr Hfl) as [request Hreq].
    set (f := fun r => settle rs (status r) (responseText r) r).
    set (w1 := set_requests (alter f xhr (requests w)) w).
    assert (step host (Progress xhr rs) w = w1) as ->.
    { unfold step, deliver, bind at 1, updateRequest, modify. fold f. fold w1.
      rewrite (listener_normal _ w1 w1); [done|].
      apply (onreadystatechange_pending host w1 xhr (f request)).
      - subst w1. simpl. by rewrite list_lookup_alter_eq, Hreq.
      - subst f. simpl. by destruct rs. }
    apply (settled_effect w xhr f w1 w1); [done|done|done|by left].
  - simpl in Hen.
    set (w1 := set_requests (alter (settle DONE st body) xhr (requests w)) w).
    change (step host (Load xhr st body) w)
      with (listener (onreadystatechange host xhr) w1).2.
    pose proof (listener_bookkeeping (onreadystatechange host xhr) w1) as Hl.
    apply (settled_effect w xhr (settle DONE st body) w1); [done|done|done|].
    destruct (onreadystatechange_effect host xhr w1)
      as [Hb|(Hr & Hx & id & Ht & Ho)].
    + left. congruence.
    + right. injection Hl as Hr' Ht' Hx' Ho'.
      rewrite Hr', Hx', Ht', Ho'. repeat split; try done. by exists id.
  - simpl in Hen. destruct (requestInFlight_lookup w xhr Hen) as [request Hreq].
    rewrite (step_error_steps host w xhr request (NetworkError xhr) Hreq) by auto.
    eapply (settled_effect w xhr (settle DONE 0 "")); [done|done|reflexivity|by left].
  - simpl in Hen. destruct (requestInFlight_lookup w xhr Hen) as [request Hreq].
    rewrite (step_error_steps host w xhr request (TimedOut xhr) Hreq) by auto.
    eapply (settled_effect w xhr (settle DONE 0 "")); [done|done|reflexivity|by left].
  - destruct (List.find (fun t => bool_decide (t.1 = id)) (timers w)) as [t|] eqn:Hfind;
      last first.
    { assert (step host (TimerFired id) w = w) as ->.
      { unfold step, deliver, bind, get. by rewrite Hfind. }
      apply (effect_of_bookkeeping w w w); [done|done|by left|done]. }
    set (w1 := set_timers (filter (fun t => t.1 ≠ id) (timers w)) w).
    assert (step host (TimerFired id) w
            = (listener (onLoadDelayElapsed host t.2) w1).2) as ->.
    { unfold step, deliver, bind, get, modify. by rewrite Hfind. }
    assert (Hb : bookkeeping (listener (onLoadDelayElapsed host t.2) w1).2
                 = bookkeeping w1).
    { rewrite listener_bookkeeping. apply preserves_bookkeeping_onLoadDelayElapsed. }
    assert (Hsub : forall t, t ∈ timers w1 -> t ∈ timers w).
    { intros t' Hin. subst w1. simpl in Hin.
      by apply list_elem_of_filter in Hin as [_ Hin]. }
    assert (Hc1 : consistent w1).
    { destruct Hc as (Ha & Hb' & Hc). repeat split.
      - apply Ha.
      - by apply (Hb' t0), Hsub.
      - by apply (Hb' t0), Hsub.
      - by apply (Hb' t0), Hsub.
      - subst w1. simpl. pose proof (length_filter (fun t => t.1 ≠ id) (timers w)). lia. }
    split; [by apply (consistent_bookkeeping w1)|].
    right. apply (quiet_transfer w w1); [done|].
    repeat split; [done|]. intros t' Hin. left. by apply Hsub.
  - change (step host (CallCommitCacheEntry url sel) w)
      with (listener (commitCacheEntry host url sel) w).2.
    apply (effect_of_bookkeeping w w (commitCacheEntry host url sel w).2);
      [done|done| |apply listener_bookkeeping].
    left. apply preserves_bookkeeping_commitCacheEntry.
  - change (step host CallDestroy w) with (listener (destroy host) w).2.
    destruct (destroy_effect host w Hc) as [Hc1 Hq].
    pose proof (listener_bookkeeping (destroy host) w) as Hb.
    split; [by apply (consistent_bookkeeping (destroy host w).2)|].
    right. by apply (quiet_transfer w (destroy host w).2).
Qed.

(** The bookkeeping is consistent once the engine is constructed on a
    page that has no request and no timeout of its own yet, and it stays
    consistent along every run. *)
Lemma construct_consistent host (config : JsValue) w :
  requests w = [] -> timers w = [] -> consistent (construct host config w).2.
Proof.
  intros Hr Ht.
  pose proof (preserves_construct (fun w => (requests w, timers w)) host config) as Hp.
  specialize (Hp ltac:(auto with frame) ltac:(auto with frame) ltac:(auto with frame)
                 ltac:(auto with frame) w).
  injection Hp as Hr' Ht'. rewrite Hr in Hr'. rewrite Ht in Ht'.
  unfold consistent, requestInFlight. rewrite Hr', Ht'. split; [|split].
  - intros xhr. by destruct xhr.
  - intros t Hin. by apply elem_of_nil in Hin.
  - simpl. lia.
Qed.

Lemma run_consistent host (evs : list Event) :
  forall w w', consistent w -> run host evs w = Some w' -> consistent w'.
Proof.
  induction evs as [|ev rest IH]; intros w w' Hc Hrun; simpl in Hrun.
  - by injection Hrun as <-.
  - destruct (enabled ev w) eqn:Hen; [|done].
    apply (IH (step host ev w)); [|done]. by apply step_effect.
Qed.

Lemma started_superseded w w' :
  started w w' ->
  superseded (length (requests w)) w' /\ length (requests w) <= length (requests w').
Proof.
  intros (Hlen & _ & Hfl & Htm). repeat split.
  - intros xhr Hlt. destruct (requestInFlight w' xhr) eqn:E; [|done].
    apply Hfl in E. lia.
  - intros t Hin. rewrite Htm in Hin. by apply elem_of_nil in Hin.
  - lia.
Qed.

Lemma step_superseded host (ev : Event) (n : nat) w :
  consistent w -> enabled ev w = true ->
  superseded n w -> n <= length (requests w) ->
  superseded n (step host ev w) /\ n <= length (requests (step host ev w)).
Proof.
  intros Hc Hen [Hfl Htm] Hn.
  destruct (step_effect host ev w Hc Hen) as [_ [Hs|(Hlen & Hq & Ht)]].
  - destruct (started_superseded _ _ Hs) as [[Hfl' Htm'] Hlen]. repeat split.
    + intros xhr Hlt. apply Hfl'. lia.
    + intros t Hin. specialize (Htm' t Hin). lia.
    + lia.
  - repeat split.
    + intros xhr Hlt. destruct (requestInFlight (step host ev w) xhr) eqn:E; [|done].
      apply Hq in E. by rewrite Hfl in E.
    + intros t Hin. destruct (Ht t Hin) as [Hold|Hnew]; [by apply Htm|].
      destruct (decide (n <= t.2)) as [|Hlt]; [done|].
      rewrite Hfl in Hnew; [done|lia].
    + lia.
Qed.

Lemma run_superseded host (evs : list Event) (n : nat) :
  forall w w',
    consistent w -> superseded n w -> n <= length (requests w) ->
    run host evs w = Some w' -> superseded n w'.
Proof.
  induction evs as [|ev rest IH]; intros w w' Hc Hs Hn Hrun; simpl in Hrun.
  - by injection Hrun as <-.
  - destruct (enabled ev w) eqn:Hen; [|done].
    destruct (step_superseded host ev n w Hc Hen Hs Hn) as [Hs' Hn'].
    apply (IH (step host ev w)); try done. by apply step_effect.
Qed.

(** Only two kinds of turn can change the document: a response that
    arrives, and a delayed apply that fires. *)
Lemma step_document host (ev : Event) w :
  enabled ev w = true ->
  appliesResponse ev = false ->
  document (step host ev w) = document w.
Proof.
  intros Hen Hev.
  destruct ev as [e|d|x y|xhr rs|xhr st body|xhr|xhr|id|url sel|]; try done.
  - apply (preserves_listener document); [auto with frame|].
    apply preserves_onClick; auto with frame.
  - unfold step, deliver.
    apply (preserves_bind document); [apply preserves_get|]. intros w0.
    destruct (traverse d (history w0)); [|done].
    apply preserves_bind; [by apply preserves_modify|]. intros _.
    apply preserves_when. apply preserves_listener; [auto with frame|].
    apply preserves_onPopState; auto with frame.
  - simpl in Hen. apply andb_true_iff in Hen as [Hfl Hrs].
    destruct (requestInFlight_lookup w xhr Hfl) as [request Hreq].
    set (f := fun r => settle rs (status r) (responseText r) r).
    set (w1 := set_requests (alter f xhr (requests w)) w).
    assert (step host (Progress xhr rs) w = w1) as ->; [|done].
    unfold step, deliver, bind at 1, updateRequest, modify. fold f. fold w1.
    rewrite (listener_normal _ w1 w1); [done|].
    apply (onreadystatechange_pending host w1 xhr (f request)).
    + subst w1. simpl. by rewrite list_lookup_alter_eq, Hreq.
    + subst f. simpl. by destruct rs.
  - simpl in Hen. destruct (requestInFlight_lookup w xhr Hen) as [request Hreq].
    by rewrite (step_error_steps host w xhr request (NetworkError xhr) Hreq) by auto.
  - simpl in Hen. destruct (requestInFlight_lookup w xhr Hen) as [request Hreq].
    by rewrite (step_error_steps host w xhr request (TimedOut xhr) Hreq) by auto.
  - apply (preserves_listener document); [auto with frame|].
    apply preserves_commitCacheEntry; auto with frame.
  - apply (preserves_listener document); [auto with frame|].
    apply preserves_destroy; auto with frame.
Qed.

(** A turn that applies a response starts no navigation. *)
Lemma appliesResponse_quiet host (ev : Event) w :
  consistent w -> enabled ev w = true -> appliesResponse ev = true ->
  length (requests (step host ev w)) = length (requests w).
Proof.
  intros Hc Hen Hev.
  destruct ev as [e|d|x y|xhr rs|xhr st body|xhr|xhr|id|url sel|]; try done.
  - unfold step, deliver, bind at 1, updateRequest, modify.
    rewrite <- (length_alter (settle DONE st body) (requests w) xhr).
    set (w0 := set_requests _ w).
    change (length (alter (settle DONE st body) xhr (requests w)))
      with (length (requests w0)).
    pose proof (listener_bookkeeping (onreadystatechange host xhr) w0) as Hl.
    destruct (onreadystatechange_effect host xhr w0) as [Hb|(Hr & _)].
    + rewrite Hb in Hl. by injection Hl as ->.
    + injection Hl as -> _ _ _. by rewrite Hr.
  - unfold step, deliver, bind at 1, get.
    destruct (List.find _ (timers w)) as [t|]; [|done].
    unfold bind at 1, modify.
    set (w0 := set_timers _ w).
    pose proof (listener_bookkeeping (onLoadDelayElapsed host t.2) w0) as Hl.
    rewrite (preserves_bookkeeping_onLoadDelayElapsed host t.2 w0) in Hl.
    by injection Hl as -> _ _ _.
Qed.

(** What consistent bookkeeping gives, and what a turn that starts a
    navigation establishes for every later state. *)
Lemma consistent_one_navigation host w :
  consistent w ->
  (forall x y, requestInFlight w x = true -> requestInFlight w y = true -> x = y)
  /\ length (timers w) <= 1
  /\ (forall x, requestInFlight w x = true -> timers w = [])
  /\ forall ev, enabled ev w = true ->
       let w1 := step host ev w in
       let n := length (requests w) in
       consistent w1
       /\ (length (requests w1) ≠ n ->
           started w w1
           /\ document w1 = document w
           /\ forall evs w2, run host evs w1 = Some w2 ->
                superseded n w2
                /\ (forall xhr, xhr < n ->
                      (forall rs, enabled (Progress xhr rs) w2 = false)
                      /\ (forall st body, enabled (Load xhr st body) w2 = false)
                      /\ enabled (NetworkError xhr) w2 = false
                      /\ enabled (TimedOut xhr) w2 = false)
                /\ (forall ev2, enabled ev2 w2 = true ->
                      document (step host ev2 w2) ≠ document w2 ->
                      (exists xhr st body, ev2 = Load xhr st body /\ n <= xhr)
                      \/ (exists t, ev2 = TimerFired t.1 /\ t ∈ timers w2 /\ n <= t.2))).
Proof.
  intros Hc. split; [|split; [|split]].
  - intros x y Hx Hy. destruct Hc as (Ha & _).
    apply Ha in Hx. apply Ha in Hy. congruence.
  - apply Hc.
  - intros x Hx. by destruct (in_flight_no_timers w x Hc Hx).
  - intros ev Hen. cbv zeta.
    destruct (step_effect host ev w Hc Hen) as [Hc1 Hcase].
    split; [done|]. intros Hlen.
    destruct Hcase as [Hs|(Hlen' & _)]; [|done].
    split; [done|]. split.
    { apply step_document; [done|].
      destruct (appliesResponse ev) eqn:Hev; [|done].
      by rewrite (appliesResponse_quiet host ev w Hc Hen Hev) in Hlen. }
    intros evs w2 Hrun.
    destruct (started_superseded _ _ Hs) as [Hs1 Hn].
    pose proof (run_superseded host evs _ _ _ Hc1 Hs1 Hn Hrun) as [Hfl Htm].
    split; [by split|]. split.
    + intros xhr Hlt. specialize (Hfl xhr Hlt).
      simpl. rewrite Hfl. by repeat split.
    + intros ev2 Hen2 Hdoc2.
      destruct (appliesResponse ev2) eqn:Hev2;
        [|by rewrite (step_document host ev2 w2 Hen2 Hev2) in Hdoc2].
      destruct ev2 as [e|d|x y|xhr rs|xhr st body|xhr|xhr|id|url sel|]; try done.
      * left. exists xhr, st, body. split; [done|].
        destruct (decide (length (requests w) <= xhr)) as [|Hlt]; [done|].
        simpl in Hen2. rewrite Hfl in Hen2; [done|lia].
      * right. simpl in Hen2. apply bool_decide_eq_true in Hen2.
        apply list_elem_of_fmap in Hen2 as (t & -> & Hin).
        exists t. repeat split; [done|]. by apply Htm.
Qed.

(** What holds of superseded navigations.  In every state that the
    event loop reaches from a freshly constructed engine, at most one
    request is in flight, at most one delayed apply is pending, and none
    is pending while a request is in flight.  A turn that starts a
    navigation (a click or a popstate that issues a request) does not
    touch the document and leaves the request of that navigation as the
    only work pending: whatever request was in flight has been aborted
    and whatever timeout was pending has been cleared.  From then on, in
    every run, no older request is ever in flight again and no pending
    timeout belongs to one, so no later event of a superseded navigation
    can be delivered, and a turn that changes the document applies the
    response of the new navigation or of a later one.  What the turn
    itself does while it aborts the older request is another matter. *)
Lemma at_most_one_navigation_in_flight host (config : JsValue) w0
    (evs : list Event) w :
  requests w0 = [] -> timers w0 = [] ->
  run host evs (construct host config w0).2 = Some w ->
  (forall x y, requestInFlight w x = true -> requestInFlight w y = true -> x = y)
  /\ length (timers w) <= 1
  /\ (forall x, requestInFlight w x = true -> timers w = [])
  /\ forall ev, enabled ev w = true ->
       let w1 := step host ev w in
       let n := length (requests w) in
       length (requests w1) ≠ n ->
       started w w1
       /\ document w1 = document w
       /\ forall evs w2, run host evs w1 = Some w2 ->
            superseded n w2
            /\ (forall xhr, xhr < n ->
                  (forall rs, enabled (Progress xhr rs) w2 = false)
                  /\ (forall st body, enabled (Load xhr st body) w2 = false)
                  /\ enabled (NetworkError xhr) w2 = false
                  /\ enabled (TimedOut xhr) w2 = false)
            /\ (forall ev2, enabled ev2 w2 = true ->
                  document (step host ev2 w2) ≠ document w2 ->
                  (exists xhr st body, ev2 = Load xhr st body /\ n <= xhr)
                  \/ (exists t, ev2 = TimerFired t.1 /\ t ∈ timers w2 /\ n <= t.2)).
Proof.
  intros Hr Ht Hrun.
  assert (Hc : consistent w).
  { apply (run_consistent host evs (construct host config w0).2); [|done].
    by apply construct_consistent. }
  destruct (consistent_one_navigation host w Hc) as (Hone & Htm & Hnone & Hturn).
  split; [done|]. split; [done|]. split; [done|].
  intros ev Hen. cbv zeta. intros Hlen.
  destruct (Hturn ev Hen) as (_ & Hnav). exact (Hnav Hlen).
Qed.


(** C1 (code bug). Starting a navigation aborts the request of the
    navigation before it, but [abort()] on a request in flight runs the
    request error steps, which set [readyState] to DONE with status 0
    and fire [readystatechange]: the completion handler of the
    superseded navigation does fire, inside [abort()], finds a status
    other than 200 and assigns [window.location] the superseded URL.
    The demo host runs the request error steps as the XMLHttpRequest
    standard prescribes.  On its page with two links, a click on the
    link to [/b] followed, before the response arrives, by a click on
    the link to [/c]: between the abort of the request for [/b] and the
    request for [/c] the engine asks for a full navigation to [/b].
    Only the request for [/c] is in flight afterwards, and the document
    is untouched.  The same happens when the back button supersedes a
    click: after a visit of [/b], a click on the link to [/c] followed
    by the back button makes the engine ask for a full navigation to
    [/c] before it requests [/a]. *)
Theorem superseded_navigation_handler_fires :
  let w0 := (construct Demo.demoHost Demo.feedConfig Tour.twoLinks).2 in
  (exists w,
      run Demo.demoHost
        [Click (Demo.plainClick Demo.link); Click (Demo.plainClick Tour.secondLink)] w0
      = Some w
      /\ trace w
         = [ PreventDefault;
             CallBack (JsFunction "() => {}" JsUndefined);
             HistoryReplaceState {| so_url := "/a"; so_scroll := Some (0, 0)%Z |} "/a";
             XhrSend 0 "/b";
             PreventDefault;
             XhrAbort 0;
             LocationAssign "/b";
             CallBack (JsFunction "() => {}" JsUndefined);
             HistoryReplaceState {| so_url := "/a"; so_scroll := Some (0, 0)%Z |} "/a";
             XhrSend 1 "/c" ]
      /\ requestInFlight w 0 = false
      /\ requestInFlight w 1 = true
      /\ document w = document w0)
  /\ exists w1 w2,
       run Demo.demoHost
         [Click (Demo.plainClick Demo.link); Load 0 200 "B";
          Click (Demo.plainClick Tour.secondLink)] w0
       = Some w1
       /\ run Demo.demoHost [PopState Back] w1 = Some w2
       /\ trace w2
          = trace w1
            ++ [ XhrAbort 1;
                 LocationAssign "/c";
                 CallBack (JsFunction "() => {}" JsUndefined);
                 HistoryReplaceState {| so_url := "/a"; so_scroll := Some (0, 0)%Z |} "/a";
                 XhrSend 2 "/a" ]
       /\ requestInFlight w2 1 = false
       /\ requestInFlight w2 2 = true
       /\ document w2 = document w1.
Proof.
  cbv zeta. split.
  - eexists. split; [by vm_compute|]. by vm_compute.
  - eexists _, _. split; [by vm_compute|]. split; [by vm_compute|]. by vm_compute.
Qed.

(** ** Which entry a navigation rewrites *)

Lemma supersede_frame host w :
  exists w1,
    (match XHR (this w) with
     | Some xhr =>
         abort host xhr ;;;
         let! me := self in
         clearTimeout (onLoadDelayTimeout me)
     | None => ret tt
     end) w = (Normal tt, w1)
    /\ history w1 = history w /\ pageOffset w1 = pageOffset w
    /\ document w1 = document w.
Proof.
  destruct (XHR (this w)) as [xhr|]; [|by exists w].
  destruct (abort_effect host xhr w)
    as (w' & Hrun & _ & _ & _ & _ & _ & Hh & Hp & Hd & _).
  unfold bind at 1. rewrite Hrun. unfold bind, self. cbn [fst snd].
  destruct (onLoadDelayTimeout (this w')); by eexists.
Qed.

Lemma onPopState_rewrites_current_entry host (state : StateObject) w :
  history (onPopState host (Some state) w).2 = rewritten w.
Proof.
  unfold onPopState, bind at 1. unfold self at 1. cbv beta iota.
  destruct (supersede_frame host w) as (w1 & Hrun & Hh & Hp & _).
  unfold bind at 1. rewrite Hrun.
  destruct (makeRequest_rewrites_current_entry (so_url state) true (Some state) w1)
    as (Hhist & _).
  rewrite Hhist. unfold rewritten. by rewrite Hh, Hp.
Qed.

(** X27. A history traversal: the browser makes the destination entry current
    and then fires [popstate]; the engine rewrites that entry, with the
    scroll offset of the page being left.  The entry of the page being
    left is among the entries behind or ahead, which are not touched. *)
Lemma traversal_rewrites_destination_entry host (d : Direction) w
    (h : History) (state : StateObject) :
  traverse d (history w) = Some h ->
  "popstate" ∈ listeners w ->
  entry_state (current h) = Some state ->
  history (step host (PopState d) w) = rewritten (set_history h w)
  /\ past (history (step host (PopState d) w)) = past h
  /\ future (history (step host (PopState d) w)) = future h
  /\ entry_state (current (history (step host (PopState d) w)))
     = Some {| so_url := entry_url (current h); so_scroll := Some (pageOffset w) |}.
Proof.
  intros Hh Hl Hstate.
  assert (Hstep : history (step host (PopState d) w) = rewritten (set_history h w)).
  { unfold step, deliver, bind at 1, get. rewrite Hh. unfold bind at 1, modify.
    rewrite bool_decide_true by done. cbn [when]. rewrite Hstate.
    unfold listener, tryCatch.
    pose proof (onPopState_rewrites_current_entry host state (set_history h w)) as Hp.
    destruct (onPopState host (Some state) (set_history h w)) as [[[]|e] w1]; exact Hp. }
  by rewrite Hstep.
Qed.

(** X28. A click: the entry rewritten, if any, is the entry of the page on
    which the click happens. *)
Lemma click_rewrites_entry_being_left host (e : ClickEvent) w :
  history (step host (Click e) w) = history w
  \/ history (step host (Click e) w) = rewritten w.
Proof.
  assert (Hclick : history (onClick host e w).2 = history w
                   \/ history (onClick host e w).2 = rewritten w).
  { destruct (onClick host e w) as [c w'] eqn:Hrun. cbn [snd]. revert Hrun.
    unfold onClick. destruct (isKeyModified e); [intros [= <- <-]; by left|].
    unfold bind at 1. unfold get at 1. cbv beta iota.
    destruct (climb _ _ _) as [target|]; [|intros [= <- <-]; by left].
    destruct (bool_decide _); [intros [= <- <-]; by left|].
    unfold bind at 1. unfold self at 1. cbv beta iota.
    unfold bind at 1, elementMatches. unfold bind at 1. unfold get at 1.
    cbv beta iota.
    destruct (selectorValid host _); [|intros [= <- <-]; by left].
    cbn [ret]. destruct (selects host _ _ _); [intros [= <- <-]; by left|].
    unfold bind at 1, emit, modify.
    set (w0 := set_trace _ w). unfold bind at 1. unfold self at 1. cbv beta iota.
    destruct (supersede_frame host w0) as (w1 & Hrun & Hh & Hp & _).
    unfold bind at 1. rewrite Hrun. unfold bind at 1. unfold get at 1.
    cbv beta iota.
    intros Hrun'. right. apply (f_equal snd) in Hrun'. cbn [snd] in Hrun'. subst w'.
    destruct (makeRequest_rewrites_current_entry (hrefOf (document w1) target) false
                None w1) as (Hhist & _).
    rewrite Hhist. unfold rewritten. by rewrite Hh, Hp. }
  unfold step, deliver, listener, tryCatch.
  by destruct (onClick host e w) as [[[]|err] w1].
Qed.

(** ** Construction *)

Lemma touchesInstance_refl w : touchesInstance w w.
Proof. exists (trace w), (this w). by destruct w. Qed.

Lemma touchesInstance_trans w1 w2 w3 :
  touchesInstance w1 w2 -> touchesInstance w2 w3 -> touchesInstance w1 w3.
Proof. intros (tr & m & ->) (tr' & m' & ->). by exists tr', m'. Qed.

Lemma yields_ret {A : Type} (P : A -> Prop) (a : A) : P a -> yields P (ret a).
Proof. intros Ha w. exists a, w. split; [done|]. split; [apply touchesInstance_refl|done]. Qed.

Lemma yields_bind {A B : Type} (P : B -> Prop) (c : Js A) (k : A -> Js B) :
  benign c -> (forall a, yields P (k a)) -> yields P (bind c k).
Proof.
  intros Hc Hk w. destruct (Hc w) as (a & w1 & Hrun & H1 & _).
  destruct (Hk a w1) as (b & w2 & Hrun' & H2 & Hb).
  exists b, w2. unfold bind. rewrite Hrun. split; [done|].
  split; [by apply (touchesInstance_trans w w1 w2)|done].
Qed.

Lemma benign_ret {A : Type} (a : A) : benign (ret a).
Proof. by apply yields_ret. Qed.

Lemma benign_bind {A B : Type} (c : Js A) (k : A -> Js B) :
  benign c -> (forall a, benign (k a)) -> benign (bind c k).
Proof. apply yields_bind. Qed.

Lemma benign_emit (e : Effect) : benign (emit e).
Proof.
  intros w. eexists tt, _. split; [reflexivity|]. split; [|done].
  exists (trace w ++ [e]), (this w). by destruct w.
Qed.

Lemma benign_assign (f : Mercury -> Mercury) : benign (assign f).
Proof.
  intros w. eexists tt, _. split; [reflexivity|]. split; [|done].
  exists (trace w), (f (this w)). by destruct w.
Qed.

Lemma benign_when (c : bool) (body : Js unit) : benign body -> benign (when c body).
Proof. destruct c; [done|]. intros _. apply benign_ret. Qed.

Lemma benign_template (v : JsValue) (k : string -> Js JsValue) :
  showable v -> (forall s, benign (k s)) -> benign (let! shown := template v in k shown).
Proof.
  intros [s Hs] Hk. apply benign_bind; [|done].
  unfold template. rewrite Hs. apply benign_ret.
Qed.

Lemma benign_report (v : JsValue) (text : string -> string) (result : JsValue) :
  showable v ->
  benign (let! shown := template v in consoleError (text shown) ;;; ret result).
Proof.
  intros Hv. apply benign_template; [done|]. intros s.
  apply benign_bind; [apply benign_emit|]. intros _. apply benign_ret.
Qed.

Lemma addEventListener_listens (type : string) w :
  type ∈ listeners (addEventListener type w).2.
Proof.
  unfold addEventListener, modify. simpl.
  destruct (bool_decide (type ∈ listeners w)) eqn:Hin.
  - by apply bool_decide_eq_true in Hin.
  - simpl. apply elem_of_app. right. apply list_elem_of_singleton. done.
Qed.

Lemma addEventListener_keeps (type type' : string) w :
  type ∈ listeners w -> type ∈ listeners (addEventListener type' w).2.
Proof.
  intros Hin. unfold addEventListener, modify. simpl.
  destruct (bool_decide (type' ∈ listeners w)); [done|].
  simpl. apply elem_of_app. by left.
Qed.

Lemma addEventListener_run (type : string) w :
  addEventListener type w = (Normal tt, (addEventListener type w).2).
Proof. done. Qed.

Lemma addEventListener_frame (type : string) w :
  document (addEventListener type w).2 = document w
  /\ this (addEventListener type w).2 = this w.
Proof. unfold addEventListener, modify. simpl. by destruct (bool_decide _). Qed.

Lemma bindListeners_binds w (body : Path) :
  bodyOf (document w) = Some body ->
  loadEvent (this w) = Some "mercury:load" ->
  unloadEvent (this w) = Some "mercury:unload" ->
  exists w',
    bindListeners w = (Normal tt, w')
    /\ Forall (fun type => type ∈ listeners w')
              ["click"; "popstate"; "mercury:load"; "mercury:unload"].
Proof.
  intros Hbody Hload Hunload.
  set (w1 := (addEventListener "click" w).2).
  set (w2 := (addEventListener "popstate" w1).2).
  set (w3 := (addEventListener "mercury:load" w2).2).
  set (w4 := (addEventListener "mercury:unload" w3).2).
  assert (Hthis : this w2 = this w).
  { subst w2 w1.
    rewrite (proj2 (addEventListener_frame "popstate" _)).
    apply addEventListener_frame. }
  exists w4. split.
  - unfold bindListeners, bind at 1, documentBody, bind at 1, get. rewrite Hbody.
    cbn [ret]. unfold bind at 1. rewrite (addEventListener_run "click" w). fold w1.
    unfold bind at 1. rewrite (addEventListener_run "popstate" w1). fold w2.
    unfold bind at 1. unfold self at 1. cbv beta iota. rewrite Hthis, Hload.
    unfold bind at 1, eventType at 1. cbn [ret].
    unfold bind at 1. rewrite (addEventListener_run "mercury:load" w2). fold w3.
    rewrite Hunload. unfold bind at 1, eventType. cbn [ret]. done.
  - repeat apply Forall_cons_2; [| | | |apply Forall_nil_2]; subst w4 w3 w2 w1.
    + do 3 apply addEventListener_keeps. apply addEventListener_listens.
    + do 2 apply addEventListener_keeps. apply addEventListener_listens.
    + apply addEventListener_keeps. apply addEventListener_listens.
    + apply addEventListener_listens.
Qed.

(** ** What patching the document depends on *)

Lemma documentOnly_ret {A : Type} (a : A) : documentOnly (ret a).
Proof. by intros w1 w2 Hw. Qed.

Lemma documentOnly_throw {A : Type} (e : Exn) : documentOnly (throw (A := A) e).
Proof. by intros w1 w2 Hw. Qed.

Lemma documentOnly_self : documentOnly self.
Proof. intros w1 w2 Hw. split; [|done]. simpl. f_equal. apply Hw. Qed.

Lemma documentOnly_bind {A B : Type} (c : Js A) (k : A -> Js B) :
  documentOnly c -> (forall a, documentOnly (k a)) -> documentOnly (bind c k).
Proof.
  intros Hc Hk w1 w2 Hw. unfold bind. destruct (Hc w1 w2 Hw) as [Hsame Hnext].
  destruct (c w1) as [[a|e] w1'], (c w2) as [[a'|e'] w2']; simpl in *; try done.
  - injection Hsame as <-. by apply Hk.
  - by injection Hsame as <-.
Qed.

Lemma documentOnly_when (c : bool) (body : Js unit) :
  documentOnly body -> documentOnly (when c body).
Proof. destruct c; [done|]. intros _. apply documentOnly_ret. Qed.

Lemma documentOnly_forEach {A : Type} (g : A -> Js unit) (items : list A) :
  (forall x, documentOnly (g x)) -> documentOnly (forEach g items).
Proof.
  intros Hg. induction items as [|x rest IH]; simpl.
  - apply documentOnly_ret.
  - apply documentOnly_bind; [apply Hg|]. intros _. apply IH.
Qed.

Lemma documentOnly_onDocument (g : list Node -> list Node) :
  documentOnly (modify (fun w => set_document (g (document w)) w)).
Proof.
  intros w1 w2 [Hd Ht]. split; [done|]. split; simpl; [by rewrite Hd|done].
Qed.

Lemma documentOnly_elsewhere (g : World -> World) :
  (forall w, document (g w) = document w /\ this (g w) = this w) ->
  documentOnly (modify g).
Proof.
  intros Hg w1 w2 [Hd Ht]. split; [done|]. unfold modify, sameDocument. cbn [snd].
  destruct (Hg w1) as [-> ->], (Hg w2) as [-> ->]. by split.
Qed.

Lemma documentOnly_onElement (element : Path) (g : Node -> Node) :
  documentOnly (onElement element g).
Proof. apply (documentOnly_onDocument (fun doc => updateAt g doc element)). Qed.

Lemma documentOnly_querySelectorIn host (doc : list Node) sel :
  documentOnly (querySelectorIn host doc sel).
Proof. unfold querySelectorIn. by destruct (selectorValid host sel). Qed.

Lemma documentOnly_querySelector host sel : documentOnly (querySelector host sel).
Proof.
  intros w1 w2 Hw. unfold querySelector, bind, get. destruct Hw as [Hd Ht].
  rewrite Hd. unfold querySelectorIn. by destruct (selectorValid host sel).
Qed.

Lemma documentOnly_hasCached url sel : documentOnly (hasCached url sel).
Proof.
  apply documentOnly_bind; [apply documentOnly_self|]. intros me.
  destruct (toBoolean (enableCache me)); [|apply documentOnly_ret].
  destruct (cache me); [apply documentOnly_ret|apply documentOnly_throw].
Qed.

Lemma documentOnly_replaceAttributes (element : Path) (reference : Node) :
  documentOnly (replaceAttributes element reference).
Proof.
  apply documentOnly_bind.
  - intros w1 w2 [Hd Ht]. unfold elementAttributes, bind, get, ret. simpl.
    by rewrite Hd.
  - intros attrs. apply documentOnly_bind.
    + apply documentOnly_forEach. intros a. apply documentOnly_onElement.
    + intros _. apply documentOnly_forEach. intros a. apply documentOnly_onElement.
Qed.

Lemma documentOnly_patch host (newDoc : list Node) url (rule : UpdateConfig) :
  documentOnly (patch host newDoc url rule).
Proof.
  apply documentOnly_bind; [apply documentOnly_querySelector|]. intros active.
  apply documentOnly_bind; [apply documentOnly_querySelectorIn|]. intros reference.
  destruct active as [active|]; [|apply documentOnly_ret].
  destruct (reference ≫= _) as [node|].
  - apply documentOnly_bind.
    + apply documentOnly_when.
      apply documentOnly_bind; [apply documentOnly_hasCached|]. intros cached.
      apply documentOnly_onElement.
    + intros _. apply documentOnly_when. apply documentOnly_replaceAttributes.
  - apply (documentOnly_onDocument (fun doc => removeAt doc active)).
Qed.

Lemma documentOnly_updateDOM host url (text : string) :
  documentOnly (updateDOM host url text).
Proof.
  apply documentOnly_bind; [apply documentOnly_self|]. intros me.
  apply documentOnly_bind.
  - apply documentOnly_forEach. intros rule. apply documentOnly_patch.
  - intros _. apply documentOnly_bind.
    + by apply documentOnly_elsewhere.
    + intros _. by apply documentOnly_elsewhere.
Qed.

(** The document that applying a response leaves is the document that
    [updateDOM] leaves: the push before it and the callback and the
    event after it do not touch the document. *)
Lemma modifyPageAndHistory_document host url (isPopState : bool)
    (callback : option StateObject) (text : string) w w0 :
  sameDocument w w0 ->
  document (modifyPageAndHistory host url isPopState callback text w).2
  = document (updateDOM host url text w0).2.
Proof.
  intros Hw. unfold modifyPageAndHistory, bind at 1.
  set (pushed := when (negb isPopState) _ w).
  assert (Hpushed : pushed.1 = Normal tt /\ sameDocument pushed.2 w0).
  { subst pushed. by destruct isPopState. }
  destruct pushed as [c w1]. destruct Hpushed as [Hc Hw1]. simpl in Hc, Hw1. subst c.
  unfold bind at 1.
  destruct (documentOnly_updateDOM host url text w1 w0 Hw1) as [Hsame [Hdoc _]].
  destruct (updateDOM host url text w1) as [[[]|e] w2]; simpl in *; [|done].
  rewrite <- Hdoc.
  match goal with
  | |- document (?rest w2).2 = _ =>
      assert (Hrest : preserves document rest); [|apply Hrest]
  end.
  apply preserves_bind.
  - destruct callback; [by apply preserves_restoreScroll|done].
  - intros _. apply preserves_bind; [apply preserves_self|]. intros me.
    by apply preserves_dispatchEvent.
Qed.

(** * Further properties of the code *)

(** ** Equality of pages, field by field *)

Lemma World_eq w1 w2 :
  document w1 = document w2 -> history w1 = history w2 ->
  scrollRestoration w1 = scrollRestoration w2 -> pageOffset w1 = pageOffset w2 ->
  requests w1 = requests w2 -> timers w1 = timers w2 ->
  timerCount w1 = timerCount w2 -> listeners w1 = listeners w2 ->
  trace w1 = trace w2 -> this w1 = this w2 ->
  w1 = w2.
Proof. destruct w1, w2. simpl. by intros -> -> -> -> -> -> -> -> -> ->. Qed.

Ltac world_fields :=
  cbn [document history scrollRestoration pageOffset requests timers
       timerCount listeners trace this
       set_document set_history set_scrollRestoration set_pageOffset
       set_requests set_timers set_timerCount set_listeners set_trace set_this].

Ltac world_eq := apply World_eq; world_fields; try reflexivity.

(** ** [validation.js]: optional parameters *)

Lemma trace_grows (e : Effect) w : trace (set_trace (trace w ++ [e]) w) ≠ trace w.
Proof.
  simpl. intros H. apply (f_equal length) in H. rewrite length_app in H.
  simpl in H. lia.
Qed.

Lemma typeof_undefined (v : JsValue) : typeof v = "undefined" -> v = JsUndefined.
Proof. by destruct v. Qed.

Lemma undefined_or_not (v : JsValue) : v = JsUndefined \/ v ≠ JsUndefined.
Proof. destruct v; (by left) || by right. Qed.

(** X1. [validateOptionalParam] with a fallback of the expected type
    either returns a value of the expected type or raises a TypeError.
    A parameter of the expected type is returned as it is and nothing is
    logged; [undefined] gives the fallback and nothing is logged.  A
    parameter that is defined and of another type is reported with one
    diagnostic, which shows the parameter and names the type, and gives
    the fallback, when it can be converted to a string; when it cannot
    (a symbol, an object whose own [toString] and [valueOf] give no
    primitive value), the conversion raises a TypeError, nothing is
    logged and nothing is returned. *)
Theorem validateOptionalParam_typed (param : JsValue) (type : string)
    (fallback : JsValue) w :
  typeof fallback = type ->
  (exists v w',
      validateOptionalParam param type fallback w = (Normal v, w')
      /\ typeof v = type
      /\ (typeof param = type -> v = param /\ w' = w)
      /\ (typeof param ≠ type -> v = fallback)
      /\ (param = JsUndefined -> w' = w)
      /\ (param ≠ JsUndefined -> typeof param ≠ type ->
          exists shown,
            toString param = Some shown
            /\ w' = set_trace
                      (trace w ++ [ConsoleError (shown +:+ " is not a " +:+ type +:+ ".")])
                      w))
  \/ (param ≠ JsUndefined /\ typeof param ≠ type /\ toString param = None
      /\ exists message,
           validateOptionalParam param type fallback w = (Throw (TypeError message), w)).
Proof.
  intros Hfb.
  destruct (undefined_or_not param) as [->|Hdef].
  { left. exists fallback, w. split; [done|]. split; [done|]. split.
    { intros Ht. simpl in Ht. subst type. symmetry in Ht.
      by rewrite (typeof_undefined _ Ht). }
    by repeat split. }
  assert (Hrun : validateOptionalParam param type fallback w
                 = (if negb (String.eqb (typeof param) type) then
                      let! shown := template param in
                      consoleError (shown +:+ " is not a " +:+ type +:+ ".") ;;;
                      ret fallback
                    else ret param) w) by by destruct param.
  rewrite Hrun. clear Hrun.
  destruct (String.eqb_spec (typeof param) type) as [Heq|Hne]; simpl.
  { left. exists param, w. by repeat split. }
  unfold bind, template. destruct (toString param) as [shown|] eqn:Hshown; simpl.
  - left. eexists fallback, _. split; [done|]. split; [done|]. split; [done|].
    split; [done|]. split; [done|]. intros _ _. by exists shown.
  - right. do 3 (split; [done|]). by eexists.
Qed.

(** X2. [validateOnLoadDelay] either returns a number for which the test
    [delayTime < 0] fails, or raises a TypeError.  A number that passes
    the test is returned as it is and nothing is logged: a fraction, an
    infinity above zero and NaN as well as an integer.  The result is 0
    in every other case in which there is one: for [undefined], with
    nothing logged; for a number below zero and for a value of another
    type that can be converted to a string, with exactly one diagnostic.
    A value of another type that cannot be converted (a symbol) raises
    the TypeError of the conversion; nothing is logged then. *)
Theorem validateOnLoadDelay_clamps (delayTime : JsValue) w :
  (exists v w',
      validateOnLoadDelay delayTime w = (Normal v, w')
      /\ typeof v = "number"
      /\ lessThanZero v = false
      /\ v = (if passesDelayChecks delayTime then delayTime else JsNumber (integer 0))
      /\ (w' = w \/ exists message,
                      w' = set_trace (trace w ++ [ConsoleError message]) w)
      /\ (trace w' = trace w <->
          delayTime = JsUndefined \/ passesDelayChecks delayTime = true))
  \/ (delayTime ≠ JsUndefined /\ typeof delayTime ≠ "number"
      /\ toString delayTime = None
      /\ exists message,
           validateOnLoadDelay delayTime w = (Throw (TypeError message), w)).
Proof.
  assert (Hother :
            typeof delayTime ≠ "number" -> delayTime ≠ JsUndefined ->
            validateOnLoadDelay delayTime w
            = (let! shown := template delayTime in
               consoleError (shown +:+ " is not a number.") ;;;
               ret (JsNumber (integer 0))) w
            /\ passesDelayChecks delayTime = false).
  { intros Ht Hd. by destruct delayTime. }
  destruct (String.eqb_spec (typeof delayTime) "number") as [Hnum|Hnum].
  - left. destruct delayTime as [| |b|x|s|d|f r|items|props]; try done.
    unfold validateOnLoadDelay, passesDelayChecks.
    cbn [typeof String.eqb negb Ascii.eqb Bool.eqb andb].
    destruct (lessThanZero (JsNumber x)) eqn:Hneg; cbn [negb].
    + unfold bind, template. cbn [toString consoleError emit modify ret].
      eexists _, _. split; [reflexivity|]. split; [done|]. split; [done|].
      split; [done|]. split; [right; by eexists|].
      split; [intros H; by apply trace_grows in H|]. by intros [H|H].
    + exists (JsNumber x), w. split; [done|]. split; [done|]. split; [done|].
      split; [done|]. split; [by left|]. split; [|done]. intros _. by right.
  - destruct (undefined_or_not delayTime) as [->|Hdef].
    { left. exists (JsNumber (integer 0)), w. split; [done|]. split; [done|].
      split; [done|]. split; [done|]. split; [by left|]. split; [by left|done]. }
    destruct (Hother Hnum Hdef) as [Hrun Hchecks]. rewrite Hrun, Hchecks.
    unfold bind, template. destruct (toString delayTime) as [shown|] eqn:Hshown; simpl.
    + left. eexists _, _. split; [reflexivity|]. split; [done|]. split; [done|].
      split; [done|]. split; [right; by eexists|].
      split; [intros H; by apply trace_grows in H|]. by intros [H|H].
    + right. do 3 (split; [done|]). by eexists.
Qed.

(** X3. A symbol cannot be shown in a diagnostic: where the validation
    of an optional parameter or of the delay has to report a symbol, the
    template literal raises a TypeError, nothing is logged and no
    fallback is returned. *)
Theorem validation_of_symbol_raises (description type : string) (fallback : JsValue) w :
  type ≠ "symbol" ->
  (exists message,
      validateOptionalParam (JsSymbol description) type fallback w
      = (Throw (TypeError message), w))
  /\ (exists message,
        validateOnLoadDelay (JsSymbol description) w = (Throw (TypeError message), w))
  /\ exists message,
       isValidUpdateMatrix
         (JsArray [JsObject [("selector", JsSymbol description)]]) w
       = (Throw (TypeError message), w).
Proof.
  intros Htype. split; [|split].
  - unfold validateOptionalParam.
    replace (String.eqb (typeof (JsSymbol description)) type) with false.
    + by eexists.
    + symmetry. apply String.eqb_neq. simpl. congruence.
  - by eexists.
  - by eexists.
Qed.

(** ** [validation.js]: the diagnostics of [isValidUpdateMatrix] *)

Lemma rule_check_true (rule : JsValue) w :
  acceptableRule rule = true ->
  (requireObjectCoercible rule ;;;
   let selector := property rule "selector" in
   let updateHTML := property rule "updateHTML" in
   let updateAttrs := property rule "updateAttrs" in
   if negb (String.eqb (typeof selector) "string") then
     let! shown := template selector in
     consoleError (shown +:+ " is not a valid selector.") ;;;
     ret false
   else
     let nonBooleanUpdateHTML :=
       negb (String.eqb (typeof updateHTML) "undefined")
       && negb (String.eqb (typeof updateHTML) "boolean") in
     let nonBooleanUpdateAttrs :=
       negb (String.eqb (typeof updateAttrs) "undefined")
       && negb (String.eqb (typeof updateAttrs) "boolean") in
     if nonBooleanUpdateHTML || nonBooleanUpdateAttrs then
       let! shown := template selector in
       consoleError
         ("Non-boolean updateHTML or updateAttrs provided for selector "
            +:+ shown +:+ ".") ;;;
       ret false
     else ret true) w = (Normal true, w).
Proof.
  unfold acceptableRule, hasStringSelector, absentOrBoolean. intros H.
  apply andb_true_iff in H as [H Hattrs]. apply andb_true_iff in H as [Hsel Hhtml].
  assert (Hobj : nullish rule = false) by by destruct rule.
  unfold bind at 1, requireObjectCoercible. rewrite Hobj. cbv zeta. cbn [ret].
  destruct (property rule "selector"); try done.
  destruct (property rule "updateHTML"); try done;
    destruct (property rule "updateAttrs"); done.
Qed.

(** The diagnostic that a rule is rejected with. *)
Lemma rule_check_false (rule : JsValue) (shown : string) w :
  nullish rule = false ->
  toString (property rule "selector") = Some shown ->
  acceptableRule rule = false ->
  (requireObjectCoercible rule ;;;
   let selector := property rule "selector" in
   let updateHTML := property rule "updateHTML" in
   let updateAttrs := property rule "updateAttrs" in
   if negb (String.eqb (typeof selector) "string") then
     let! shown := template selector in
     consoleError (shown +:+ " is not a valid selector.") ;;;
     ret false
   else
     let nonBooleanUpdateHTML :=
       negb (String.eqb (typeof updateHTML) "undefined")
       && negb (String.eqb (typeof updateHTML) "boolean") in
     let nonBooleanUpdateAttrs :=
       negb (String.eqb (typeof updateAttrs) "undefined")
       && negb (String.eqb (typeof updateAttrs) "boolean") in
     if nonBooleanUpdateHTML || nonBooleanUpdateAttrs then
       let! shown := template selector in
       consoleError
         ("Non-boolean updateHTML or updateAttrs provided for selector "
            +:+ shown +:+ ".") ;;;
       ret false
     else ret true) w
  = (Normal false,
     set_trace
       (trace w
        ++ [ConsoleError
              (if hasStringSelector rule
               then "Non-boolean updateHTML or updateAttrs provided for selector "
                      +:+ shown +:+ "."
               else shown +:+ " is not a valid selector.")]) w).
Proof.
  intros Hobj Hshown.
  unfold acceptableRule, hasStringSelector, absentOrBoolean. intros H.
  unfold bind at 1, requireObjectCoercible. rewrite Hobj. cbv zeta. cbn [ret].
  destruct (property rule "selector") eqn:Hsel;
    try (cbn [typeof String.eqb negb Ascii.eqb Bool.eqb];
         unfold bind, template; rewrite Hshown; done).
  injection Hshown as <-.
  cbn [typeof String.eqb negb Ascii.eqb Bool.eqb]. cbn [andb] in H.
  destruct (property rule "updateHTML"); try done;
    destruct (property rule "updateAttrs"); done.
Qed.

Lemma every_passes {A : Type} (f : A -> Js bool) (items : list A) w :
  (forall x w0, x ∈ items -> f x w0 = (Normal true, w0)) ->
  every f items w = (Normal true, w).
Proof.
  induction items as [|x rest IH]; intros Hf; cbn [every]; [done|].
  unfold bind. rewrite Hf by left. apply IH. intros y w0 Hy. apply Hf. by right.
Qed.

Lemma every_stops {A : Type} (f : A -> Js bool) (good : list A) (bad : A)
    (rest : list A) w w' :
  (forall x w0, x ∈ good -> f x w0 = (Normal true, w0)) ->
  f bad w = (Normal false, w') ->
  every f (good ++ bad :: rest) w = (Normal false, w').
Proof.
  induction good as [|x good IH]; intros Hf Hbad; cbn [app every].
  - unfold bind. by rewrite Hbad.
  - unfold bind. rewrite Hf by left. apply IH; [|done].
    intros y w0 Hy. apply Hf. by right.
Qed.

(** X4. [isValidUpdateMatrix] rejects with exactly one diagnostic, about
    the first rule that is not acceptable: the rules before it are
    passed without a word, and the rules after it are not looked at
    (whatever they are, a [null] among them included).  A matrix that is
    not an array is rejected with one diagnostic as well, and the empty
    matrix is accepted. *)
Theorem isValidUpdateMatrix_reports_first_invalid
    (good : list JsValue) (bad : JsValue) (rest : list JsValue) (shown : string) w :
  forallb acceptableRule good = true ->
  nullish bad = false ->
  toString (property bad "selector") = Some shown ->
  acceptableRule bad = false ->
  isValidUpdateMatrix (JsArray (good ++ bad :: rest)) w
  = (Normal false,
     set_trace
       (trace w
        ++ [ConsoleError
              (if hasStringSelector bad
               then "Non-boolean updateHTML or updateAttrs provided for selector "
                      +:+ shown +:+ "."
               else shown +:+ " is not a valid selector.")]) w)
  /\ isValidUpdateMatrix (JsArray good) w = (Normal true, w)
  /\ isValidUpdateMatrix (JsArray []) w = (Normal true, w)
  /\ forall other,
       isArray other = false ->
       isValidUpdateMatrix other w
       = (Normal false,
          set_trace (trace w ++ [ConsoleError "updateMatrix is not an Array"]) w).
Proof.
  intros Hgood Hobj Hshown Hbad.
  assert (Hpass : forall rule w0, rule ∈ good ->
            (fun updateConfig : JsValue =>
               requireObjectCoercible updateConfig ;;;
               let selector := property updateConfig "selector" in
               let updateHTML := property updateConfig "updateHTML" in
               let updateAttrs := property updateConfig "updateAttrs" in
               if negb (String.eqb (typeof selector) "string") then
                 let! shown := template selector in
                 consoleError (shown +:+ " is not a valid selector.") ;;;
                 ret false
               else
                 let nonBooleanUpdateHTML :=
                   negb (String.eqb (typeof updateHTML) "undefined")
                   && negb (String.eqb (typeof updateHTML) "boolean") in
                 let nonBooleanUpdateAttrs :=
                   negb (String.eqb (typeof updateAttrs) "undefined")
                   && negb (String.eqb (typeof updateAttrs) "boolean") in
                 if nonBooleanUpdateHTML || nonBooleanUpdateAttrs then
                   let! shown := template selector in
                   consoleError
                     ("Non-boolean updateHTML or updateAttrs provided for selector "
                        +:+ shown +:+ ".") ;;;
                   ret false
                 else ret true) rule w0 = (Normal true, w0)).
  { intros rule w0 Hin. apply rule_check_true.
    rewrite forallb_forall in Hgood. apply Hgood. by apply list_elem_of_In. }
  split; [|split; [|split]].
  - unfold isValidUpdateMatrix.
    apply every_stops; [done|]. by apply rule_check_false.
  - unfold isValidUpdateMatrix. by apply every_passes.
  - done.
  - intros other Hother. by destruct other.
Qed.

(** ** [utils.js]: [replaceScript] *)

Lemma parentElementOf_child (parent : Path) (i : nat) :
  parent ≠ [] -> parentElementOf (parent ++ [i]) = Some parent.
Proof.
  intros Hp. unfold parentElementOf. rewrite rev_app_distr. simpl.
  destruct (rev parent) as [|j q] eqn:Hrev.
  - apply (f_equal (@rev nat)) in Hrev. rewrite rev_involutive in Hrev. done.
  - rewrite <- Hrev. by rewrite rev_involutive.
Qed.

Lemma nodeAt_child (parent : Path) (i : nat) :
  forall (nodes : list Node) (n : Node),
    nodeAt nodes parent = Some n ->
    nodeAt nodes (parent ++ [i]) = childrenOf n !! i.
Proof.
  induction parent as [|j q IH]; intros nodes n Hn; [done|].
  simpl in Hn |- *. destruct (nodes !! j) as [m|]; [|done].
  destruct q as [|k q'].
  - injection Hn as <-. simpl. by destruct (childrenOf m !! i).
  - simpl app. cbn [app] in IH. by apply IH.
Qed.

Lemma nodeAt_removeAt_child (parent : Path) (i : nat) :
  forall (nodes : list Node) (n child : Node),
    nodeAt nodes parent = Some n ->
    childrenOf n !! i = Some child ->
    nodeAt (removeAt nodes (parent ++ [i])) parent
    = Some (setChildren (delete i (childrenOf n)) n).
Proof.
  induction parent as [|j q IH]; intros nodes n child Hn Hchild; [done|].
  simpl in Hn. destruct (nodes !! j) as [m|] eqn:Hm; [|done].
  destruct q as [|k q'].
  - injection Hn as <-. simpl. rewrite Hm, Hchild. simpl.
    rewrite list_lookup_insert_eq by by eapply lookup_lt_Some. done.
  - cbn [app removeAt]. rewrite Hm. cbn [nodeAt].
    rewrite list_lookup_insert_eq by by eapply lookup_lt_Some.
    assert (Hm' : exists t a kids, m = Elem t a kids).
    { destruct m; [by eauto|]. simpl in Hn. by destruct k. }
    destruct Hm' as (t & a & kids & ->). simpl in Hn |- *.
    by apply (IH kids n child).
Qed.

Lemma elementAttributes_run (element : Path) (n : Node) w :
  nodeAt (document w) element = Some n ->
  elementAttributes element w = (Normal (attributesOf n), w).
Proof. intros Hn. unfold elementAttributes, bind, get. by rewrite Hn. Qed.

(** X5. [replaceScript] on an element that has a parent element: the
    element is taken out of its parent, and a new [script] element is
    appended as the last child of that parent.  The new element carries
    the attributes of the element it replaces (in their order) and the
    content of the reference element; tag and attributes of the parent
    stay as they are.  On the root element, which has no parent element,
    the call raises a TypeError when it reaches
    [parentElement.removeChild] and leaves the document as it was. *)
Theorem replaceScript_appends_new_script host (parent : Path) (i : nat)
    (referenceElement : Node) w
    (parentTag : string) (parentAttributes : list (string * string)) (kids : list Node)
    (tag : string) (attrs : list (string * string)) (content : list Node) :
  parent ≠ [] ->
  nodeAt (document w) parent = Some (Elem parentTag parentAttributes kids) ->
  kids !! i = Some (Elem tag attrs content) ->
  NoDup attrs.*1 ->
  (exists doc,
      replaceScript host (parent ++ [i]) referenceElement w
      = (Normal tt, set_document doc w)
      /\ nodeAt doc parent
         = Some (Elem parentTag parentAttributes
                   (delete i kids
                    ++ [Elem "script" attrs
                          (parseFragment host
                             (serialize host (childrenOf referenceElement)))])))
  /\ forall root : nat,
       exists message,
         replaceScript host [root] referenceElement w = (Throw (TypeError message), w).
Proof.
  intros Hparent Hp Hchild Hnodup. split.
  2:{ intros root. unfold replaceScript, parentElementOf. cbn [rev app].
      unfold bind, elementAttributes, get, ret, throw. by eexists. }
  assert (Hel : nodeAt (document w) (parent ++ [i]) = Some (Elem tag attrs content)).
  { by rewrite (nodeAt_child parent i _ _ Hp). }
  unfold replaceScript. rewrite (parentElementOf_child parent i Hparent).
  unfold bind at 1. rewrite (elementAttributes_run _ _ w Hel). cbn [attributesOf].
  set (new := if negb (length attrs =? 0) then _ else _).
  assert (Hnew : new = Elem "script" attrs
                         (parseFragment host (serialize host (childrenOf referenceElement)))).
  { subst new. unfold createElementWithHTML, innerHTML.
    destruct attrs as [|a rest] eqn:Ha; [done|]. rewrite <- Ha in *.
    cbn [negb].
    replace (length attrs =? 0) with false by (by rewrite Ha).
    cbn [negb].
    rewrite (fold_attributes (fun x acc => setAttribute x.1 x.2 acc) attrs).
    by rewrite (setAttribute_all attrs []). }
  rewrite Hnew. clear new Hnew.
  unfold bind, removeFromParent, appendChild, onElement, modify. cbn [fst snd].
  eexists. split; [reflexivity|].
  cbn [document set_document].
  erewrite nodeAt_updateAt;
    [|by apply (nodeAt_removeAt_child parent i _ _ _ Hp Hchild)].
  done.
Qed.

(** ** [Mercury.js]: [updateDOM] *)

Lemma set_document_twice (doc doc' : list Node) w :
  set_document doc' (set_document doc w) = set_document doc' w.
Proof. done. Qed.

Lemma forEach_onElement_run {A : Type} (g : A -> Node -> Node) (p : Path)
    (items : list A) :
  forall w, exists doc,
    forEach (fun x => onElement p (g x)) items w = (Normal tt, set_document doc w).
Proof.
  induction items as [|x rest IH]; intros w; simpl.
  - exists (document w). by rewrite set_document_same.
  - unfold bind, onElement at 1, modify.
    destruct (IH (set_document (updateAt (g x) (document w) p) w)) as (doc & Hrun).
    exists doc. by rewrite Hrun.
Qed.

Lemma replaceAttributes_run (element : Path) (reference : Node) w :
  exists doc, replaceAttributes element reference w = (Normal tt, set_document doc w).
Proof.
  unfold replaceAttributes, bind at 1, elementAttributes, bind at 1, get.
  cbn [ret]. unfold bind at 1.
  destruct (forEach_onElement_run
              (fun (x : string * string) n =>
                 setAttributes (removeAttribute x.1 (attributesOf n)) n)
              element
              (match nodeAt (document w) element with
               | Some n => attributesOf n
               | None => []
               end) w) as (doc1 & Hrun1).
  unfold elementRemoveAttribute. rewrite Hrun1.
  destruct (forEach_onElement_run
              (fun (x : string * string) n =>
                 setAttributes (setAttribute x.1 x.2 (attributesOf n)) n)
              element (attributesOf reference) (set_document doc1 w)) as (doc2 & Hrun2).
  unfold elementSetAttribute. rewrite Hrun2. by exists doc2.
Qed.

Lemma querySelectorIn_valid host (doc : list Node) sel w :
  selectorValid host sel = true ->
  querySelectorIn host doc sel w
  = (Normal (List.find (selects host sel doc) (elementPaths doc)), w).
Proof. intros Hv. unfold querySelectorIn. by rewrite Hv. Qed.

Lemma querySelectorIn_invalid host (doc : list Node) sel w :
  selectorValid host sel = false ->
  querySelectorIn host doc sel w = (Throw (SyntaxError "not a valid selector"), w).
Proof. intros Hv. unfold querySelectorIn. by rewrite Hv. Qed.

(** The cache can be consulted: it exists when caching is on. *)
Lemma patch_run host (newDoc : list Node) url (rule : UpdateConfig) w :
  selectorValid host (selector rule) = true ->
  (toBoolean (enableCache (this w)) = true -> is_Some (cache (this w))) ->
  exists doc, patch host newDoc url rule w = (Normal tt, set_document doc w).
Proof.
  intros Hv Hready. unfold patch, bind at 1, querySelector, bind at 1, get.
  rewrite (querySelectorIn_valid host _ _ w Hv).
  unfold bind at 1. rewrite (querySelectorIn_valid host _ _ w Hv).
  destruct (List.find _ (elementPaths (document w))) as [active|];
    [|exists (document w); by rewrite set_document_same].
  destruct (List.find _ (elementPaths newDoc) ≫= nodeAt newDoc) as [referenceElement|];
    [|by eexists].
  destruct (isSet (updateHTML rule)); cbn [when].
  - destruct (hasCached_run url (selector rule) w Hready) as [cached Hcached].
    unfold bind at 1, bind at 1. rewrite Hcached.
    unfold setInnerHTML, onElement, modify.
    destruct (isSet (updateAttrs rule)); cbn [when]; [|by eexists].
    match goal with
    | |- context [replaceAttributes _ _ ?w1] =>
        destruct (replaceAttributes_run active referenceElement w1) as (doc & ->)
    end.
    by exists doc.
  - unfold bind at 1, ret.
    destruct (isSet (updateAttrs rule)); cbn [when].
    + apply replaceAttributes_run.
    + exists (document w). by rewrite set_document_same.
Qed.

Lemma patch_invalid host (newDoc : list Node) url (rule : UpdateConfig) w :
  selectorValid host (selector rule) = false ->
  patch host newDoc url rule w = (Throw (SyntaxError "not a valid selector"), w).
Proof.
  intros Hv. unfold patch, bind at 1, querySelector, bind at 1, get.
  by rewrite (querySelectorIn_invalid host _ _ w Hv).
Qed.

Lemma forEach_patch_run host (newDoc : list Node) url (rules : list UpdateConfig) :
  Forall (fun rule => selectorValid host (selector rule) = true) rules ->
  forall w,
    (toBoolean (enableCache (this w)) = true -> is_Some (cache (this w))) ->
    exists doc, forEach (patch host newDoc url) rules w = (Normal tt, set_document doc w).
Proof.
  induction 1 as [|rule rules Hrule _ IH]; intros w Hready; cbn [forEach].
  - exists (document w). by rewrite set_document_same.
  - unfold bind.
    destruct (patch_run host newDoc url rule w Hrule Hready) as (doc1 & ->).
    destruct (IH (set_document doc1 w) Hready) as (doc & ->).
    by exists doc.
Qed.

Lemma forEach_stops {A : Type} (f : A -> Js unit) (good : list A) (bad : A)
    (rest : list A) (e : Exn) w w1 w2 :
  forEach f good w = (Normal tt, w1) ->
  f bad w1 = (Throw e, w2) ->
  forEach f (good ++ bad :: rest) w = (Throw e, w2).
Proof.
  revert w. induction good as [|x good IH]; intros w Hgood Hbad; cbn [app forEach] in *.
  - injection Hgood as <-. unfold bind. by rewrite Hbad.
  - unfold bind in Hgood |- *. destruct (f x w) as [[[]|e'] w'] eqn:Hx; [|done].
    by apply IH.
Qed.

Lemma updateDOM_run host url (responseText : string) w :
  Forall (fun rule => selectorValid host (selector rule) = true) (updateMatrix (this w)) ->
  (toBoolean (enableCache (this w)) = true -> is_Some (cache (this w))) ->
  exists doc,
    updateDOM host url responseText w
    = (Normal tt,
       set_trace (trace w ++ [ScrollTo 0 0]) (set_pageOffset (0, 0)%Z (set_document doc w))).
Proof.
  intros Hvalid Hready. unfold updateDOM, bind at 1, self. unfold bind at 1.
  destruct (forEach_patch_run host (parseFromString host responseText) url
              (updateMatrix (this w)) Hvalid w Hready) as (doc & ->).
  by exists doc.
Qed.

(** X6. [updateDOM] with an update matrix whose selectors the host
    accepts, on an instance whose cache exists when caching is on, always
    completes normally.  It changes the document and resets the scroll
    offset to the top with one [scrollTo(0, 0)]; the history, the
    requests, the timers, the listeners and the instance are as before. *)
Theorem updateDOM_completes host url (responseText : string) w :
  Forall (fun rule => selectorValid host (selector rule) = true) (updateMatrix (this w)) ->
  (toBoolean (enableCache (this w)) = true -> is_Some (cache (this w))) ->
  exists doc,
    updateDOM host url responseText w
    = (Normal tt,
       set_trace (trace w ++ [ScrollTo 0 0]) (set_pageOffset (0, 0)%Z (set_document doc w)))
    /\ forEach (patch host (parseFromString host responseText) url)
         (updateMatrix (this w)) w
       = (Normal tt, set_document doc w).
Proof.
  intros Hvalid Hready.
  destruct (forEach_patch_run host (parseFromString host responseText) url
              (updateMatrix (this w)) Hvalid w Hready) as (doc & Hrun).
  exists doc. split; [|done].
  unfold updateDOM, bind at 1, self. unfold bind at 1. by rewrite Hrun.
Qed.

(** X7. [updateDOM] stops at the first rule whose selector the host
    refuses: the SyntaxError of [querySelector] leaves the function, the
    rules before that rule have been applied to the document and stay
    applied, the rules after it are not applied, and the scroll offset is
    not reset. *)
Theorem updateDOM_stops_at_invalid_selector host url (responseText : string) w
    (good : list UpdateConfig) (bad : UpdateConfig) (rest : list UpdateConfig) :
  updateMatrix (this w) = good ++ bad :: rest ->
  Forall (fun rule => selectorValid host (selector rule) = true) good ->
  selectorValid host (selector bad) = false ->
  (toBoolean (enableCache (this w)) = true -> is_Some (cache (this w))) ->
  exists doc message,
    forEach (patch host (parseFromString host responseText) url) good w
    = (Normal tt, set_document doc w)
    /\ updateDOM host url responseText w
       = (Throw (SyntaxError message), set_document doc w).
Proof.
  intros Hmatrix Hgood Hbad Hready.
  destruct (forEach_patch_run host (parseFromString host responseText) url
              good Hgood w Hready) as (doc & Hrun).
  exists doc, "not a valid selector". split; [done|].
  unfold updateDOM, bind at 1, self. rewrite Hmatrix. unfold bind at 1.
  by rewrite (forEach_stops _ good bad rest _ w _ _ Hrun
                (patch_invalid host _ url bad (set_document doc w) Hbad)).
Qed.

(** X8. A rule whose selector finds no element in the live document
    changes nothing, whatever the response holds.  A rule whose selector
    finds a live element but none in the response takes the live element
    out of its parent: the other children keep their order, and tag and
    attributes of the parent stay. *)
Theorem patch_removes_unmatched_element host (newDoc : list Node) url
    (rule : UpdateConfig) w :
  ((querySelector host (selector rule) w).1 = Normal None ->
   patch host newDoc url rule w = (Normal tt, w))
  /\ forall (parent : Path) (i : nat) (parentNode : Node),
       (querySelector host (selector rule) w).1 = Normal (Some (parent ++ [i])) ->
       (querySelectorIn host newDoc (selector rule) w).1 = Normal None ->
       nodeAt (document w) parent = Some parentNode ->
       patch host newDoc url rule w
       = (Normal tt, set_document (removeAt (document w) (parent ++ [i])) w)
       /\ nodeAt (removeAt (document w) (parent ++ [i])) parent
          = Some (setChildren (delete i (childrenOf parentNode)) parentNode).
Proof.
  split.
  - intros Hlive.
    assert (Hv : selectorValid host (selector rule) = true).
    { unfold querySelector, bind, get, querySelectorIn in Hlive.
      by destruct (selectorValid host (selector rule)). }
    apply querySelector_run in Hlive.
    unfold patch, bind at 1. rewrite Hlive. unfold bind at 1.
    by rewrite (querySelectorIn_valid host _ _ w Hv).
  - intros parent i parentNode Hlive Href Hparent.
    destruct (querySelectorIn_element host (document w) (selector rule) w _ Hlive)
      as (_ & _ & tag & a & k & Hnode).
    apply querySelector_run in Hlive. apply querySelectorIn_run in Href.
    split.
    + unfold patch, bind at 1. rewrite Hlive. unfold bind at 1. by rewrite Href.
    + rewrite (nodeAt_child parent i _ _ Hparent) in Hnode.
      by apply (nodeAt_removeAt_child parent i _ _ _ Hparent Hnode).
Qed.

(** X9. A rule without [updateAttrs] never touches the attributes of the
    element it patches: with [updateHTML] set the content of the live
    element becomes the parsed markup (the cached markup when there is
    some, the markup of the reference element otherwise) and tag and
    attributes stay; with neither flag set the rule changes nothing at
    all, although both elements were found. *)
Theorem patch_without_updateAttrs host (newDoc : list Node) url (rule : UpdateConfig) w
    (active reference : Path) (referenceElement : Node) :
  isSet (updateAttrs rule) = false ->
  (querySelector host (selector rule) w).1 = Normal (Some active) ->
  (querySelectorIn host newDoc (selector rule) w).1 = Normal (Some reference) ->
  nodeAt newDoc reference = Some referenceElement ->
  (toBoolean (enableCache (this w)) = true -> is_Some (cache (this w))) ->
  (isSet (updateHTML rule) = false -> patch host newDoc url rule w = (Normal tt, w))
  /\ (isSet (updateHTML rule) = true ->
      exists cached tag attrs oldChildren doc,
        hasCached url (selector rule) w = (Normal cached, w)
        /\ nodeAt (document w) active = Some (Elem tag attrs oldChildren)
        /\ patch host newDoc url rule w = (Normal tt, set_document doc w)
        /\ nodeAt doc active
           = Some (Elem tag attrs
                     (parseFragment host
                        (default (serialize host (childrenOf referenceElement)) cached)))).
Proof.
  intros Hattrs Hactive Href Hnode Hready.
  destruct (querySelectorIn_element host (document w) (selector rule) w active Hactive)
    as (_ & _ & tag & a & k & Hlive).
  apply querySelector_run in Hactive. apply querySelectorIn_run in Href.
  assert (Hpatch : patch host newDoc url rule w
                   = (when (isSet (updateHTML rule))
                        (let! cached := hasCached url (selector rule) in
                         let newHTML := default (innerHTML host referenceElement) cached in
                         setInnerHTML host active newHTML) ;;;
                      when (isSet (updateAttrs rule))
                        (replaceAttributes active referenceElement)) w).
  { unfold patch, bind at 1. rewrite Hactive. unfold bind at 1. rewrite Href.
    cbn [mbind option_bind]. by rewrite Hnode. }
  rewrite Hpatch, Hattrs. clear Hpatch. split; intros Hhtml; rewrite Hhtml; cbn [when].
  - done.
  - destruct (hasCached_run url (selector rule) w Hready) as [cached Hcached].
    exists cached, tag, a, k. eexists. split; [done|]. split; [done|].
    unfold bind at 1, bind at 1. rewrite Hcached.
    unfold setInnerHTML, onElement, modify, bind, ret. cbn [fst snd].
    split; [reflexivity|]. by rewrite (nodeAt_updateAt _ _ _ _ Hlive).
Qed.

(** ** [Mercury.js]: the cache *)

Lemma replaceAttributes_children (element : Path) (reference : Node) w
    (t : string) (a : list (string * string)) (k : list Node) :
  nodeAt (document w) element = Some (Elem t a k) ->
  exists doc a',
    replaceAttributes element reference w = (Normal tt, set_document doc w)
    /\ nodeAt doc element = Some (Elem t a' k).
Proof.
  intros Hn. unfold replaceAttributes, bind at 1, elementAttributes, bind at 1, get.
  rewrite Hn. cbn [ret attributesOf]. unfold bind at 1.
  destruct (forEach_onElement
              (fun (x : string * string) n =>
                 setAttributes (removeAttribute x.1 (attributesOf n)) n)
              element a w _ Hn) as (doc1 & Hrun1 & Hdoc1).
  unfold elementRemoveAttribute. rewrite Hrun1.
  rewrite (fold_attributes (fun x => removeAttribute x.1)) in Hdoc1.
  destruct (forEach_onElement
              (fun (x : string * string) n =>
                 setAttributes (setAttribute x.1 x.2 (attributesOf n)) n)
              element (attributesOf reference) (set_document doc1 w) _ Hdoc1)
    as (doc2 & Hrun2 & Hdoc2).
  unfold elementSetAttribute. rewrite Hrun2.
  rewrite (fold_attributes (fun x => setAttribute x.1 x.2)) in Hdoc2.
  by eexists doc2, _.
Qed.

(** X10. The cache round trip for markup that is not empty, under a URL
    and a selector that are not names of inherited properties.  When
    [commitCacheEntry(url, selector)] has captured the markup of the live
    element, a later patch for that URL by a rule with that selector and
    [updateHTML] set, for as long as the cache is the one that the commit
    left, depends on the response in one respect only.  When the
    response holds an element for the selector, the live element gets
    the captured markup, whatever markup that element holds.  When the
    response holds no element for the selector, the live element is taken
    out of the document and the captured markup is not used. *)
Theorem cache_round_trip host w url sel
    (entries : gmap string (gmap string string)) (element : Path) (n : Node) :
  plainKey url = true -> plainKey sel = true ->
  toBoolean (enableCache (this w)) = true ->
  cache (this w) = Some entries ->
  url ≠ "" -> sel ≠ "" ->
  (querySelector host sel w).1 = Normal (Some element) ->
  nodeAt (document w) element = Some n ->
  serialize host (childrenOf n) ≠ "" ->
  exists w1,
    commitCacheEntry host url sel w = (Normal tt, w1)
    /\ document w1 = document w
    /\ forall w2 (newDoc : list Node) (rule : UpdateConfig) (active : Path),
         toBoolean (enableCache (this w2)) = true ->
         cache (this w2) = cache (this w1) ->
         selector rule = sel ->
         isSet (updateHTML rule) = true ->
         (querySelector host sel w2).1 = Normal (Some active) ->
         (forall (reference : Path) (referenceElement : Node),
            (querySelectorIn host newDoc sel w2).1 = Normal (Some reference) ->
            nodeAt newDoc reference = Some referenceElement ->
            exists w3,
              patch host newDoc url rule w2 = (Normal tt, w3)
              /\ childrenOf <$> nodeAt (document w3) active
                 = Some (parseFragment host (serialize host (childrenOf n))))
         /\ ((querySelectorIn host newDoc sel w2).1 = Normal None ->
             patch host newDoc url rule w2
             = (Normal tt, set_document (removeAt (document w2) active) w2)).
Proof.
  intros _ _ Henabled Hcache Hurl Hsel Hquery Hnode Hmarkup.
  destruct (commitCacheEntry_stores host w url sel entries element n
              Henabled Hcache Hurl Hsel Hquery Hnode) as (stored & Hrun & Hstored).
  eexists. split; [exact Hrun|]. split; [done|].
  intros w2 newDoc rule active Henabled2 Hcache2 Hrule Hhtml Hactive.
  split.
  2:{ intros Href. apply querySelector_run in Hactive. apply querySelectorIn_run in Href.
      unfold patch. rewrite Hrule. unfold bind at 1. rewrite Hactive.
      unfold bind at 1. by rewrite Href. }
  intros reference referenceElement Href Hrefnode.
  cbn [this set_this cache with_cache] in Hcache2.
  pose proof (hasCached_lookup url sel w2 stored _ Henabled2 Hcache2 Hstored) as Hcached.
  unfold innerHTML in Hcached.
  destruct (String.eqb_spec (serialize host (childrenOf n)) "") as [|_]; [done|].
  destruct (querySelectorIn_element host (document w2) sel w2 active Hactive)
    as (_ & _ & tag & a & k & Hlive).
  apply querySelector_run in Hactive. apply querySelectorIn_run in Href.
  unfold patch. rewrite Hrule. unfold bind at 1. rewrite Hactive.
  unfold bind at 1. rewrite Href. cbn [mbind option_bind]. rewrite Hrefnode, Hhtml.
  cbn [when]. unfold bind at 1, bind at 1. rewrite Hcached.
  cbn [default from_option]. unfold setInnerHTML, onElement, modify.
  set (w3 := set_document _ w2).
  assert (Hlive3 : nodeAt (document w3) active
                   = Some (Elem tag a (parseFragment host (serialize host (childrenOf n))))).
  { subst w3. simpl. by rewrite (nodeAt_updateAt _ _ _ _ Hlive). }
  destruct (isSet (updateAttrs rule)); cbn [when].
  - destruct (replaceAttributes_children active referenceElement w3 _ _ _ Hlive3)
      as (doc & a' & Hrepl & Hdoc).
    rewrite Hrepl. eexists. split; [reflexivity|]. simpl. by rewrite Hdoc.
  - eexists. split; [reflexivity|]. by rewrite Hlive3.
Qed.

(** X11. [commitCacheEntry] writes one entry of the cache and reads
    nothing else, as long as URLs and selectors are not names of
    inherited properties: after a commit for such a URL and selector,
    the entry for that pair holds the markup of the live element
    (whatever was stored there before), and the entry for every other
    such pair of URL and selector is what it was.  The document is not
    changed. *)
Theorem commitCacheEntry_writes_one_entry host w url sel
    (entries : gmap string (gmap string string)) (element : Path) (n : Node) :
  plainKey url = true -> plainKey sel = true ->
  toBoolean (enableCache (this w)) = true ->
  cache (this w) = Some entries ->
  url ≠ "" -> sel ≠ "" ->
  (querySelector host sel w).1 = Normal (Some element) ->
  nodeAt (document w) element = Some n ->
  exists stored,
    commitCacheEntry host url sel w
    = (Normal tt, set_this (with_cache (Some stored) (this w)) w)
    /\ stored !! url ≫= (.!! sel) = Some (serialize host (childrenOf n))
    /\ forall url' sel',
         plainKey url' = true -> plainKey sel' = true ->
         (url', sel') ≠ (url, sel) ->
         stored !! url' ≫= (.!! sel') = entries !! url' ≫= (.!! sel').
Proof.
  intros _ _ Henabled Hcache Hurl Hsel Hquery Hnode.
  unfold commitCacheEntry, bind at 1, self. rewrite Henabled, Hcache.
  destruct (String.eqb_spec url "") as [|_]; [done|].
  destruct (String.eqb_spec sel "") as [|_]; [done|].
  cbn [negb orb]. unfold bind at 1, assign, modify.
  set (w1 := set_this _ w).
  assert (Hquery1 : querySelector host sel w1 = (Normal (Some element), w1)).
  { apply querySelector_run. by rewrite (querySelector_document host sel w w1). }
  unfold bind at 1. rewrite Hquery1. unfold bind, get. simpl. rewrite Hnode.
  eexists. split; [reflexivity|]. split.
  { rewrite lookup_insert_eq. simpl. by rewrite lookup_insert_eq. }
  intros url' sel' _ _ Hother.
  destruct (decide (url' = url)) as [->|Hu].
  - rewrite lookup_insert_eq. simpl.
    assert (Hs : sel ≠ sel') by congruence.
    rewrite lookup_insert_ne by done.
    destruct (entries !! url) as [forUrl|]; [done|]. simpl. by rewrite lookup_empty.
  - by rewrite lookup_insert_ne.
Qed.

(** ** [Mercury.js]: [onClick] and [onPopState] *)

Lemma climb_drop (doc : list Node) (body : option Path) (reversed : list nat) :
  match climb doc body reversed with
  | Some q =>
      exists k, k < length reversed
                /\ q = rev (drop k reversed)
                /\ isBodyOrLink doc body q = true
                /\ forall j, j < k -> isBodyOrLink doc body (rev (drop j reversed)) = false
  | None =>
      forall j, j < length reversed ->
                isBodyOrLink doc body (rev (drop j reversed)) = false
  end.
Proof.
  induction reversed as [|x parent IH]; [intros j Hj; simpl in Hj; lia|].
  cbn [climb]. fold (isBodyOrLink doc body (rev (x :: parent))).
  destruct (isBodyOrLink doc body (rev (x :: parent))) eqn:Hstop.
  - exists 0. simpl. repeat split; try done; [lia|]. intros j Hj. lia.
  - destruct (climb doc body parent) as [q|].
    + destruct IH as (k & Hk & Hq & Hs & Hnear).
      exists (S k). simpl. repeat split; try done; [lia|].
      intros [|j] Hj; [done|]. apply Hnear. lia.
    + intros [|j] Hj; [done|]. simpl in Hj |- *. apply IH. lia.
Qed.

Lemma rev_drop_rev (p : Path) (k : nat) :
  rev (drop k (rev p)) = take (length p - k) p.
Proof. by rewrite skipn_rev, rev_involutive. Qed.

(** X12. The element that [onClick] settles on is the nearest one, from
    the click target upwards, that is [document.body] or an [A] element:
    it is the target or one of its ancestors, no element between it and
    the target is the body or a link, and when the walk finds nothing no
    ancestor of the target up to the root is the body or a link. *)
Theorem climb_finds_nearest (doc : list Node) (body : option Path) (p : Path) :
  (forall q, climb doc body (rev p) = Some q ->
     exists n, 0 < n <= length p
               /\ q = take n p
               /\ isBodyOrLink doc body q = true
               /\ forall m, n < m <= length p ->
                            isBodyOrLink doc body (take m p) = false)
  /\ (climb doc body (rev p) = None ->
      forall m, 0 < m <= length p -> isBodyOrLink doc body (take m p) = false).
Proof.
  pose proof (climb_drop doc body (rev p)) as H.
  rewrite length_rev in H. split.
  - intros q Hq. rewrite Hq in H. destruct H as (k & Hk & -> & Hs & Hnear).
    rewrite rev_drop_rev in Hs |- *.
    exists (length p - k). split; [lia|]. split; [done|]. split; [done|].
    intros m Hm. specialize (Hnear (length p - m) ltac:(lia)).
    rewrite rev_drop_rev in Hnear.
    by replace (length p - (length p - m)) with m in Hnear by lia.
  - intros Hnone. rewrite Hnone in H. intros m Hm.
    specialize (H (length p - m) ltac:(lia)). rewrite rev_drop_rev in H.
    by replace (length p - (length p - m)) with m in H by lia.
Qed.

(** *** What [abort] does to a request in flight *)

Lemma settle_twice (rs rs' : ReadyState) (st st' : Z) (body body' : string)
    (xhr : nat) (l : list Request) :
  alter (settle rs' st' body') xhr (alter (settle rs st body) xhr l)
  = alter (settle rs' st' body') xhr l.
Proof.
  rewrite list_alter_alter_eq. apply list_eq. intros i.
  destruct (decide (i = xhr)) as [->|Hne].
  - rewrite !list_lookup_alter_eq. by destruct (l !! xhr).
  - by rewrite !list_lookup_alter_ne.
Qed.

Lemma abort_in_flight host xhr w (request : Request) :
  requests w !! xhr = Some request ->
  inFlight request = true ->
  abort host xhr w
  = (Normal tt,
     set_requests (alter (settle UNSENT 0 "") xhr (requests w))
       (set_trace
          (trace w ++ XhrAbort xhr
             :: (if errorStepsNotify host then [LocationAssign (req_url request)] else []))
          w)).
Proof.
  intros Hreq Hfl.
  unfold abort, bind at 1, emit, modify. unfold bind at 1, get. cbn [requests set_trace].
  rewrite Hreq, Hfl. unfold bind at 1, updateRequest, modify.
  set (w1 := set_requests _ _).
  assert (Hl : requests w1 !! xhr = Some (settle DONE 0 "" request)).
  { subst w1. simpl. by rewrite list_lookup_alter_eq, Hreq. }
  destruct (errorStepsNotify host); cbn [when].
  - unfold bind at 1.
    rewrite (listener_normal _ w1 (set_trace (trace w1 ++ [LocationAssign (req_url request)]) w1)).
    + subst w1. cbn. rewrite settle_twice. by rewrite <- app_assoc.
    + by rewrite (onreadystatechange_failed _ _ _ _ Hl).
  - unfold bind at 1, ret. subst w1. cbn. by rewrite settle_twice.
Qed.

Lemma abort_shape host xhr w :
  exists more reqs,
    abort host xhr w
    = (Normal tt, set_requests reqs (set_trace (trace w ++ more) w))
    /\ length reqs = length (requests w).
Proof.
  destruct (requests w !! xhr) as [request|] eqn:Hreq.
  - destruct (inFlight request) eqn:Hfl.
    + rewrite (abort_in_flight host xhr w request Hreq Hfl).
      eexists _, _. split; [reflexivity|]. by rewrite length_alter.
    + unfold abort, bind at 1, emit, modify. unfold bind at 1, get.
      cbn [requests set_trace]. rewrite Hreq, Hfl.
      destruct (readyState request).
      all: try (exists [XhrAbort xhr], (requests w); split; [|done];
                cbn; by destruct w).
      exists [XhrAbort xhr]. eexists. split; [reflexivity|].
      cbn. by rewrite length_alter.
  - unfold abort, bind at 1, emit, modify. unfold bind at 1, get.
    cbn [requests set_trace]. rewrite Hreq.
    exists [XhrAbort xhr], (requests w). split; [|done]. cbn. by destruct w.
Qed.

(** The two statements with which [onClick] and [onPopState] give up the
    navigation before: they touch the requests, the timers and the
    trace, and nothing else. *)
Lemma supersede_shape host w :
  exists more reqs tm,
    (match XHR (this w) with
     | Some xhr =>
         abort host xhr ;;;
         let! me := self in
         clearTimeout (onLoadDelayTimeout me)
     | None => ret tt
     end) w
    = (Normal tt, set_timers tm (set_requests reqs (set_trace (trace w ++ more) w)))
    /\ length reqs = length (requests w).
Proof.
  destruct (XHR (this w)) as [xhr|].
  - destruct (abort_shape host xhr w) as (more & reqs & Hrun & Hlen).
    unfold bind at 1. rewrite Hrun. unfold bind, self. cbn [this set_requests set_trace].
    destruct (onLoadDelayTimeout (this w)) as [id|]; cbn [clearTimeout modify ret].
    + by eexists more, reqs, _.
    + exists more, reqs, (timers w). split; [|done]. by destruct w.
  - exists [], (requests w), (timers w). split; [|done].
    rewrite app_nil_r. by destruct w.
Qed.

Lemma makeRequest_run url (isPopState : bool) (callback : option StateObject) w :
  makeRequest url isPopState callback w
  = (Normal tt, (makeRequest url isPopState callback w).2).
Proof.
  unfold makeRequest, bind, self, when, emit, modify, get,
    replaceHistoryStateWithScrollPosition, assign.
  by destruct (toBoolean (onNavigate (this w))).
Qed.

(** X13. [onClick] leaves a click alone, so that the browser handles it
    as usual, in four cases: a modifier key is down; the walk up from the
    click target finds neither a link nor the body; the walk stops at the
    body; the link matches the selector of the click exceptions.  In
    each case the handler returns without any effect: [preventDefault] is
    not called, no request is aborted or issued, the history is not
    written. *)
Theorem onClick_leaves_alone host (e : ClickEvent) w :
  isKeyModified e = true
  \/ climb (document w) (bodyOf (document w)) (rev (target e)) = None
  \/ (exists element,
        climb (document w) (bodyOf (document w)) (rev (target e)) = Some element
        /\ (Some element = bodyOf (document w)
            \/ (selectorValid host (onClickExceptionSelector (this w)) = true
                /\ selects host (onClickExceptionSelector (this w)) (document w) element
                   = true))) ->
  onClick host e w = (Normal tt, w).
Proof.
  intros H. unfold onClick.
  destruct (isKeyModified e); [done|].
  destruct H as [H|[H|(element & Hclimb & H)]]; [done| |].
  - unfold bind, get. by rewrite H.
  - unfold bind at 1. unfold get at 1. cbv beta iota. rewrite Hclimb.
    destruct (bool_decide_reflect (Some element = bodyOf (document w))) as [|Hnb]; [done|].
    destruct H as [H|[Hvalid Hsel]]; [done|].
    unfold bind at 1. unfold self at 1. cbv beta iota.
    unfold bind at 1, elementMatches. unfold bind at 1. unfold get at 1. cbv beta iota.
    by rewrite Hvalid, Hsel.
Qed.

(** X14. A click on a link that is not excepted: [onClick] calls
    [preventDefault], gives up the navigation before, rewrites the
    current history entry with the scroll offset, and issues one request
    for the [href] of the link, remembered in [this.XHR], with the
    timeout of the instance, marked as not coming from a popstate and
    without callback.  The document is not touched. *)
Theorem onClick_requests_href host (e : ClickEvent) w (element : Path) :
  isKeyModified e = false ->
  climb (document w) (bodyOf (document w)) (rev (target e)) = Some element ->
  Some element ≠ bodyOf (document w) ->
  selectorValid host (onClickExceptionSelector (this w)) = true ->
  selects host (onClickExceptionSelector (this w)) (document w) element = false ->
  exists w' reqs between,
    onClick host e w = (Normal tt, w')
    /\ document w' = document w
    /\ history w' = rewritten w
    /\ length reqs = length (requests w)
    /\ requests w'
       = reqs ++ [ {| req_url := hrefOf (document w) element; req_isPopState := false;
                      req_callback := None; req_timeout := timeout (this w);
                      readyState := OPENED; status := 0; responseText := "" |} ]
    /\ XHR (this w') = Some (length (requests w))
    /\ trace w'
       = trace w ++ PreventDefault
           :: between ++ [XhrSend (length (requests w)) (hrefOf (document w) element)].
Proof.
  intros Hkey Hclimb Hnb Hvalid Hsel. unfold onClick. rewrite Hkey.
  unfold bind at 1. unfold get at 1. cbv beta iota. rewrite Hclimb.
  rewrite bool_decide_false by done.
  unfold bind at 1. unfold self at 1. cbv beta iota.
  unfold bind at 1, elementMatches. unfold bind at 1. unfold get at 1. cbv beta iota.
  rewrite Hvalid. cbn [ret]. rewrite Hsel.
  unfold bind at 1, emit, modify.
  set (w0 := set_trace _ w). unfold bind at 1. unfold self at 1. cbv beta iota.
  destruct (supersede_shape host w0) as (more & reqs & tm & Hrun & Hlen).
  unfold bind at 1. rewrite Hrun. unfold bind at 1. unfold get at 1. cbv beta iota.
  set (w1 := set_timers _ _).
  rewrite makeRequest_run.
  destruct (makeRequest_rewrites_current_entry (hrefOf (document w1) element) false None w1)
    as (Hh & Htr & Hreqs & Hxhr & _).
  pose proof (preserves_makeRequest document (hrefOf (document w1) element) false None
                ltac:(auto with frame) ltac:(auto with frame) ltac:(auto with frame)
                ltac:(auto with frame) w1) as Hdoc.
  eexists _, reqs,
    (more
     ++ (if toBoolean (onNavigate (this w)) then [CallBack (onNavigate (this w))] else [])
     ++ [HistoryReplaceState
           {| so_url := entry_url (current (history w));
              so_scroll := Some (pageOffset w) |}
           (entry_url (current (history w)))]).
  split; [reflexivity|].
  split; [exact Hdoc|].
  split; [exact Hh|]. split; [exact Hlen|]. split; [exact Hreqs|].
  split; [rewrite Hxhr; subst w1; cbn [requests set_timers set_requests]; by rewrite Hlen|].
  rewrite Htr. subst w1 w0. cbn. rewrite Hlen. cbn.
  rewrite <- !app_assoc. reflexivity.
Qed.

(** X15. The selectors in [onClickExceptions] are not checked when the
    instance is built.  When the joined selector is one that the host
    refuses, [target.matches] raises a SyntaxError on every click on a
    link, before [preventDefault] is reached: the handler has no effect,
    the exception reaches the event loop, and the browser follows the
    link as usual. *)
Theorem onClick_invalid_exception_selector host (e : ClickEvent) w (element : Path) :
  isKeyModified e = false ->
  climb (document w) (bodyOf (document w)) (rev (target e)) = Some element ->
  Some element ≠ bodyOf (document w) ->
  selectorValid host (onClickExceptionSelector (this w)) = false ->
  exists message,
    onClick host e w = (Throw (SyntaxError message), w)
    /\ step host (Click e) w
       = set_trace (trace w ++ [UncaughtException (SyntaxError message)]) w.
Proof.
  intros Hkey Hclimb Hnb Hvalid.
  assert (Hrun : onClick host e w = (Throw (SyntaxError "not a valid selector"), w)).
  { unfold onClick. rewrite Hkey.
    unfold bind at 1. unfold get at 1. cbv beta iota. rewrite Hclimb.
    rewrite bool_decide_false by done.
    unfold bind at 1. unfold self at 1. cbv beta iota.
    unfold bind at 1, elementMatches. unfold bind at 1. unfold get at 1. cbv beta iota.
    by rewrite Hvalid. }
  eexists. split; [exact Hrun|].
  unfold step, deliver, listener, tryCatch. by rewrite Hrun.
Qed.

(** X16. [onPopState] does nothing for an entry without state (one that
    the engine did not write).  For an entry with a state it gives up the
    navigation before, rewrites the entry that is current, and issues
    one request for the URL of the state, marked as coming from a
    popstate, whose callback restores the scroll offset of the state.
    The document is not touched. *)
Theorem onPopState_replays_entry host w :
  onPopState host None w = (Normal tt, w)
  /\ forall state : StateObject,
       exists w' reqs between,
         onPopState host (Some state) w = (Normal tt, w')
         /\ document w' = document w
         /\ history w' = rewritten w
         /\ length reqs = length (requests w)
         /\ requests w'
            = reqs ++ [ {| req_url := so_url state; req_isPopState := true;
                           req_callback := Some state; req_timeout := timeout (this w);
                           readyState := OPENED; status := 0; responseText := "" |} ]
         /\ XHR (this w') = Some (length (requests w))
         /\ trace w' = trace w ++ between ++ [XhrSend (length (requests w)) (so_url state)].
Proof.
  split; [done|]. intros state. unfold onPopState.
  unfold bind at 1. unfold self at 1. cbv beta iota.
  destruct (supersede_shape host w) as (more & reqs & tm & Hrun & Hlen).
  unfold bind at 1. rewrite Hrun.
  set (w1 := set_timers _ _).
  rewrite makeRequest_run.
  destruct (makeRequest_rewrites_current_entry (so_url state) true (Some state) w1)
    as (Hh & Htr & Hreqs & Hxhr & _).
  pose proof (preserves_makeRequest document (so_url state) true (Some state)
                ltac:(auto with frame) ltac:(auto with frame) ltac:(auto with frame)
                ltac:(auto with frame) w1) as Hdoc.
  eexists _, reqs,
    (more
     ++ (if toBoolean (onNavigate (this w)) then [CallBack (onNavigate (this w))] else [])
     ++ [HistoryReplaceState
           {| so_url := entry_url (current (history w));
              so_scroll := Some (pageOffset w) |}
           (entry_url (current (history w)))]).
  split; [reflexivity|].
  split; [exact Hdoc|].
  split; [exact Hh|]. split; [exact Hlen|]. split; [exact Hreqs|].
  split; [rewrite Hxhr; subst w1; cbn [requests set_timers set_requests]; by rewrite Hlen|].
  rewrite Htr. subst w1. cbn. rewrite Hlen. cbn.
  rewrite <- !app_assoc. reflexivity.
Qed.

(** X17. Giving up a request that is in flight, on a host whose [abort]
    runs the request error steps of the XMLHttpRequest standard: the
    [readystatechange] handler of the request being given up runs inside
    [abort], sees a completed request whose status is not 200, and
    assigns [window.location] the URL of that request.  So a popstate
    that supersedes a pending navigation asks for a full navigation to
    the superseded URL first, and issues its own request after that; on a
    host without that event, nothing is assigned. *)
Theorem onPopState_supersedes_pending_request host (state : StateObject) w
    (xhr : nat) (request : Request) :
  XHR (this w) = Some xhr ->
  requests w !! xhr = Some request ->
  inFlight request = true ->
  exists rest,
    trace (onPopState host (Some state) w).2
    = trace w
      ++ XhrAbort xhr
         :: (if errorStepsNotify host then [LocationAssign (req_url request)] else [])
      ++ rest ++ [XhrSend (length (requests w)) (so_url state)]
    /\ Forall (fun effect => forall u, effect ≠ LocationAssign u) rest.
Proof.
  intros Hxhr Hreq Hfl. unfold onPopState.
  unfold bind at 1. unfold self at 1. cbv beta iota. rewrite Hxhr.
  unfold bind at 1, bind at 1. rewrite (abort_in_flight host xhr w request Hreq Hfl).
  unfold bind at 1, self. cbn [fst snd].
  set (w0 := set_requests _ _).
  assert (Hclear : exists tm, clearTimeout (onLoadDelayTimeout (this w0)) w0
                              = (Normal tt, set_timers tm w0)).
  { destruct (onLoadDelayTimeout (this w0)); [by eexists|].
    exists (timers w0). by destruct w0. }
  destruct Hclear as (tm & ->).
  set (w1 := set_timers tm w0).
  destruct (makeRequest_rewrites_current_entry (so_url state) true (Some state) w1)
    as (_ & Htr & _).
  rewrite Htr.
  exists ((if toBoolean (onNavigate (this w)) then [CallBack (onNavigate (this w))] else [])
          ++ [HistoryReplaceState
                {| so_url := entry_url (current (history w));
                   so_scroll := Some (pageOffset w) |}
                (entry_url (current (history w)))]).
  split.
  - subst w1 w0. cbn. rewrite length_alter.
    destruct (errorStepsNotify host); cbn; rewrite <- !app_assoc; reflexivity.
  - apply Forall_app. split.
    + destruct (toBoolean (onNavigate (this w))); repeat constructor; done.
    + repeat constructor; done.
Qed.

(** ** [Mercury.js]: a response that arrives *)

Lemma restoreScroll_run (state : StateObject) w :
  restoreScroll state w
  = (Normal tt,
     set_trace (trace w ++ callbackEffects (Some state))
       (set_pageOffset (finalOffset (Some state)) w)).
Proof.
  unfold restoreScroll, callbackEffects, finalOffset.
  by destruct (so_scroll state) as [[x y]|].
Qed.

Lemma modifyPageAndHistory_run host url (isPopState : bool)
    (callback : option StateObject) (responseText : string) w (loadType : string) :
  Forall (fun rule => selectorValid host (selector rule) = true) (updateMatrix (this w)) ->
  (toBoolean (enableCache (this w)) = true -> is_Some (cache (this w))) ->
  loadEvent (this w) = Some loadType ->
  exists doc,
    modifyPageAndHistory host url isPopState callback responseText w
    = (Normal tt,
       set_trace (trace w ++ applyEffects url isPopState callback loadType)
         (set_pageOffset (finalOffset callback)
            (set_document doc
               (set_history (appliedHistory url isPopState (history w)) w)))).
Proof.
  intros Hvalid Hready Hload. unfold modifyPageAndHistory, bind at 1.
  set (w1 := set_trace
               (trace w ++ (if isPopState then []
                            else [HistoryPushState {| so_url := url; so_scroll := None |} url]))
               (set_history (appliedHistory url isPopState (history w)) w)).
  match goal with
  | |- context [when (negb isPopState) ?body w] =>
      assert (Hpush : when (negb isPopState) body w = (Normal tt, w1))
  end.
  { subst w1. destruct isPopState; cbn; [|done]. rewrite app_nil_r. by destruct w. }
  rewrite Hpush.
  destruct (updateDOM_run host url responseText w1 Hvalid Hready) as (doc & Hdom).
  unfold bind at 1. rewrite Hdom. exists doc.
  unfold bind at 1.
  assert (Hcallback :
            match callback with
            | Some state => restoreScroll state
            | None => ret tt
            end (set_trace (trace w1 ++ [ScrollTo 0 0])
                   (set_pageOffset (0, 0)%Z (set_document doc w1)))
            = (Normal tt,
               set_trace (trace w1 ++ [ScrollTo 0 0] ++ callbackEffects callback)
                 (set_pageOffset (finalOffset callback) (set_document doc w1)))).
  { destruct callback as [state|].
    - rewrite restoreScroll_run. f_equal. world_eq. by rewrite <- app_assoc.
    - cbn [ret callbackEffects finalOffset]. f_equal; world_eq. }
  rewrite Hcallback. unfold bind, self.
  replace (loadEvent (this (set_trace (trace w1 ++ [ScrollTo 0 0] ++ callbackEffects callback)
                              (set_pageOffset (finalOffset callback) (set_document doc w1)))))
    with (Some loadType) by (by rewrite <- Hload).
  unfold dispatchEvent, emit, modify. f_equal. subst w1. world_eq.
  unfold applyEffects. by rewrite <- !app_assoc.
Qed.

Lemma notExcepted_test host (m : Mercury) (body : string) :
  notExcepted host m body ->
  bool_decide (is_Some (onRequestExceptionRegex m))
  && match onRequestExceptionRegex m with
     | Some pattern => regExpFinds host pattern body
     | None => true
     end = false.
Proof.
  intros H. unfold notExcepted in H.
  destruct (onRequestExceptionRegex m) as [pattern|].
  - rewrite (H pattern eq_refl). apply andb_false_r.
  - done.
Qed.

Lemma step_Load_applied host w (xhr : nat) (request : Request) (body : string) :
  requests w !! xhr = Some request ->
  operational host (this w) ->
  notExcepted host (this w) body ->
  toBoolean (onLoadDelay (this w)) = false ->
  let w' := step host (Load xhr 200 body) w in
  trace w'
  = trace w
    ++ DispatchEvent "mercury:unload"
       :: applyEffects (req_url request) (req_isPopState request) (req_callback request)
            "mercury:load"
  /\ history w' = appliedHistory (req_url request) (req_isPopState request) (history w)
  /\ document w' = document (updateDOM host (req_url request) body w).2
  /\ pageOffset w' = finalOffset (req_callback request)
  /\ requests w' = alter (settle DONE 200 body) xhr (requests w)
  /\ timers w' = timers w
  /\ this w' = this w.
Proof.
  intros Hreq (Hvalid & Hready & Hload & Hunload) Hexc Hdelay. cbv zeta.
  set (w1 := set_requests (alter (settle DONE 200 body) xhr (requests w)) w).
  assert (Hl : requests w1 !! xhr = Some (settle DONE 200 body request)).
  { subst w1. simpl. by rewrite list_lookup_alter_eq, Hreq. }
  set (w2 := set_trace (trace w1 ++ [DispatchEvent "mercury:unload"]) w1).
  destruct (modifyPageAndHistory_run host (req_url request) (req_isPopState request)
              (req_callback request) body w2 "mercury:load" Hvalid Hready Hload)
    as (doc & Hrun).
  assert (Hhandler : onreadystatechange host xhr w1
                     = (Normal tt,
                        (modifyPageAndHistory host (req_url request)
                           (req_isPopState request) (req_callback request) body w2).2)).
  { unfold onreadystatechange, bind at 1, get. rewrite Hl.
    cbn [readyState status settle req_url req_isPopState req_callback responseText
         Z.eqb Pos.eqb negb].
    unfold tryCatch, bind at 1, self.
    replace (this w1) with (this w) by done.
    rewrite (notExcepted_test host (this w) body Hexc).
    unfold bind at 1. rewrite Hunload. cbn [dispatchEvent emit modify].
    fold w2. unfold bind at 1, self.
    replace (this w2) with (this w) by done. rewrite Hdelay.
    by rewrite Hrun. }
  assert (Hstep : step host (Load xhr 200 body) w
                  = (modifyPageAndHistory host (req_url request)
                       (req_isPopState request) (req_callback request) body w2).2).
  { unfold step, deliver, bind at 1, updateRequest, modify. fold w1.
    by rewrite (listener_normal _ _ _ Hhandler). }
  assert (Hdoc : document (step host (Load xhr 200 body) w)
                 = document (updateDOM host (req_url request) body w).2).
  { rewrite Hstep. by apply modifyPageAndHistory_document. }
  rewrite Hdoc. rewrite Hstep, Hrun. subst w2 w1.
  world_fields. repeat split; try done.
  by rewrite <- app_assoc.
Qed.
(** X18. A response with status 200 whose text matches no request
    exception, on an instance in operation without delay: in the turn in
    which the response arrives the engine dispatches [mercury:unload],
    pushes the history entry unless the navigation replays one, patches
    the document, scrolls to the top, runs the callback of a popstate
    (which scrolls to the offset stored in the state, or to the top when
    the state stores none) and dispatches [mercury:load], in this order
    and without any other effect; in particular it asks for no full
    navigation and schedules no timeout.  The document after the turn is
    the document that [updateDOM], called with the URL of the request
    and the response text, makes of the live document. *)
Theorem response_applied_at_once host w (xhr : nat) (request : Request) (body : string) :
  requests w !! xhr = Some request ->
  operational host (this w) ->
  notExcepted host (this w) body ->
  toBoolean (onLoadDelay (this w)) = false ->
  let w' := step host (Load xhr 200 body) w in
  trace w'
  = trace w
    ++ DispatchEvent "mercury:unload"
       :: applyEffects (req_url request) (req_isPopState request) (req_callback request)
            "mercury:load"
  /\ history w' = appliedHistory (req_url request) (req_isPopState request) (history w)
  /\ document w' = document (updateDOM host (req_url request) body w).2
  /\ pageOffset w' = finalOffset (req_callback request)
  /\ requests w' = alter (settle DONE 200 body) xhr (requests w)
  /\ timers w' = timers w
  /\ this w' = this w.
Proof.
  intros Hreq Hop Hexc Hdelay.
  exact (step_Load_applied host w xhr request body Hreq Hop Hexc Hdelay).
Qed.


(** X19. The same response on an instance with a delay: the turn in
    which the response arrives dispatches [mercury:unload] and schedules
    one timeout, remembered in [this.onLoadDelayTimeout]; document,
    history and scroll offset stay as they are.  When the timeout
    elapses, the response is applied as it would have been applied at
    once: same history entry, same scrolls, same load event, and the
    timeout is no longer pending. *)
Theorem response_applied_after_delay host w (xhr : nat) (request : Request)
    (body : string) :
  requests w !! xhr = Some request ->
  inFlight request = true ->
  timers w = [] ->
  operational host (this w) ->
  notExcepted host (this w) body ->
  toBoolean (onLoadDelay (this w)) = true ->
  let id := S (timerCount w) in
  let w1 := step host (Load xhr 200 body) w in
  exists w2,
    run host [Load xhr 200 body; TimerFired id] w = Some w2
    /\ document w1 = document w /\ history w1 = history w
    /\ pageOffset w1 = pageOffset w
    /\ timers w1 = [(id, xhr)]
    /\ onLoadDelayTimeout (this w1) = Some id
    /\ trace w1 = trace w ++ [DispatchEvent "mercury:unload"]
    /\ trace w2
       = trace w1
         ++ applyEffects (req_url request) (req_isPopState request) (req_callback request)
              "mercury:load"
    /\ history w2 = appliedHistory (req_url request) (req_isPopState request) (history w)
    /\ pageOffset w2 = finalOffset (req_callback request)
    /\ timers w2 = [].
Proof.
  intros Hreq Hfl Htimers (Hvalid & Hready & Hload & Hunload) Hexc Hdelay. cbv zeta.
  set (id := S (timerCount w)).
  set (w0 := set_requests (alter (settle DONE 200 body) xhr (requests w)) w).
  assert (Hl : requests w0 !! xhr = Some (settle DONE 200 body request)).
  { subst w0. simpl. by rewrite list_lookup_alter_eq, Hreq. }
  set (w1 := set_this (with_onLoadDelayTimeout (Some id) (this w))
               (set_timerCount id
                  (set_timers [(id, xhr)]
                     (set_trace (trace w ++ [DispatchEvent "mercury:unload"]) w0)))).
  assert (Hhandler : onreadystatechange host xhr w0 = (Normal tt, w1)).
  { unfold onreadystatechange, bind at 1, get. rewrite Hl.
    cbn [readyState status settle req_url req_isPopState req_callback responseText
         Z.eqb Pos.eqb negb].
    unfold tryCatch, bind at 1, self.
    replace (this w0) with (this w) by done.
    rewrite (notExcepted_test host (this w) body Hexc).
    unfold bind at 1. rewrite Hunload. cbn [dispatchEvent emit modify].
    unfold bind at 1, self. cbn [this set_trace]. 
    replace (this w0) with (this w) by done. rewrite Hdelay.
    unfold bind, setTimeout, get, modify, assign, ret. cbn [fst snd].
    f_equal. subst w1 w0 id. world_eq. by rewrite Htimers. }
  assert (Hstep1 : step host (Load xhr 200 body) w = w1).
  { unfold step, deliver, bind at 1, updateRequest, modify. fold w0.
    by rewrite (listener_normal _ _ _ Hhandler). }
  rewrite Hstep1.
  set (w1' := set_timers [] w1).
  destruct (modifyPageAndHistory_run host (req_url request) (req_isPopState request)
              (req_callback request) body w1' "mercury:load" Hvalid Hready Hload)
    as (doc & Hrun).
  assert (Hstep2 : step host (TimerFired id) w1
                   = (modifyPageAndHistory host (req_url request)
                        (req_isPopState request) (req_callback request) body w1').2).
  { unfold step, deliver, bind at 1, get.
    replace (timers w1) with [(id, xhr)] by done.
    cbn [List.find fst snd]. rewrite bool_decide_true by done.
    unfold bind at 1, modify.
    replace (set_timers (filter (fun t : nat * nat => t.1 ≠ id) (timers w1)) w1) with w1'.
    2:{ subst w1'. f_equal. replace (timers w1) with [(id, xhr)] by done.
        rewrite filter_cons_False by (simpl; intros Hne; by apply Hne). done. }
    assert (Helapsed : onLoadDelayElapsed host xhr w1'
                       = modifyPageAndHistory host (req_url request)
                           (req_isPopState request) (req_callback request) body w1').
    { unfold onLoadDelayElapsed, bind, get.
      replace (requests w1') with (requests w0) by done. by rewrite Hl. }
    cbn [snd]. rewrite (listener_normal _ _ _ (eq_trans Helapsed Hrun)). by rewrite Hrun. }
  eexists. split.
  { cbn [run]. 
    replace (enabled (Load xhr 200 body) w) with true
      by (symmetry; unfold enabled, requestInFlight; by rewrite Hreq).
    rewrite Hstep1.
    replace (enabled (TimerFired id) w1) with true
      by (symmetry; apply bool_decide_eq_true; subst w1; simpl; by left).
    by rewrite Hstep2. }
  rewrite Hrun. subst w1' w1 w0. world_fields. by repeat split.
Qed.

(** X20. A response with status 200 whose text the pattern of the
    request exceptions finds is not applied: the engine assigns
    [window.location] the requested URL and does nothing else.  No event
    is dispatched, the document, the history and the scroll offset stay
    as they are, and no timeout is scheduled. *)
Theorem excepted_response_full_navigation host w (xhr : nat) (request : Request)
    (body pattern : string) :
  requests w !! xhr = Some request ->
  onRequestExceptionRegex (this w) = Some pattern ->
  regExpFinds host pattern body = true ->
  step host (Load xhr 200 body) w
  = set_trace (trace w ++ [LocationAssign (req_url request)])
      (set_requests (alter (settle DONE 200 body) xhr (requests w)) w).
Proof.
  intros Hreq Hregex Hfinds.
  set (w1 := set_requests (alter (settle DONE 200 body) xhr (requests w)) w).
  assert (Hl : requests w1 !! xhr = Some (settle DONE 200 body request)).
  { subst w1. simpl. by rewrite list_lookup_alter_eq, Hreq. }
  assert (Hhandler : onreadystatechange host xhr w1
                     = (Normal tt,
                        set_trace (trace w1 ++ [LocationAssign (req_url request)]) w1)).
  { unfold onreadystatechange, bind at 1, get. rewrite Hl.
    cbn [readyState status settle req_url req_isPopState req_callback responseText
         Z.eqb Pos.eqb negb].
    unfold tryCatch, bind at 1, self.
    replace (this w1) with (this w) by done.
    rewrite Hregex, Hfinds. rewrite bool_decide_true by by eexists. done. }
  unfold step, deliver, bind at 1, updateRequest, modify. fold w1.
  by rewrite (listener_normal _ _ _ Hhandler).
Qed.

(** ** [Mercury.js]: the constructor *)

Lemma touchesInstance_this (m : Mercury) w : touchesInstance w (set_this m w).
Proof. exists (trace w), m. by destruct w. Qed.

Lemma touchesInstance_trace (tr : list Effect) w : touchesInstance w (set_trace tr w).
Proof. exists tr, (this w). by destruct w. Qed.

Lemma settles_bind {A B : Type} (P : Mercury -> Prop) (c : Js A)
    (Q : A -> Mercury -> Prop) (k : A -> Js B) (R : B -> Mercury -> Prop) :
  settles P c Q -> (forall a, settles (Q a) (k a) R) -> settles P (bind c k) R.
Proof.
  intros Hc Hk w Hw. destruct (Hc w Hw) as (a & w1 & Hrun & Ht1 & Hq).
  destruct (Hk a w1 Hq) as (b & w2 & Hrun2 & Ht2 & Hr).
  exists b, w2. unfold bind. rewrite Hrun. split; [done|]. split; [|done].
  by apply (touchesInstance_trans w w1 w2).
Qed.

Lemma settles_assign (P : Mercury -> Prop) (f : Mercury -> Mercury) :
  settles P (assign f) (fun _ m => exists m0, P m0 /\ m = f m0).
Proof.
  intros w Hw. exists tt, (set_this (f (this w)) w). split; [done|].
  split; [apply touchesInstance_this|]. by exists (this w).
Qed.

Lemma settles_ret {A : Type} (P : Mercury -> Prop) (a : A) :
  settles P (ret a) (fun b m => b = a /\ P m).
Proof. intros w Hw. exists a, w. split; [done|]. split; [apply touchesInstance_refl|done]. Qed.

Lemma settles_reports {A : Type} (P : Mercury -> Prop) (R : A -> Prop) (c : Js A) :
  reports R c -> settles P c (fun a m => R a /\ P m).
Proof.
  intros Hc w Hw. destruct (Hc w) as (a & more & Hrun & Hr).
  exists a. eexists. split; [exact Hrun|]. split; [apply touchesInstance_trace|done].
Qed.

Lemma settles_post {A : Type} (P : Mercury -> Prop) (c : Js A)
    (Q Q' : A -> Mercury -> Prop) :
  (forall a m, Q a m -> Q' a m) -> settles P c Q -> settles P c Q'.
Proof.
  intros Hq Hc w Hw. destruct (Hc w Hw) as (a & w' & Hrun & Ht & Hpost).
  exists a, w'. split; [done|]. split; [done|]. by apply Hq.
Qed.

Lemma reports_validateOptionalParam (param : JsValue) (type : string) (fallback : JsValue) :
  showable param ->
  typeof fallback = type ->
  reports (fun v => typeof v = type
                    /\ (typeof param = type -> v = param)
                    /\ (typeof param ≠ type -> v = fallback))
    (validateOptionalParam param type fallback).
Proof.
  intros [shown Hshown] Hfb w.
  destruct (undefined_or_not param) as [->|Hdef].
  - exists fallback, []. split; [simpl; rewrite app_nil_r; by destruct w|].
    split; [done|]. split; [|done]. intros Ht. simpl in Ht. subst type. symmetry in Ht.
    by rewrite (typeof_undefined _ Ht).
  - assert (Hrun : validateOptionalParam param type fallback w
                   = (if negb (String.eqb (typeof param) type) then
                        let! shown := template param in
                        consoleError (shown +:+ " is not a " +:+ type +:+ ".") ;;;
                        ret fallback
                      else ret param) w) by by destruct param.
    rewrite Hrun. clear Hrun.
    destruct (String.eqb_spec (typeof param) type) as [Heq|Hne]; simpl.
    + exists param, []. split; [rewrite app_nil_r; by destruct w|done].
    + unfold bind, template. rewrite Hshown. simpl.
      eexists fallback, [_]. split; [reflexivity|done].
Qed.

Lemma reports_validateOnLoadDelay (delayTime : JsValue) :
  showable delayTime ->
  reports (fun v => typeof v = "number"
                    /\ lessThanZero v = false
                    /\ v = (if passesDelayChecks delayTime then delayTime
                            else JsNumber (integer 0)))
    (validateOnLoadDelay delayTime).
Proof.
  intros [shown Hshown] w.
  destruct delayTime as [| |b|x|s|d|f r|items|props]; try done.
  all: try (exists (JsNumber (integer 0)); eexists [_];
            unfold validateOnLoadDelay;
            cbn [typeof String.eqb negb Ascii.eqb Bool.eqb];
            unfold bind, template; rewrite Hshown;
            split; [reflexivity|done]).
  - exists (JsNumber (integer 0)), []. split; [simpl; rewrite app_nil_r; by destruct w|done].
  - unfold validateOnLoadDelay, passesDelayChecks.
    cbn [typeof String.eqb negb Ascii.eqb Bool.eqb andb].
    destruct (lessThanZero (JsNumber x)) eqn:Hneg; cbn [negb].
    + unfold bind, template. cbn [toString].
      exists (JsNumber (integer 0)). eexists [_]. split; [reflexivity|done].
    + exists (JsNumber x), []. split; [simpl; rewrite app_nil_r; by destruct w|done].
Qed.

Lemma isValidUpdateMatrix_passes (rules : list JsValue) w :
  forallb acceptableRule rules = true ->
  isValidUpdateMatrix (JsArray rules) w = (Normal true, w).
Proof.
  intros Hrules. unfold isValidUpdateMatrix. apply every_passes.
  intros rule w0 Hin. apply rule_check_true.
  rewrite forallb_forall in Hrules. apply Hrules. by apply list_elem_of_In.
Qed.

Lemma settles_clickExceptions (P : Mercury -> Prop) (onClickExceptions : JsValue) :
  (forall items, onClickExceptions = JsArray items ->
                 is_Some (join "," (BASE_ON_CLICK_EXCEPTIONS ++ items))) ->
  settles P
    (if isArray onClickExceptions then
       match join "," (BASE_ON_CLICK_EXCEPTIONS ++ itemsOf onClickExceptions) with
       | Some s => assign (with_onClickExceptionSelector s)
       | None => throw (TypeError "Cannot convert the value to a string")
       end
     else
       match join "," BASE_ON_CLICK_EXCEPTIONS with
       | Some s => assign (with_onClickExceptionSelector s)
       | None => throw (TypeError "Cannot convert the value to a string")
       end)
    (fun _ m => exists m0 s,
         P m0
         /\ join "," (BASE_ON_CLICK_EXCEPTIONS ++ itemsOf onClickExceptions) = Some s
         /\ m = with_onClickExceptionSelector s m0).
Proof.
  intros Hjoin.
  assert (Hbase : exists s, join "," BASE_ON_CLICK_EXCEPTIONS = Some s)
    by (vm_compute; by eexists).
  destruct Hbase as [base Hbase].
  destruct onClickExceptions as [| | | | | | |items|]; cbn [isArray itemsOf];
    try (rewrite app_nil_r, Hbase;
         eapply settles_post; [|apply settles_assign];
         intros _ m (m0 & Hm0 & ->); by exists m0, base).
  destruct (Hjoin items eq_refl) as [s Hs]. rewrite Hs.
  eapply settles_post; [|apply settles_assign].
  intros _ m (m0 & Hm0 & ->). by exists m0, s.
Qed.

Lemma settles_requestExceptions host (P : Mercury -> Prop) (onRequestExceptions : JsValue) :
  (forall items, onRequestExceptions = JsArray items -> items ≠ [] ->
                 exists pattern, join "|" items = Some pattern
                                 /\ regExpValid host pattern = true) ->
  settles P
    (when (isArray onRequestExceptions
           && negb (length (itemsOf onRequestExceptions) =? 0))
       (match join "|" (itemsOf onRequestExceptions) with
        | Some pattern =>
            let! regex := newRegExp host pattern in
            assign (with_onRequestExceptionRegex (Some regex))
        | None => throw (TypeError "Cannot convert the value to a string")
        end))
    (fun _ m => exists m0,
         P m0
         /\ m = match itemsOf onRequestExceptions with
                | [] => m0
                | items => with_onRequestExceptionRegex (join "|" items) m0
                end).
Proof.
  intros Hjoin.
  destruct onRequestExceptions as [| | | | | | |items|]; cbn [isArray itemsOf andb when];
    try (eapply settles_post; [|apply settles_ret]; intros _ m [_ Hm]; by exists m).
  destruct items as [|item items'].
  { eapply settles_post; [|apply settles_ret]. intros _ m [_ Hm]. by exists m. }
  cbn [length Nat.eqb negb when].
  destruct (Hjoin (item :: items') eq_refl) as (pattern & Hpattern & Hvalid); [done|].
  rewrite Hpattern. unfold newRegExp. rewrite Hvalid.
  intros w Hw. exists tt, (set_this (with_onRequestExceptionRegex (Some pattern) (this w)) w).
  split; [done|]. split; [apply touchesInstance_this|]. by exists (this w).
Qed.

Ltac unpack :=
  repeat match goal with
         | H : exists _, _ |- _ => destruct H
         | H : _ /\ _ |- _ => destruct H
         end.

Lemma validateAndAssignConfig_configures host (config : JsValue) w (rules : list JsValue) :
  admissible host config ->
  property config "updateMatrix" = JsArray rules ->
  forallb acceptableRule rules = true ->
  exists w1,
    validateAndAssignConfig host config w = (Normal true, w1)
    /\ touchesInstance w w1
    /\ configured config (this w) (this w1).
Proof.
  intros [Hobject Hrules Hfields Hclicks Hrequests] Hmatrix Hacc.
  repeat (apply Forall_cons in Hfields as [? Hfields]).
  unfold validateAndAssignConfig, requireObjectCoercible.
  rewrite Hobject. unfold bind at 1. cbn [ret]. cbv zeta. unfold bind at 1.
  rewrite Hmatrix. rewrite (isValidUpdateMatrix_passes rules w Hacc).
  cbn [negb].
  match goal with
  | |- exists w1, ?tail w = _ /\ _ =>
      assert (Htail : settles (fun m => m = this w) tail
                        (fun b m => b = true /\ configured config (this w) m))
  end.
  { eapply settles_bind; [apply settles_assign|]. intros ?.
    eapply settles_bind;
      [apply settles_reports, reports_validateOptionalParam; done|]. intros v1.
    eapply settles_bind; [apply settles_assign|]. intros ?.
    eapply settles_bind;
      [apply settles_reports, reports_validateOptionalParam; done|]. intros v2.
    eapply settles_bind; [apply settles_assign|]. intros ?.
    eapply settles_bind;
      [apply settles_reports, reports_validateOptionalParam; done|]. intros v3.
    eapply settles_bind; [apply settles_assign|]. intros ?.
    eapply settles_bind;
      [apply settles_reports, reports_validateOptionalParam; done|]. intros v4.
    eapply settles_bind; [apply settles_assign|]. intros ?.
    eapply settles_bind;
      [apply settles_reports, reports_validateOptionalParam; done|]. intros v5.
    eapply settles_bind; [apply settles_assign|]. intros ?.
    eapply settles_bind;
      [apply settles_reports, reports_validateOnLoadDelay; done|]. intros v6.
    eapply settles_bind; [apply settles_assign|]. intros ?.
    eapply settles_bind; [apply settles_clickExceptions; exact Hclicks|]. intros ?.
    eapply settles_bind;
      [apply (settles_requestExceptions host); exact Hrequests|]. intros ?.
    eapply settles_post; [|apply settles_ret].
    cbv beta. intros b m Hpost. unpack. subst. split; [done|].
    unfold configured, optionalParams. rewrite Hmatrix.
    destruct (itemsOf (propertyOr config "onRequestExceptions" (JsArray []))) as [|item items];
      cbn; repeat split; try done; repeat constructor; try done; eauto. }
  destruct (Htail w eq_refl) as (b & w1 & Hrun & Htouch & -> & Hconf).
  by exists w1.
Qed.

Lemma preserves_bindListeners {X : Type} (f : World -> X) :
  ignores set_listeners f -> preserves f bindListeners.
Proof.
  intros Hl.
  assert (Hadd : forall type, preserves f (addEventListener type)).
  { intros type. apply preserves_modify. intros w.
    destruct (bool_decide _); [done|apply Hl]. }
  unfold bindListeners, documentBody, eventType.
  frame; apply Hadd.
Qed.

Lemma touchesInstance_frame w w' :
  touchesInstance w w' ->
  document w' = document w /\ history w' = history w
  /\ scrollRestoration w' = scrollRestoration w /\ pageOffset w' = pageOffset w
  /\ requests w' = requests w /\ timers w' = timers w
  /\ timerCount w' = timerCount w /\ listeners w' = listeners w.
Proof. intros (tr & m & ->). by repeat split. Qed.

(** The constructor on a configuration that is accepted, up to the
    point where the listeners are bound. *)
Lemma construct_reaches_bindListeners host (config : JsValue) w (rules : list JsValue) :
  hasHistory host = true -> hasPushState host = true -> hasQuerySelector host = true ->
  hasCustomEvent host = true ->
  admissible host config ->
  property config "updateMatrix" = JsArray rules ->
  forallb acceptableRule rules = true ->
  exists (m : Mercury) w5,
    configured config (this w) m
    /\ (forall result, bindListeners w5 = result -> construct host config w = result)
    /\ this w5
       = with_unloadEvent (Some "mercury:unload")
           (with_loadEvent (Some "mercury:load")
              (if toBoolean (enableCache m) then with_cache (Some ∅) m else m))
    /\ scrollRestoration w5
       = (if hasScrollRestoration host then "manual" else scrollRestoration w)
    /\ listeners w5 = listeners w
    /\ document w5 = document w /\ history w5 = history w
    /\ pageOffset w5 = pageOffset w
    /\ requests w5 = requests w /\ timers w5 = timers w.
Proof.
  intros Hh Hp Hq Hevent Hadm Hmatrix Hacc.
  destruct (validateAndAssignConfig_configures host config w rules Hadm Hmatrix Hacc)
    as (wv & Hv & Htouch & Hconf).
  destruct (touchesInstance_frame w wv Htouch)
    as (Hdoc & Hhist & Hsr & Hoff & Hreqs & Htm & _ & Hlis).
  set (w2 := if hasScrollRestoration host then set_scrollRestoration "manual" wv else wv).
  set (m3 := if toBoolean (enableCache (this wv))
             then with_cache (Some ∅) (this wv) else this wv).
  set (w5 := set_this (with_unloadEvent (Some "mercury:unload")
                         (with_loadEvent (Some "mercury:load") m3)) w2).
  assert (Hthis2 : this w2 = this wv) by (subst w2; by destruct (hasScrollRestoration host)).
  exists (this wv), w5. split; [done|]. split.
  { intros result Hresult.
    unfold construct. rewrite Hh, Hp, Hq. cbn [negb orb].
    unfold bind at 1. rewrite Hv. cbn [negb].
    unfold bind at 1.
    replace (when (hasScrollRestoration host) (modify (set_scrollRestoration "manual")) wv)
      with (Normal tt, w2) by (subst w2; by destruct (hasScrollRestoration host)).
    unfold bind at 1. unfold self at 1. cbv beta iota. rewrite Hthis2.
    unfold bind at 1.
    replace (when (toBoolean (enableCache (this wv))) (assign (with_cache (Some ∅))) w2)
      with (Normal tt, set_this m3 w2).
    2:{ subst m3. destruct (toBoolean (enableCache (this wv))); cbn [when].
        - unfold assign, modify. by rewrite Hthis2.
        - cbn [ret]. f_equal. rewrite <- Hthis2. by destruct w2. }
    unfold newCustomEvent. rewrite Hevent.
    unfold bind at 1. cbn [ret]. unfold bind at 1, assign at 1, modify.
    unfold bind at 1. cbn [ret]. unfold bind at 1, assign at 1, modify.
    exact Hresult. }
  subst w5 w2 m3. split; [done|].
  split; [cbn; destruct (hasScrollRestoration host); [done|by rewrite <- Hsr]|].
  destruct (hasScrollRestoration host); cbn;
    by rewrite Hdoc, Hhist, Hoff, Hreqs, Htm, Hlis.
Qed.

(** X21. What the constructor sets up when it accepts the
    configuration and nothing raises: in an environment that passes the
    capability check and has [CustomEvent] and a body, for a
    configuration that is an object with an acceptable update matrix,
    with options that can be shown in a diagnostic and exceptions that
    can be joined (to a regular expression the host accepts, for the
    request exceptions).  Every option that goes through
    [validateOptionalParam] ends with a value of its documented type:
    the value given when that has the type, the default otherwise.  The
    delay ends as a number for which [delay < 0] is false: the delay
    given when that is such a number (a fraction, an infinity or NaN
    included), 0 otherwise.  The cache is the empty object
    exactly when caching is on; the two events exist; scroll restoration
    is manual when the browser knows the property; the four listeners are
    bound; document, history, scroll offset, requests and timers are not
    touched.  When the selectors of the update matrix are selectors that
    the host accepts, the instance is in operation. *)
Theorem construct_sets_up host (config : JsValue) w (rules : list JsValue) :
  hasHistory host = true -> hasPushState host = true -> hasQuerySelector host = true ->
  admissible host config ->
  adequate host w ->
  property config "updateMatrix" = JsArray rules ->
  forallb acceptableRule rules = true ->
  exists w',
    construct host config w = (Normal tt, w')
    /\ updateMatrix (this w') = map ruleOf rules
    /\ Forall (fun '(key, field, type, fallback) =>
                 typeof (field (this w')) = type
                 /\ (typeof (property config key) = type ->
                     field (this w') = property config key)
                 /\ (typeof (property config key) ≠ type -> field (this w') = fallback))
              optionalParams
    /\ typeof (onLoadDelay (this w')) = "number"
    /\ lessThanZero (onLoadDelay (this w')) = false
    /\ onLoadDelay (this w')
       = (if passesDelayChecks (property config "onLoadDelay")
          then property config "onLoadDelay" else JsNumber (integer 0))
    /\ cache (this w')
       = (if toBoolean (enableCache (this w')) then Some ∅ else cache (this w))
    /\ loadEvent (this w') = Some "mercury:load"
    /\ unloadEvent (this w') = Some "mercury:unload"
    /\ XHR (this w') = XHR (this w)
    /\ scrollRestoration w'
       = (if hasScrollRestoration host then "manual" else scrollRestoration w)
    /\ Forall (fun type => type ∈ listeners w')
              ["click"; "popstate"; "mercury:load"; "mercury:unload"]
    /\ document w' = document w /\ history w' = history w
    /\ pageOffset w' = pageOffset w
    /\ requests w' = requests w /\ timers w' = timers w
    /\ (Forall (fun rule => selectorValid host (selector rule) = true) (map ruleOf rules) ->
        operational host (this w')).
Proof.
  intros Hh Hp Hq Hadm Henv Hmatrix Hacc.
  destruct (Henv Hh Hp Hq) as [Hevent [body Hbody]].
  destruct (construct_reaches_bindListeners host config w rules
              Hh Hp Hq Hevent Hadm Hmatrix Hacc)
    as (m & w5 & Hconf & Hrun & Hthis & Hsr & Hlis & Hdoc & Hhist & Hoff & Hreqs & Htm).
  destruct (bindListeners_binds w5 body) as (w' & Hbind & Hlisten);
    [by rewrite Hdoc|by rewrite Hthis|by rewrite Hthis|].
  pose proof (preserves_bindListeners
                (fun w => (this w, scrollRestoration w, document w, history w,
                           pageOffset w, requests w, timers w))
                ltac:(auto with frame) w5) as Hframe.
  rewrite Hbind in Hframe. cbn [snd] in Hframe.
  injection Hframe as Ht Hs Hd Hhi Ho Hr Hti.
  exists w'. split; [by apply Hrun|].
  rewrite Ht, Hs, Hd, Hhi, Ho, Hr, Hti, Hthis.
  destruct Hconf as (Hum & Hopt & (Hdtype & Hdelay & Hdvalue) & _ & _ & Hcache & _ & _ & Hxhr & _).
  rewrite Hmatrix in Hum. cbn [rulesOf] in Hum.
  unfold operational, optionalParams in *.
  repeat (apply Forall_cons in Hopt as [? Hopt]).
  destruct (toBoolean (enableCache m)) eqn:He;
    cbn [updateMatrix timeout enableCache onLoad onUnload onNavigate onLoadDelay
         onClickExceptionSelector onRequestExceptionRegex cache loadEvent unloadEvent
         XHR onLoadDelayTimeout with_unloadEvent with_loadEvent with_cache];
    rewrite He.
  - split; [done|]. split; [by repeat apply Forall_cons_2|].
    do 14 (split; [done|]).
    intros Hvalid. rewrite Hum. split; [done|]. split; [by eexists|done].
  - split; [done|]. split; [by repeat apply Forall_cons_2|].
    do 14 (split; [done|]).
    intros Hvalid. rewrite Hum. done.
Qed.

(** X22. How [validateAndAssignConfig] puts the exceptions together.
    The selector of the click exceptions is the base exceptions joined
    with commas, followed by the items of [onClickExceptions] when that
    is an array; an option that is not an array is dropped without a
    diagnostic.  The pattern of the request exceptions is the items of
    [onRequestExceptions] joined with bars; for an option that is absent,
    empty or not an array no pattern is assigned. *)
Theorem validateAndAssignConfig_joins_exceptions host (config : JsValue) w
    (rules : list JsValue) :
  admissible host config ->
  property config "updateMatrix" = JsArray rules ->
  forallb acceptableRule rules = true ->
  exists w1,
    validateAndAssignConfig host config w = (Normal true, w1)
    /\ join "," (BASE_ON_CLICK_EXCEPTIONS
                 ++ itemsOf (propertyOr config "onClickExceptions" (JsArray [])))
       = Some (onClickExceptionSelector (this w1))
    /\ onRequestExceptionRegex (this w1)
       = match itemsOf (propertyOr config "onRequestExceptions" (JsArray [])) with
         | [] => onRequestExceptionRegex (this w)
         | items => join "|" items
         end.
Proof.
  intros Hadm Hmatrix Hacc.
  destruct (validateAndAssignConfig_configures host config w rules Hadm Hmatrix Hacc)
    as (w1 & Hrun & _ & (_ & _ & _ & Hclicks & Hregex & _)).
  by exists w1.
Qed.

(** X23. The constructor in a document that has no body yet (a script
    that runs in the head): the configuration is validated and assigned,
    scroll restoration is switched to manual, and then [bindListeners]
    raises a TypeError at [document.body.addEventListener].  The
    exception leaves the constructor, and no listener is bound. *)
Theorem construct_without_body_raises host (config : JsValue) w (rules : list JsValue) :
  hasHistory host = true -> hasPushState host = true -> hasQuerySelector host = true ->
  hasCustomEvent host = true ->
  admissible host config ->
  property config "updateMatrix" = JsArray rules ->
  forallb acceptableRule rules = true ->
  bodyOf (document w) = None ->
  exists message w',
    construct host config w = (Throw (TypeError message), w')
    /\ listeners w' = listeners w
    /\ scrollRestoration w'
       = (if hasScrollRestoration host then "manual" else scrollRestoration w)
    /\ document w' = document w.
Proof.
  intros Hh Hp Hq Hevent Hadm Hmatrix Hacc Hbody.
  destruct (construct_reaches_bindListeners host config w rules
              Hh Hp Hq Hevent Hadm Hmatrix Hacc)
    as (m & w5 & Hconf & Hrun & Hthis & Hsr & Hlis & Hdoc & _).
  exists "document.body is null", w5. split; [|done].
  apply Hrun. unfold bindListeners, bind at 1, documentBody, bind at 1, get.
  by rewrite Hdoc, Hbody.
Qed.

(** ** [Mercury.js]: [destroy] *)

Lemma unbinds_bind {A B : Type} (c : Js A) (k : A -> Js B) :
  unbinds c -> (forall a, unbinds (k a)) -> unbinds (bind c k).
Proof.
  intros Hc Hk w type. unfold bind. specialize (Hc w type).
  destruct (c w) as [[a|e] w1]; cbn [snd] in *; [|done].
  intros Hin. apply Hc. by apply (Hk a w1 type).
Qed.

Lemma unbinds_preserves {A : Type} (c : Js A) : preserves listeners c -> unbinds c.
Proof. intros Hc w type. by rewrite Hc. Qed.

Lemma unbinds_removeEventListener (type : string) : unbinds (removeEventListener type).
Proof.
  intros w type'. unfold removeEventListener, modify. cbn.
  intros Hin. by apply list_elem_of_filter in Hin as [_ Hin].
Qed.

Lemma unbinds_listener (body : Js unit) : unbinds body -> unbinds (listener body).
Proof.
  intros Hb w type. unfold listener, tryCatch. specialize (Hb w type).
  destruct (body w) as [[[]|e] w1]; cbn [snd] in *; done.
Qed.

Lemma unbinds_destroy host : unbinds (destroy host).
Proof.
  unfold destroy.
  apply unbinds_bind; [apply unbinds_preserves, preserves_self|]. intros me.
  apply unbinds_bind.
  { apply unbinds_preserves. destruct (XHR me); [|done].
    apply preserves_abort; auto with frame. }
  intros _. apply unbinds_bind; [apply unbinds_preserves, preserves_self|]. intros me'.
  apply unbinds_bind.
  { apply unbinds_preserves, preserves_clearTimeout. auto with frame. }
  intros _. apply unbinds_bind.
  { apply unbinds_preserves. unfold documentBody. frame. }
  intros _. apply unbinds_bind; [apply unbinds_removeEventListener|].
  intros _. apply unbinds_bind; [apply unbinds_removeEventListener|].
  intros _. apply unbinds_bind.
  { apply unbinds_preserves. unfold eventType. frame. }
  intros type. apply unbinds_bind; [apply unbinds_removeEventListener|].
  intros _. apply unbinds_bind.
  { apply unbinds_preserves. unfold eventType. frame. }
  intros type'. apply unbinds_removeEventListener.
Qed.

Lemma inert_consistent w : inert w -> consistent w.
Proof.
  intros (_ & _ & Hfl & Htm). unfold consistent. rewrite Htm. split; [|split].
  - intros xhr Hx. by rewrite Hfl in Hx.
  - intros t Hin. by apply elem_of_nil in Hin.
  - simpl. lia.
Qed.

(** Once the engine is inert it stays inert, and it never touches the
    document or creates a request again. *)
Lemma inert_step host (ev : Event) w :
  inert w -> enabled ev w = true ->
  inert (step host ev w)
  /\ document (step host ev w) = document w
  /\ length (requests (step host ev w)) = length (requests w).
Proof.
  intros Hinert Hen. pose proof Hinert as (Hclick & Hpop & Hfl & Htm).
  destruct ev as [e|d|x y|xhr rs|xhr st body|xhr|xhr|id|url sel|].
  - simpl in Hen. by rewrite bool_decide_false in Hen.
  - simpl in Hen. apply bool_decide_eq_true in Hen as [h Hh].
    assert (Hstep : step host (PopState d) w = set_history h w).
    { unfold step, deliver, bind at 1, get. rewrite Hh. unfold bind, modify.
      by rewrite bool_decide_false. }
    by rewrite Hstep.
  - done.
  - simpl in Hen. by rewrite Hfl in Hen.
  - simpl in Hen. by rewrite Hfl in Hen.
  - simpl in Hen. by rewrite Hfl in Hen.
  - simpl in Hen. by rewrite Hfl in Hen.
  - simpl in Hen. rewrite Htm in Hen. apply bool_decide_eq_true in Hen.
    by apply elem_of_nil in Hen.
  - pose proof (preserves_listener
                  (fun w => (listeners w, requests w, timers w, document w))
                  (commitCacheEntry host url sel) (fun _ _ => eq_refl)
                  (preserves_commitCacheEntry
                     (fun w => (listeners w, requests w, timers w, document w))
                     host url sel (fun _ _ => eq_refl)) w)
      as Hframe.
    injection Hframe as Hl Hr Ht Hd.
    unfold step, deliver. rewrite Hd. split; [|by rewrite Hr].
    unfold inert, requestInFlight. by rewrite Hl, Hr, Ht.
  - destruct (destroy_effect host w (inert_consistent w Hinert)) as (_ & Hlen & Hq & Ht).
    pose proof (listener_bookkeeping (destroy host) w) as Hb.
    injection Hb as Hr' Ht' _ _.
    assert (Hfl' : forall xhr, requestInFlight (step host CallDestroy w) xhr = false).
    { intros xhr. unfold step, deliver, requestInFlight. rewrite Hr'.
      destruct (from_option inFlight false (requests (destroy host w).2 !! xhr)) eqn:E;
        [|done].
      apply Hq in E. by rewrite Hfl in E. }
    split; [|split].
    + split; [|split; [|split]]; try done.
      * intros Hin. apply (unbinds_listener _ (unbinds_destroy host)) in Hin. done.
      * intros Hin. apply (unbinds_listener _ (unbinds_destroy host)) in Hin. done.
      * unfold step, deliver. rewrite Ht'.
        destruct (timers (destroy host w).2) as [|t rest] eqn:Et; [done|].
        destruct (Ht t) as [Hin|Hin]; [try rewrite Et; by left| |].
        -- rewrite Htm in Hin. by apply elem_of_nil in Hin.
        -- by rewrite Hfl in Hin.
    + apply (preserves_listener document); [auto with frame|].
      apply preserves_destroy; auto with frame.
    + unfold step, deliver. by rewrite Hr', Hlen.
Qed.

Lemma inert_run host (evs : list Event) :
  forall w w',
    inert w -> run host evs w = Some w' ->
    inert w' /\ document w' = document w
    /\ length (requests w') = length (requests w).
Proof.
  induction evs as [|ev rest IH]; intros w w' Hinert Hrun; simpl in Hrun.
  - by injection Hrun as <-.
  - destruct (enabled ev w) eqn:Hen; [|done].
    destruct (inert_step host ev w Hinert Hen) as (Hi & Hd & Hl).
    destruct (IH _ _ Hi Hrun) as (Hi' & Hd' & Hl').
    split; [done|]. split; congruence.
Qed.

Lemma clearTimeout_consistent w w1 :
  consistent w ->
  timers w1 = timers w ->
  clearTimeout (onLoadDelayTimeout (this w)) w1 = (Normal tt, set_timers [] w1).
Proof.
  intros (_ & Hb & _) Htm.
  destruct (onLoadDelayTimeout (this w)) as [id|] eqn:Hid; cbn [clearTimeout].
  - unfold modify. do 2 f_equal. rewrite Htm. apply filter_none.
    intros t Hin Hne. destruct (Hb t Hin) as (Ht & _). by simplify_eq.
  - cbn [ret]. f_equal. world_eq. rewrite Htm.
    destruct (timers w) as [|t rest]; [done|].
    destruct (Hb t) as (Ht & _); [by left|]. simplify_eq.
Qed.

Lemma destroy_run host w (body : Path) (loadType unloadType : string) :
  consistent w ->
  bodyOf (document w) = Some body ->
  loadEvent (this w) = Some loadType ->
  unloadEvent (this w) = Some unloadType ->
  exists tr reqs,
    destroy host w
    = (Normal tt,
       set_listeners (unbound loadType unloadType (listeners w))
         (set_timers [] (set_trace tr (set_requests reqs w))))
    /\ length reqs = length (requests w)
    /\ forall xhr, from_option inFlight false (reqs !! xhr) = false.
Proof.
  intros Hc Hbody Hload Hunload. pose proof Hc as (Ha & _ & _).
  assert (Habort : exists tr reqs,
             (match XHR (this w) with
              | Some xhr => abort host xhr
              | None => ret tt
              end) w = (Normal tt, set_trace tr (set_requests reqs w))
             /\ length reqs = length (requests w)
             /\ forall xhr, from_option inFlight false (reqs !! xhr) = false).
  { destruct (XHR (this w)) as [xhr|] eqn:Hxhr.
    - destruct (abort_effect host xhr w)
        as (w1 & Hrun & _ & _ & _ & Hlen & Hfl & _ & _ & _ & tr & reqs & ->).
      exists tr, reqs. split; [done|]. split; [done|].
      intros x. specialize (Hfl x). unfold requestInFlight in Hfl at 1.
      cbn in Hfl. rewrite Hfl.
      destruct (requestInFlight w x) eqn:Hx1; [|done].
      apply Ha in Hx1. simplify_eq.
      rewrite bool_decide_false; [done|]. intros Hne. by apply Hne.
    - exists (trace w), (requests w). split; [cbn; by destruct w|]. split; [done|].
      intros x. destruct (from_option inFlight false (requests w !! x)) eqn:Hx1; [|done].
      apply Ha in Hx1. simplify_eq. }
  destruct Habort as (tr & reqs & Hrun & Hlen & Hnone).
  exists tr, reqs. split; [|done].
  unfold destroy. unfold bind at 1. unfold self at 1. cbv beta iota.
  unfold bind at 1. rewrite Hrun.
  set (w1 := set_trace tr (set_requests reqs w)).
  unfold bind at 1. unfold self at 1. cbv beta iota.
  replace (this w1) with (this w) by done.
  unfold bind at 1. rewrite (clearTimeout_consistent w w1 Hc eq_refl).
  unfold bind at 1, documentBody, bind at 1, get.
  replace (document (set_timers [] w1)) with (document w) by done. rewrite Hbody.
  cbn [ret]. rewrite Hload, Hunload.
  unfold bind, removeEventListener, eventType, modify, ret. cbn [fst snd].
  f_equal.
Qed.

Lemma elem_of_unbound (type loadType unloadType : string) (bound : list string) :
  type ∈ unbound loadType unloadType bound
  <-> type ∈ bound /\ type ≠ "click" /\ type ≠ "popstate"
      /\ type ≠ loadType /\ type ≠ unloadType.
Proof. unfold unbound. rewrite !list_elem_of_filter. tauto. Qed.

(** X24. [destroy] on an instance in operation takes the engine down for
    good.  It completes normally; the request in flight, if any, is
    aborted and the pending timeout, if any, is cleared; the four
    listeners are removed and no other listener is.  From then on,
    whatever happens to the page (clicks, history traversals, calls of
    the public methods), the engine never changes the document and never
    creates a request. *)
Theorem destroy_takes_engine_down host w (body : Path) (loadType unloadType : string) :
  consistent w ->
  bodyOf (document w) = Some body ->
  loadEvent (this w) = Some loadType ->
  unloadEvent (this w) = Some unloadType ->
  exists w',
    destroy host w = (Normal tt, w')
    /\ listeners w' = unbound loadType unloadType (listeners w)
    /\ inert w'
    /\ document w' = document w /\ history w' = history w
    /\ forall (evs : list Event) w2,
         run host evs w' = Some w2 ->
         inert w2 /\ document w2 = document w
         /\ length (requests w2) = length (requests w).
Proof.
  intros Hc Hbody Hload Hunload.
  destruct (destroy_run host w body loadType unloadType Hc Hbody Hload Hunload)
    as (tr & reqs & Hrun & Hlen & Hnone).
  eexists. split; [exact Hrun|]. split; [done|].
  assert (Hinert : inert (set_listeners (unbound loadType unloadType (listeners w))
                            (set_timers [] (set_trace tr (set_requests reqs w))))).
  { split; [|split; [|split]]; [| |exact Hnone|done].
    - cbn. rewrite elem_of_unbound. tauto.
    - cbn. rewrite elem_of_unbound. tauto. }
  split; [done|]. split; [done|]. split; [done|].
  intros evs w2 Hevs.
  destruct (inert_run host evs _ _ Hinert Hevs) as (Hi & Hd & Hl).
  split; [done|]. split; [done|]. by rewrite Hl.
Qed.

(** X25. [destroy] on an instance that never got its events, which is
    what the constructor leaves behind when it logs a diagnostic and
    returns (unsupported browser, update matrix refused): the call
    raises a TypeError, at [document.body] when there is no body and at
    [this.loadEvent.type] otherwise. *)
Theorem destroy_without_events_raises host w :
  loadEvent (this w) = None ->
  exists message w', destroy host w = (Throw (TypeError message), w').
Proof.
  intros Hload.
  assert (Habort : exists w1,
             (match XHR (this w) with
              | Some xhr => abort host xhr
              | None => ret tt
              end) w = (Normal tt, w1)
             /\ this w1 = this w).
  { destruct (XHR (this w)) as [xhr|].
    - destruct (abort_effect host xhr w)
        as (w1 & Hrun & _ & _ & _ & _ & _ & _ & _ & _ & tr & reqs & ->).
      by eexists.
    - by exists w. }
  destruct Habort as (w1 & Hrun & Hthis).
  unfold destroy. unfold bind at 1. unfold self at 1. cbv beta iota.
  unfold bind at 1. rewrite Hrun.
  unfold bind at 1. unfold self at 1. cbv beta iota. rewrite Hthis, Hload.
  unfold bind at 1.
  assert (Hclear : exists w2, clearTimeout (onLoadDelayTimeout (this w)) w1 = (Normal tt, w2)).
  { destruct (onLoadDelayTimeout (this w)); by eexists. }
  destruct Hclear as (w2 & ->).
  unfold bind at 1, documentBody, bind at 1, get.
  destruct (bodyOf (document w2)); [|by eexists _, _].
  cbn [ret]. unfold bind, removeEventListener, eventType, modify, throw. cbn [fst snd].
  by eexists _, _.
Qed.

Lemma addEventListener_fresh (type : string) w :
  type ∉ listeners w ->
  addEventListener type w = (Normal tt, set_listeners (listeners w ++ [type]) w).
Proof. intros Hin. unfold addEventListener, modify. by rewrite bool_decide_false. Qed.

Lemma bindListeners_fresh w (body : Path) :
  bodyOf (document w) = Some body ->
  loadEvent (this w) = Some "mercury:load" ->
  unloadEvent (this w) = Some "mercury:unload" ->
  Forall (fun type => type ∉ listeners w)
         ["click"; "popstate"; "mercury:load"; "mercury:unload"] ->
  bindListeners w
  = (Normal tt,
     set_listeners
       (listeners w ++ ["click"; "popstate"; "mercury:load"; "mercury:unload"]) w).
Proof.
  intros Hbody Hload Hunload Hfresh.
  repeat (apply Forall_cons in Hfresh as [? Hfresh]).
  unfold bindListeners, bind at 1, documentBody, bind at 1, get. rewrite Hbody.
  cbn [ret]. unfold bind at 1. rewrite addEventListener_fresh by done.
  unfold bind at 1. rewrite addEventListener_fresh.
  2:{ cbn. rewrite elem_of_app, list_elem_of_singleton. intros [|]; done. }
  unfold bind at 1. unfold self at 1. cbv beta iota.
  cbn [this set_listeners]. rewrite Hload, Hunload.
  unfold bind at 1, eventType at 1. cbn [ret].
  unfold bind at 1. rewrite addEventListener_fresh.
  2:{ cbn. rewrite !elem_of_app, !list_elem_of_singleton. intros [[|]|]; done. }
  unfold bind at 1, eventType. cbn [ret]. rewrite addEventListener_fresh.
  2:{ cbn. rewrite !elem_of_app, !list_elem_of_singleton. intros [[[|]|]|]; done. }
  f_equal. world_eq. by rewrite <- !app_assoc.
Qed.

Lemma filter_absent (type : string) (bound : list string) :
  type ∉ bound -> filter (fun t => t ≠ type) bound = bound.
Proof.
  intros Hin. induction bound as [|x rest IH]; [done|].
  apply not_elem_of_cons in Hin as [Hne Hin].
  rewrite filter_cons_True by done. by rewrite IH.
Qed.

(** X26. Construction followed by [destroy] leaves the listeners of the
    page as they were: the constructor binds click, popstate,
    [mercury:load] and [mercury:unload], in this order and after the
    listeners that were there, and [destroy] removes exactly these four.
    The document and the history are not touched by either, and the
    engine is inert afterwards. *)
Theorem construct_then_destroy host (config : JsValue) w (rules : list JsValue) :
  hasHistory host = true -> hasPushState host = true -> hasQuerySelector host = true ->
  admissible host config ->
  adequate host w ->
  property config "updateMatrix" = JsArray rules ->
  forallb acceptableRule rules = true ->
  requests w = [] -> timers w = [] ->
  Forall (fun type => type ∉ listeners w)
         ["click"; "popstate"; "mercury:load"; "mercury:unload"] ->
  exists w1 w2,
    construct host config w = (Normal tt, w1)
    /\ listeners w1
       = listeners w ++ ["click"; "popstate"; "mercury:load"; "mercury:unload"]
    /\ destroy host w1 = (Normal tt, w2)
    /\ listeners w2 = listeners w
    /\ document w2 = document w /\ history w2 = history w
    /\ inert w2.
Proof.
  intros Hh Hp Hq Hadm Henv Hmatrix Hacc Hreqs Htm Hfresh.
  destruct (Henv Hh Hp Hq) as [Hevent [body Hbody]].
  destruct (construct_reaches_bindListeners host config w rules
              Hh Hp Hq Hevent Hadm Hmatrix Hacc)
    as (m & w5 & Hconf & Hrun & Hthis & Hsr & Hlis & Hdoc & Hhist & Hoff & Hreqs5 & Htm5).
  assert (Hbind : bindListeners w5
                  = (Normal tt,
                     set_listeners
                       (listeners w5
                        ++ ["click"; "popstate"; "mercury:load"; "mercury:unload"]) w5)).
  { apply (bindListeners_fresh w5 body); rewrite ?Hdoc, ?Hthis, ?Hlis; done. }
  apply Hrun in Hbind. rewrite Hlis in Hbind.
  set (w1 := set_listeners _ w5) in Hbind.
  assert (Hc : consistent w1).
  { pose proof (construct_consistent host config w Hreqs Htm) as Hc.
    by rewrite Hbind in Hc. }
  destruct (destroy_run host w1 body "mercury:load" "mercury:unload" Hc)
    as (tr & reqs & Hdestroy & Hlen & Hnone);
    [subst w1; cbn; by rewrite Hdoc|subst w1; cbn; by rewrite Hthis
    |subst w1; cbn; by rewrite Hthis|].
  assert (Hback : unbound "mercury:load" "mercury:unload" (listeners w1) = listeners w).
  { subst w1. cbn [listeners set_listeners]. unfold unbound.
    repeat (apply Forall_cons in Hfresh as [? Hfresh]).
    rewrite filter_app, (filter_absent "click") by done.
    replace (filter (fun t : string => t ≠ "click")
               ["click"; "popstate"; "mercury:load"; "mercury:unload"])
      with ["popstate"; "mercury:load"; "mercury:unload"] by (by vm_compute).
    rewrite filter_app, (filter_absent "popstate") by done.
    replace (filter (fun t : string => t ≠ "popstate")
               ["popstate"; "mercury:load"; "mercury:unload"])
      with ["mercury:load"; "mercury:unload"] by (by vm_compute).
    rewrite filter_app, (filter_absent "mercury:load") by done.
    replace (filter (fun t : string => t ≠ "mercury:load")
               ["mercury:load"; "mercury:unload"])
      with ["mercury:unload"] by (by vm_compute).
    rewrite filter_app, (filter_absent "mercury:unload") by done.
    replace (filter (fun t : string => t ≠ "mercury:unload") ["mercury:unload"])
      with (@nil string) by (by vm_compute).
    apply app_nil_r. }
  eexists w1, _. split; [exact Hbind|]. split; [done|]. split; [exact Hdestroy|].
  rewrite Hback. split; [done|]. split; [subst w1; cbn; done|].
  split; [subst w1; cbn; done|].
  repeat (apply Forall_cons in Hfresh as [? Hfresh]).
  split; [done|]. split; [done|]. split; [exact Hnone|done].
Qed.

(** ** [Mercury.js]: a navigation from trigger to applied response *)

Lemma makeRequest_instance url (isPopState : bool) (callback : option StateObject) w :
  this (makeRequest url isPopState callback w).2
  = with_XHR (Some (length (requests w))) (this w)
  /\ pageOffset (makeRequest url isPopState callback w).2 = pageOffset w.
Proof.
  unfold makeRequest, bind, self, when, emit, modify, get,
    replaceHistoryStateWithScrollPosition, assign.
  by destruct (toBoolean (onNavigate (this w))).
Qed.

Lemma operational_with_XHR host (xhr : option nat) (m : Mercury) :
  operational host m -> operational host (with_XHR xhr m).
Proof. by intros (? & ? & ? & ?). Qed.

(** A request that was just issued, when its response arrives. *)
Lemma issued_then_loaded host w1 (m : Mercury) (reqs : list Request)
    (request : Request) (body : string) :
  requests w1 = reqs ++ [request] ->
  this w1 = with_XHR (Some (length reqs)) m ->
  operational host m ->
  notExcepted host m body ->
  toBoolean (onLoadDelay m) = false ->
  let w2 := step host (Load (length reqs) 200 body) w1 in
  history w2 = appliedHistory (req_url request) (req_isPopState request) (history w1)
  /\ pageOffset w2 = finalOffset (req_callback request)
  /\ trace w2
     = trace w1
       ++ DispatchEvent "mercury:unload"
          :: applyEffects (req_url request) (req_isPopState request)
               (req_callback request) "mercury:load".
Proof.
  intros Hreqs Hthis Hop Hexc Hdelay.
  assert (Hl : requests w1 !! length reqs = Some request).
  { rewrite Hreqs. by rewrite list_lookup_middle. }
  destruct (step_Load_applied host w1 (length reqs) request body Hl)
    as (Htr & Hh & _ & Ho & _).
  - rewrite Hthis. by apply operational_with_XHR.
  - by rewrite Hthis.
  - by rewrite Hthis.
  - done.
Qed.

(** X29. A click on a link from the trigger to the applied response, on
    an instance in operation without delay.  When the response with
    status 200 has been applied, the history holds the entry of the page
    that was left, rewritten with the scroll offset at the moment of the
    click, behind a new current entry for the [href] of the link; the
    entries that were ahead are gone, the depth has grown by one, and
    the page is scrolled to the top. *)
Theorem click_navigation_completes host (e : ClickEvent) w (element : Path)
    (body : string) :
  isKeyModified e = false ->
  climb (document w) (bodyOf (document w)) (rev (target e)) = Some element ->
  Some element ≠ bodyOf (document w) ->
  selectorValid host (onClickExceptionSelector (this w)) = true ->
  selects host (onClickExceptionSelector (this w)) (document w) element = false ->
  operational host (this w) ->
  notExcepted host (this w) body ->
  toBoolean (onLoadDelay (this w)) = false ->
  let href := hrefOf (document w) element in
  let w1 := step host (Click e) w in
  let w2 := step host (Load (length (requests w)) 200 body) w1 in
  requestInFlight w1 (length (requests w)) = true
  /\ history w2
     = {| past := {| entry_state :=
                       Some {| so_url := entry_url (current (history w));
                               so_scroll := Some (pageOffset w) |};
                     entry_url := entry_url (current (history w)) |}
                  :: past (history w);
          current := {| entry_state := Some {| so_url := href; so_scroll := None |};
                        entry_url := href |};
          future := [] |}
  /\ depth (history w2) = S (depth (history w))
  /\ pageOffset w2 = (0, 0)%Z.
Proof.
  intros Hkey Hclimb Hnb Hvalid Hsel Hop Hexc Hdelay. cbv zeta.
  set (w0 := set_trace (trace w ++ [PreventDefault]) w).
  destruct (supersede_shape host w0) as (more & reqs & tm & Hrun & Hlen).
  set (w1 := set_timers tm (set_requests reqs (set_trace (trace w0 ++ more) w0))) in Hrun.
  assert (Hclick : onClick host e w
                   = (Normal tt,
                      (makeRequest (hrefOf (document w) element) false None w1).2)).
  { unfold onClick. rewrite Hkey.
    unfold bind at 1. unfold get at 1. cbv beta iota. rewrite Hclimb.
    rewrite bool_decide_false by done.
    unfold bind at 1. unfold self at 1. cbv beta iota.
    unfold bind at 1, elementMatches. unfold bind at 1. unfold get at 1. cbv beta iota.
    rewrite Hvalid. cbn [ret]. rewrite Hsel.
    unfold bind at 1, emit, modify. fold w0.
    unfold bind at 1. unfold self at 1. cbv beta iota.
    unfold bind at 1. rewrite Hrun. unfold bind at 1. unfold get at 1. cbv beta iota.
    by rewrite makeRequest_run. }
  assert (Hstep : step host (Click e) w
                  = (makeRequest (hrefOf (document w) element) false None w1).2).
  { unfold step, deliver. by rewrite (listener_normal _ _ _ Hclick). }
  rewrite Hstep. replace (length (requests w)) with (length reqs) by done.
  destruct (makeRequest_rewrites_current_entry (hrefOf (document w) element) false None w1)
    as (Hh & _ & Hreqs & _).
  destruct (makeRequest_instance (hrefOf (document w) element) false None w1)
    as (Hthis & _).
  destruct (issued_then_loaded host _ (this w) reqs _ body Hreqs Hthis Hop Hexc Hdelay)
    as (Hh2 & Ho2 & _).
  split.
  { unfold requestInFlight. rewrite Hreqs. by rewrite list_lookup_middle. }
  rewrite Hh2, Ho2, Hh. by repeat split.
Qed.

(** X30. A history traversal from the trigger to the applied response,
    on an instance in operation without delay.  The engine requests the
    URL stored in the state of the destination entry; when the response
    with status 200 has been applied, the page is scrolled to the offset
    that the state carried when the popstate event fired (to the top
    when it carried none), no entry has been pushed, and the entries
    behind and ahead of the destination are as the browser left them. *)
Theorem replay_restores_scroll host (d : Direction) w (h : History)
    (state : StateObject) (body : string) :
  traverse d (history w) = Some h ->
  "popstate" ∈ listeners w ->
  entry_state (current h) = Some state ->
  operational host (this w) ->
  notExcepted host (this w) body ->
  toBoolean (onLoadDelay (this w)) = false ->
  let w1 := step host (PopState d) w in
  let w2 := step host (Load (length (requests w)) 200 body) w1 in
  (exists request,
      requests w1 !! length (requests w) = Some request
      /\ req_url request = so_url state /\ inFlight request = true)
  /\ pageOffset w2 = default (0, 0)%Z (so_scroll state)
  /\ history w2 = history w1
  /\ past (history w2) = past h /\ future (history w2) = future h
  /\ depth (history w2) = depth h.
Proof.
  intros Hh Hl Hstate Hop Hexc Hdelay. cbv zeta.
  set (wh := set_history h w).
  destruct (supersede_shape host wh) as (more & reqs & tm & Hrun & Hlen).
  set (w1 := set_timers tm (set_requests reqs (set_trace (trace wh ++ more) wh))) in Hrun.
  assert (Hpop : onPopState host (Some state) wh
                 = (Normal tt, (makeRequest (so_url state) true (Some state) w1).2)).
  { unfold onPopState. unfold bind at 1. unfold self at 1. cbv beta iota.
    unfold bind at 1. rewrite Hrun. by rewrite makeRequest_run. }
  assert (Hstep : step host (PopState d) w
                  = (makeRequest (so_url state) true (Some state) w1).2).
  { unfold step, deliver, bind at 1, get. rewrite Hh. unfold bind at 1, modify.
    rewrite bool_decide_true by done. cbn [when]. rewrite Hstate. fold wh.
    by rewrite (listener_normal _ _ _ Hpop). }
  rewrite Hstep. replace (length (requests w)) with (length reqs) by done.
  destruct (makeRequest_rewrites_current_entry (so_url state) true (Some state) w1)
    as (Hhist & _ & Hreqs & _).
  destruct (makeRequest_instance (so_url state) true (Some state) w1) as (Hthis & _).
  destruct (issued_then_loaded host _ (this w) reqs _ body Hreqs Hthis Hop Hexc Hdelay)
    as (Hh2 & Ho2 & _).
  split.
  { eexists. rewrite Hreqs. rewrite list_lookup_middle by done. by repeat split. }
  rewrite Hh2, Ho2, Hhist. by repeat split.
Qed.
(** ** Construction: when it completes and when it raises *)

Lemma shows_true (v : JsValue) : shows v = true -> showable v.
Proof. apply bool_decide_eq_true. Qed.

Lemma shows_false (v : JsValue) : shows v = false -> toString v = None.
Proof.
  intros H. apply bool_decide_eq_false in H. unfold showable in H.
  destruct (toString v); [|done]. exfalso. apply H. by eexists.
Qed.

Lemma raising_throw {A : Type} (e : Exn) : raising (throw (A := A) e).
Proof. intros w. by exists e, w. Qed.

Lemma raising_bind {A B : Type} (c : Js A) (k : A -> Js B) :
  raising c -> raising (bind c k).
Proof.
  intros Hc w. destruct (Hc w) as (e & w' & Hrun). exists e, w'.
  unfold bind. by rewrite Hrun.
Qed.

Lemma raising_after {A B : Type} (c : Js A) (k : A -> Js B) :
  benign c -> (forall a, raising (k a)) -> raising (bind c k).
Proof.
  intros Hc Hk w. destruct (Hc w) as (a & w1 & Hrun & _).
  destruct (Hk a w1) as (e & w' & Hrun'). exists e, w'.
  unfold bind. by rewrite Hrun.
Qed.

Lemma decided_bind {A B : Type} (first rest : bool) (P : B -> Prop)
    (c : Js A) (k : A -> Js B) :
  decided first (fun _ => True) c ->
  (forall a, decided rest P (k a)) ->
  decided (first && rest) P (bind c k).
Proof.
  destruct first; cbn [decided andb]; intros Hc Hk.
  - destruct rest; cbn [decided] in *.
    + by apply yields_bind.
    + by apply raising_after.
  - by apply raising_bind.
Qed.

Lemma decided_after {A B : Type} (rest : bool) (P : B -> Prop)
    (c : Js A) (k : A -> Js B) :
  benign c -> (forall a, decided rest P (k a)) -> decided rest P (bind c k).
Proof. intros Hc Hk. by apply (decided_bind true rest). Qed.

Lemma decided_report (v : JsValue) (text : string -> string) (result : JsValue) :
  decided (shows v) (fun _ => True)
    (let! shown := template v in consoleError (text shown) ;;; ret result).
Proof.
  destruct (shows v) eqn:Hv; cbn [decided].
  - apply benign_report. by apply shows_true.
  - apply raising_bind. unfold template. rewrite (shows_false v Hv).
    apply raising_throw.
Qed.

Lemma decided_validateOptionalParam (param : JsValue) (type : string)
    (fallback : JsValue) :
  decided (reportable param type) (fun _ => True)
    (validateOptionalParam param type fallback).
Proof.
  unfold validateOptionalParam, reportable.
  destruct param; try apply benign_ret;
    (destruct (String.eqb _ type); cbn [negb orb];
     [apply benign_ret
     |apply (decided_report _ (fun shown => shown +:+ " is not a " +:+ type +:+ "."))]).
Qed.

Lemma decided_validateOnLoadDelay (delayTime : JsValue) :
  decided (reportable delayTime "number") (fun _ => True)
    (validateOnLoadDelay delayTime).
Proof.
  unfold validateOnLoadDelay, reportable.
  destruct delayTime;
    cbn [typeof String.eqb Ascii.eqb Bool.eqb negb orb lessThanZero];
    try apply benign_ret;
    try apply (decided_report _ (fun shown => shown +:+ " is not a number.")).
  destruct (belowZero x); [|apply benign_ret].
  apply (benign_report _ (fun shown => shown +:+ " is less than 0.")). by eexists.
Qed.

(** *** The check of the update matrix *)

Lemma every_head_true {A : Type} (f : A -> Js bool) (x : A) (rest : list A) w :
  f x w = (Normal true, w) -> every f (x :: rest) w = every f rest w.
Proof. intros H. cbn [every]. unfold bind. by rewrite H. Qed.

Lemma every_head_false {A : Type} (f : A -> Js bool) (x : A) (rest : list A) w w' :
  f x w = (Normal false, w') -> every f (x :: rest) w = (Normal false, w').
Proof. intros H. cbn [every]. unfold bind. by rewrite H. Qed.

Lemma every_head_throw {A : Type} (f : A -> Js bool) (x : A) (rest : list A)
    (e : Exn) w w' :
  f x w = (Throw e, w') -> every f (x :: rest) w = (Throw e, w').
Proof. intros H. cbn [every]. unfold bind. by rewrite H. Qed.

Lemma isValidUpdateMatrix_head_accepted (rule : JsValue) (rest : list JsValue) w :
  acceptableRule rule = true ->
  isValidUpdateMatrix (JsArray (rule :: rest)) w = isValidUpdateMatrix (JsArray rest) w.
Proof.
  intros Hacc. unfold isValidUpdateMatrix. apply every_head_true.
  by apply rule_check_true.
Qed.

Lemma isValidUpdateMatrix_head_rejected (rule : JsValue) (rest : list JsValue) w :
  nullish rule = false ->
  acceptableRule rule = false ->
  shows (property rule "selector") = true ->
  exists message,
    isValidUpdateMatrix (JsArray (rule :: rest)) w
    = (Normal false, set_trace (trace w ++ [ConsoleError message]) w).
Proof.
  intros Hobj Hacc Hshows. apply shows_true in Hshows as [shown Hshown].
  eexists. unfold isValidUpdateMatrix. apply every_head_false.
  by apply (rule_check_false rule shown).
Qed.

Lemma isValidUpdateMatrix_head_raises (rule : JsValue) (rest : list JsValue) w :
  nullish rule = true
  \/ (acceptableRule rule = false /\ shows (property rule "selector") = false) ->
  exists message,
    isValidUpdateMatrix (JsArray (rule :: rest)) w = (Throw (TypeError message), w).
Proof.
  intros Hrule.
  destruct (nullish rule) eqn:Hobj.
  { eexists. unfold isValidUpdateMatrix. apply every_head_throw.
    unfold bind at 1, requireObjectCoercible. by rewrite Hobj. }
  destruct Hrule as [?|[Hacc Hshows]]; [done|].
  apply shows_false in Hshows.
  eexists. unfold isValidUpdateMatrix. apply every_head_throw.
  unfold bind at 1, requireObjectCoercible. rewrite Hobj. cbv zeta. cbn [ret].
  destruct (property rule "selector") eqn:Hsel; try done;
    cbn [typeof String.eqb negb Ascii.eqb Bool.eqb];
    unfold bind, template; rewrite Hshows; reflexivity.
Qed.

Lemma isValidUpdateMatrix_verdict (matrix : JsValue) w :
  match matrixVerdict matrix with
  | Accepts => isValidUpdateMatrix matrix w = (Normal true, w)
  | Rejects =>
      exists message,
        isValidUpdateMatrix matrix w
        = (Normal false, set_trace (trace w ++ [ConsoleError message]) w)
  | Raises => exists e, isValidUpdateMatrix matrix w = (Throw e, w)
  end.
Proof.
  destruct matrix as [| | | | | | |rules|]; cbn [matrixVerdict]; try (by eexists).
  induction rules as [|rule rest IH]; cbn [rulesVerdict]; [done|].
  destruct (nullish rule) eqn:Hobj.
  { destruct (isValidUpdateMatrix_head_raises rule rest w) as [message Hrun];
      [by left|by eexists]. }
  destruct (acceptableRule rule) eqn:Hacc.
  { by rewrite (isValidUpdateMatrix_head_accepted rule rest w Hacc). }
  destruct (shows (property rule "selector")) eqn:Hshows.
  - by apply isValidUpdateMatrix_head_rejected.
  - destruct (isValidUpdateMatrix_head_raises rule rest w) as [message Hrun];
      [by right|by eexists].
Qed.

(** *** The exceptions *)

Lemma decided_clickExceptions (onClickExceptions : JsValue) :
  decided
    (match onClickExceptions with
     | JsArray items => bool_decide (is_Some (join "," (BASE_ON_CLICK_EXCEPTIONS ++ items)))
     | _ => true
     end)
    (fun _ => True)
    (if isArray onClickExceptions then
       match join "," (BASE_ON_CLICK_EXCEPTIONS ++ itemsOf onClickExceptions) with
       | Some s => assign (with_onClickExceptionSelector s)
       | None => throw (TypeError "Cannot convert the value to a string")
       end
     else
       match join "," BASE_ON_CLICK_EXCEPTIONS with
       | Some s => assign (with_onClickExceptionSelector s)
       | None => throw (TypeError "Cannot convert the value to a string")
       end).
Proof.
  assert (Hbase : exists s, join "," BASE_ON_CLICK_EXCEPTIONS = Some s)
    by (vm_compute; by eexists).
  destruct Hbase as [base Hbase].
  destruct onClickExceptions as [| | | | | | |items|]; cbn [isArray itemsOf decided];
    try (rewrite Hbase; apply benign_assign).
  destruct (join "," (BASE_ON_CLICK_EXCEPTIONS ++ items)) as [s|].
  - rewrite bool_decide_true by (by eexists). apply benign_assign.
  - rewrite bool_decide_false by (by intros [? ?]). apply raising_throw.
Qed.

Lemma decided_requestExceptions host (onRequestExceptions : JsValue) :
  decided
    (match onRequestExceptions with
     | JsArray [] => true
     | JsArray items => from_option (regExpValid host) false (join "|" items)
     | _ => true
     end)
    (fun _ => True)
    (when (isArray onRequestExceptions
           && negb (length (itemsOf onRequestExceptions) =? 0))
       (match join "|" (itemsOf onRequestExceptions) with
        | Some pattern =>
            let! regex := newRegExp host pattern in
            assign (with_onRequestExceptionRegex (Some regex))
        | None => throw (TypeError "Cannot convert the value to a string")
        end)).
Proof.
  destruct onRequestExceptions as [| | | | | | |items|];
    cbn [isArray itemsOf andb when decided]; try apply benign_ret.
  destruct items as [|item items']; [apply benign_ret|].
  cbn [length Nat.eqb negb when].
  destruct (join "|" (item :: items')) as [pattern|]; cbn [from_option];
    [|apply raising_throw].
  unfold newRegExp. destruct (regExpValid host pattern); cbn [decided].
  - apply benign_bind; [apply benign_ret|]. intros regex. apply benign_assign.
  - apply raising_bind, raising_throw.
Qed.

(** *** The constructor *)

Lemma validateAndAssignConfig_decided host (config : JsValue) :
  nullish config = false ->
  matrixVerdict (property config "updateMatrix") = Accepts ->
  decided (optionsPass config && exceptionsJoin host config) (fun valid => valid = true)
    (validateAndAssignConfig host config).
Proof.
  intros Hobject Hverdict.
  assert (Hmatrix : forall w,
            isValidUpdateMatrix (property config "updateMatrix") w = (Normal true, w)).
  { intros w. pose proof (isValidUpdateMatrix_verdict (property config "updateMatrix") w)
      as H. by rewrite Hverdict in H. }
  set (ok := optionsPass config && exceptionsJoin host config).
  assert (Htail :
            exists tail : Js bool,
              (forall w, validateAndAssignConfig host config w = tail w)
              /\ decided ok (fun valid => valid = true) tail).
  { eexists. split.
    - intros w. unfold validateAndAssignConfig, requireObjectCoercible.
      rewrite Hobject. unfold bind at 1. cbn [ret]. cbv zeta. unfold bind at 1.
      rewrite Hmatrix. cbn [negb]. reflexivity.
    - replace ok with
        (reportable (property config "timeout") "number"
         && (reportable (property config "enableCache") "boolean"
             && (reportable (property config "onLoad") "function"
                 && (reportable (property config "onUnload") "function"
                     && (reportable (property config "onNavigate") "function"
                         && (reportable (property config "onLoadDelay") "number"
                             && (match propertyOr config "onClickExceptions" (JsArray [])
                                 with
                                 | JsArray items =>
                                     bool_decide
                                       (is_Some
                                          (join "," (BASE_ON_CLICK_EXCEPTIONS ++ items)))
                                 | _ => true
                                 end
                                 && (match propertyOr config "onRequestExceptions"
                                             (JsArray [])
                                     with
                                     | JsArray [] => true
                                     | JsArray items =>
                                         from_option (regExpValid host) false
                                           (join "|" items)
                                     | _ => true
                                     end && true))))))))
        by (subst ok; unfold optionsPass, exceptionsJoin;
            rewrite andb_true_r, <- !andb_assoc; reflexivity).
      apply decided_after; [apply benign_assign|]. intros _.
      apply decided_bind; [apply decided_validateOptionalParam|]. intros v1.
      apply decided_after; [apply benign_assign|]. intros _.
      apply decided_bind; [apply decided_validateOptionalParam|]. intros v2.
      apply decided_after; [apply benign_assign|]. intros _.
      apply decided_bind; [apply decided_validateOptionalParam|]. intros v3.
      apply decided_after; [apply benign_assign|]. intros _.
      apply decided_bind; [apply decided_validateOptionalParam|]. intros v4.
      apply decided_after; [apply benign_assign|]. intros _.
      apply decided_bind; [apply decided_validateOptionalParam|]. intros v5.
      apply decided_after; [apply benign_assign|]. intros _.
      apply decided_bind; [apply decided_validateOnLoadDelay|]. intros v6.
      apply decided_after; [apply benign_assign|]. intros _.
      apply decided_bind; [apply decided_clickExceptions|]. intros _.
      apply decided_bind; [apply decided_requestExceptions|]. intros _.
      by apply yields_ret. }
  destruct Htail as (tail & Hsame & Htail).
  destruct ok; cbn [decided] in *.
  - intros w. rewrite Hsame. apply Htail.
  - intros w. rewrite Hsame. apply Htail.
Qed.

(** The constructor completes exactly when [completes] says so; when it
    completes, it has either logged one diagnostic and changed nothing
    else, or bound its listeners. *)
Lemma construct_outcome host (config : JsValue) w :
  if completes host config w then
    exists w',
      construct host config w = (Normal tt, w')
      /\ ((exists message, w' = set_trace (trace w ++ [ConsoleError message]) w)
          \/ Forall (fun type => type ∈ listeners w')
                    ["click"; "popstate"; "mercury:load"; "mercury:unload"])
  else exists e w', construct host config w = (Throw e, w').
Proof.
  unfold completes, capable, construct.
  destruct (hasHistory host); [|eexists; split; [done|left; by eexists]].
  destruct (hasPushState host); [|eexists; split; [done|left; by eexists]].
  destruct (hasQuerySelector host); [|eexists; split; [done|left; by eexists]].
  cbn [negb orb andb].
  destruct (nullish config) eqn:Hobject; cbn [negb andb].
  { unfold bind at 1, validateAndAssignConfig, bind at 1, requireObjectCoercible.
    rewrite Hobject. by eexists _, _. }
  pose proof (isValidUpdateMatrix_verdict (property config "updateMatrix") w) as Hmatrix.
  destruct (matrixVerdict (property config "updateMatrix")) eqn:Hverdict.
  - pose proof (validateAndAssignConfig_decided host config Hobject Hverdict) as Hv.
    destruct (optionsPass config && exceptionsJoin host config); cbn [decided andb] in *.
    2:{ destruct (Hv w) as (e & w' & Hrun). exists e, w'.
        unfold bind at 1. by rewrite Hrun. }
    destruct (Hv w) as (valid & w1 & Hrun & (tr & m & ->) & ->).
    destruct (hasCustomEvent host) eqn:Hevent; cbn [andb].
    + destruct (bodyOf (document w)) as [body|] eqn:Hbody.
      * rewrite bool_decide_true by (by eexists).
        unfold bind at 1. rewrite Hrun. cbn [negb].
        unfold newCustomEvent. rewrite Hevent.
        unfold bind at 1, when, modify, ret.
        destruct (hasScrollRestoration host);
          unfold bind at 1; unfold self at 1; cbv beta iota;
          unfold bind at 1, assign, modify;
          (match goal with
           | |- context [toBoolean ?v] => destruct (toBoolean v)
           end);
          unfold bind at 1; unfold bind at 1; unfold bind at 1; unfold bind at 1;
          match goal with
          | |- context [bindListeners ?w3] =>
              destruct (bindListeners_binds w3 body) as (w4 & Hbind & Hl);
              [exact Hbody|reflexivity|reflexivity|];
              exists w4; split; [exact Hbind|by right]
          end.
      * rewrite bool_decide_false by (by intros [? ?]).
        unfold bind at 1. rewrite Hrun. cbn [negb].
        unfold newCustomEvent. rewrite Hevent.
        unfold bind at 1, when, modify, ret.
        destruct (hasScrollRestoration host);
          unfold bind at 1; unfold self at 1; cbv beta iota;
          unfold bind at 1, assign, modify;
          (match goal with
           | |- context [toBoolean ?v] => destruct (toBoolean v)
           end);
          unfold bind at 1; unfold bind at 1; unfold bind at 1; unfold bind at 1;
          unfold bindListeners, bind at 1, documentBody, bind at 1, get;
          cbn [document set_this set_trace set_scrollRestoration];
          rewrite Hbody; by eexists _, _.
    + unfold bind at 1. rewrite Hrun. cbn [negb].
      unfold newCustomEvent. rewrite Hevent.
      unfold bind at 1, when, modify, ret.
      destruct (hasScrollRestoration host);
        unfold bind at 1; unfold self at 1; cbv beta iota;
        unfold bind at 1, assign, modify;
        (match goal with
         | |- context [toBoolean ?v] => destruct (toBoolean v)
         end);
        unfold bind at 1; by eexists _, _.
  - destruct Hmatrix as [message Hrun].
    unfold bind at 1, validateAndAssignConfig, bind at 1, requireObjectCoercible.
    rewrite Hobject. cbn [ret]. cbv zeta. unfold bind at 1. rewrite Hrun. cbn [negb ret].
    eexists. split; [done|]. left. by eexists.
  - destruct Hmatrix as [e Hrun].
    unfold bind at 1, validateAndAssignConfig, bind at 1, requireObjectCoercible.
    rewrite Hobject. cbn [ret]. cbv zeta. unfold bind at 1. rewrite Hrun.
    by eexists _, _.
Qed.


(** The cases left out of the amended claim are the cases in which the
    constructor raises. *)
Lemma construct_raises_otherwise host (config : JsValue) w :
  completes host config w = false ->
  exists e w', construct host config w = (Throw e, w').
Proof.
  intros Hcompletes. pose proof (construct_outcome host config w) as H.
  by rewrite Hcompletes in H.
Qed.

(** * The theorems at work on the demo page *)

Lemma at_most_one_navigation_in_flight_witness :
  requests Demo.page = [] /\ timers Demo.page = []
  /\ run Demo.demoHost [Click (Demo.plainClick Demo.link)]
       (construct Demo.demoHost Demo.feedConfig Demo.page).2 = Some Demo.clicked
  /\ (forall x y, requestInFlight Demo.clicked x = true ->
                  requestInFlight Demo.clicked y = true -> x = y)
  /\ requestInFlight Demo.clicked 0 = true.
Proof.
  assert (Hrun : run Demo.demoHost [Click (Demo.plainClick Demo.link)]
                   (construct Demo.demoHost Demo.feedConfig Demo.page).2
                 = Some Demo.clicked) by (vm_compute; reflexivity).
  split; [reflexivity|]. split; [reflexivity|]. split; [exact Hrun|].
  split; [|reflexivity].
  exact (proj1 (at_most_one_navigation_in_flight Demo.demoHost Demo.feedConfig
                  Demo.page [Click (Demo.plainClick Demo.link)] Demo.clicked
                  eq_refl eq_refl Hrun)).
Defined.

Lemma failed_request_full_navigation_witness :
  requests Demo.clicked !! 0 = Some Demo.requestForB
  /\ inFlight Demo.requestForB = true
  /\ trace (step Demo.demoHost (Load 0 404 "Not Found") Demo.clicked)
     = trace Demo.clicked ++ [LocationAssign "/b"].
Proof.
  split; [reflexivity|]. split; [reflexivity|].
  destruct (failed_request_full_navigation Demo.demoHost Demo.clicked 0 Demo.requestForB
              eq_refl eq_refl) as [Hload _].
  destruct (Hload 404%Z "Not Found" ltac:(lia)) as (_ & _ & _ & Htrace).
  exact Htrace.
Defined.

Lemma patch_replaces_attributes_witness :
  let w := Demo.constructed Demo.cachingConfig in
  let newDoc := Demo.demoPage "fresh" in
  isSet (updateAttrs Demo.bodyRule) = true
  /\ (querySelector Demo.demoHost "body" w).1 = Normal (Some [0; 1])
  /\ (querySelectorIn Demo.demoHost newDoc "body" w).1 = Normal (Some [0; 1])
  /\ NoDup (attributesOf (Elem "body" [("class", "served")] [])).*1
  /\ exists w',
       patch Demo.demoHost newDoc "/b" Demo.bodyRule w = (Normal tt, w')
       /\ attributesOf <$> nodeAt (document w') [0; 1] = Some [("class", "served")].
Proof.
  cbv zeta. split; [reflexivity|]. split; [reflexivity|]. split; [reflexivity|].
  assert (Hnd : forall kids,
             NoDup (attributesOf (Elem "body" [("class", "served")] kids)).*1).
  { intros kids. simpl. apply NoDup_singleton. }
  split; [apply Hnd|].
  destruct (patch_replaces_attributes Demo.demoHost (Demo.demoPage "fresh") "/b"
              Demo.bodyRule (Demo.constructed Demo.cachingConfig) [0; 1] [0; 1]
              (Elem "body" [("class", "served")]
                 [ Elem "div" [("id", "feed"); ("data-page", "fresh")] [TextNode "fresh"];
                   Elem "a" [("href", "/b")] [TextNode "next"] ])
              eq_refl eq_refl eq_refl eq_refl (Hnd _)
              (fun _ => ex_intro _ ∅ eq_refl))
    as (w' & tag & oldAttributes & oldChildren & newChildren & Hrun & _ & Hnew & _).
  exists w'. split; [exact Hrun|]. by rewrite Hnew.
Defined.


(** The two configurations of the witness at work: the first is
    rejected at its first rule, before the rule that is [null] is
    reached; the second is accepted, its timeout reported and replaced
    by the default.  Three configurations for which the constructor
    raises. *)
Example construct_examples :
  construct Demo.demoHost
    (JsObject [("updateMatrix",
                JsArray [JsObject [("selector", JsNumber (integer 1))]; JsNull])])
    Demo.page
  = (Normal tt, set_trace [ConsoleError "1 is not a valid selector."] Demo.page)
  /\ (let w' :=
        (construct Demo.demoHost
           (JsObject [("updateMatrix",
                       JsArray [Demo.rule "#feed" (JsBoolean true) JsUndefined]);
                      ("timeout", JsString "soon");
                      ("onRequestExceptions", JsNull)])
           Demo.page).2 in
      trace w' = [ConsoleError "soon is not a number."]
      /\ timeout (this w') = JsNumber (integer 5000)
      /\ listeners w' = ["click"; "popstate"; "mercury:load"; "mercury:unload"])
  /\ completes Demo.demoHost
       (JsObject [("updateMatrix", JsArray [JsNull])]) Demo.page = false
  /\ completes Demo.demoHost
       (JsObject [("updateMatrix", JsArray []);
                  ("onClickExceptions", JsArray [JsSymbol "s"])]) Demo.page = false
  /\ completes Demo.demoHost
       (JsObject [("updateMatrix", JsArray []);
                  ("onRequestExceptions", JsArray [JsString "("])]) Demo.page = false.
Proof. by vm_compute. Qed.

Lemma commitCacheEntry_requires_live_element_witness :
  let w := Demo.constructed Demo.cachingConfig in
  toBoolean (enableCache (this w)) = true
  /\ cache (this w) = Some ∅
  /\ commitCacheEntry Demo.demoHost "" "#feed" w = (Normal tt, w)
  /\ exists message,
       (commitCacheEntry Demo.demoHost "/b" "#missing" w).1 = Throw (TypeError message).
Proof.
  cbv zeta. split; [reflexivity|]. split; [reflexivity|].
  destruct (commitCacheEntry_requires_live_element Demo.demoHost
              (Demo.constructed Demo.cachingConfig) "/b" "#missing" ∅ eq_refl eq_refl)
    as [_ Hraise].
  destruct (commitCacheEntry_requires_live_element Demo.demoHost
              (Demo.constructed Demo.cachingConfig) "" "#feed" ∅ eq_refl eq_refl)
    as [Hnoop _].
  split; [apply Hnoop; by left|].
  destruct (Hraise ltac:(done) ltac:(done) eq_refl) as [message Hrun].
  exists message. by rewrite Hrun.
Defined.

(** * The further properties at work *)

Lemma validateOptionalParam_typed_witness :
  typeof (JsNumber (integer 5000)) = "number"
  /\ validateOptionalParam (JsString "5") "number" (JsNumber (integer 5000)) Demo.page
     = (Normal (JsNumber (integer 5000)),
        set_trace [ConsoleError "5 is not a number."] Demo.page).
Proof.
  split; [reflexivity|].
  destruct (validateOptionalParam_typed (JsString "5") "number" (JsNumber (integer 5000))
              Demo.page eq_refl)
    as [(v & w' & Hrun & _ & _ & Hv & _ & Hw)|(_ & _ & Hshown & _)]; [|done].
  destruct (Hw ltac:(done) ltac:(done)) as (shown & [= <-] & ->).
  by rewrite Hrun, Hv.
Defined.

(** The delay at work: a negative delay, a fraction, NaN, and a delay
    that is not a number. *)
Example validateOnLoadDelay_examples :
  validateOnLoadDelay (JsNumber (integer (-100))) Demo.page
  = (Normal (JsNumber (integer 0)),
     set_trace [ConsoleError "-100 is less than 0."] Demo.page)
  /\ validateOnLoadDelay (JsNumber (number 1 (-1))) Demo.page
     = (Normal (JsNumber (number 1 (-1))), Demo.page)
  /\ validateOnLoadDelay (JsNumber S754_nan) Demo.page
     = (Normal (JsNumber S754_nan), Demo.page)
  /\ validateOnLoadDelay (JsString "soon") Demo.page
     = (Normal (JsNumber (integer 0)),
        set_trace [ConsoleError "soon is not a number."] Demo.page).
Proof. by vm_compute. Qed.

Lemma validation_of_symbol_raises_witness :
  "number" ≠ "symbol"
  /\ exists message,
       validateOptionalParam (JsSymbol "s") "number" (JsNumber (integer 5000)) Demo.page
       = (Throw (TypeError message), Demo.page).
Proof.
  assert (Hne : "number" ≠ "symbol") by done.
  split; [exact Hne|].
  exact (proj1 (validation_of_symbol_raises "s" "number" (JsNumber (integer 5000)) Demo.page Hne)).
Defined.

Lemma isValidUpdateMatrix_reports_first_invalid_witness :
  let good := [Demo.rule "#feed" (JsBoolean true) JsUndefined] in
  let bad := JsObject [("selector", JsNumber (integer 1234))] in
  forallb acceptableRule good = true
  /\ nullish bad = false
  /\ toString (property bad "selector") = Some "1234"
  /\ acceptableRule bad = false
  /\ isValidUpdateMatrix (JsArray (good ++ bad :: [JsNull])) Demo.page
     = (Normal false,
        set_trace [ConsoleError "1234 is not a valid selector."] Demo.page).
Proof.
  cbv zeta. split; [reflexivity|]. split; [reflexivity|].
  split; [by vm_compute|]. split; [reflexivity|].
  exact (proj1 (isValidUpdateMatrix_reports_first_invalid
                  [Demo.rule "#feed" (JsBoolean true) JsUndefined]
                  (JsObject [("selector", JsNumber (integer 1234))]) [JsNull] "1234" Demo.page
                  eq_refl eq_refl ltac:(by vm_compute) eq_refl)).
Defined.

Lemma replaceScript_appends_new_script_witness :
  let reference := Elem "script" [("src", "/new.js")] [TextNode "run()"] in
  [0; 1] ≠ []
  /\ nodeAt (document Demo.page) [0; 1]
     = Some (Elem "body" [("class", "live"); ("data-old", "1")]
               [ Elem "div" [("id", "feed")] [];
                 Elem "a" [("href", "/b")] [TextNode "next"] ])
  /\ NoDup [("id", "feed")].*1
  /\ exists doc,
       replaceScript Demo.demoHost ([0; 1] ++ [0]) reference Demo.page
       = (Normal tt, set_document doc Demo.page)
       /\ childrenOf <$> nodeAt doc [0; 1]
          = Some [ Elem "a" [("href", "/b")] [TextNode "next"];
                   Elem "script" [("id", "feed")] [TextNode "run()"] ].
Proof.
  cbv zeta.
  assert (Hp : [0; 1] ≠ @nil nat) by done.
  assert (Hnd : NoDup [("id", "feed")].*1) by (apply NoDup_singleton).
  split; [exact Hp|]. split; [reflexivity|]. split; [exact Hnd|].
  destruct (replaceScript_appends_new_script Demo.demoHost [0; 1] 0
              (Elem "script" [("src", "/new.js")] [TextNode "run()"]) Demo.page
              "body" [("class", "live"); ("data-old", "1")]
              [ Elem "div" [("id", "feed")] [];
                Elem "a" [("href", "/b")] [TextNode "next"] ]
              "div" [("id", "feed")] [] Hp eq_refl eq_refl Hnd)
    as ((doc & Hrun & Hdoc) & _).
  exists doc. split; [exact Hrun|]. by rewrite Hdoc.
Defined.

Lemma updateDOM_completes_witness :
  let w := Demo.constructed Demo.feedConfig in
  Forall (fun rule => selectorValid Demo.demoHost (selector rule) = true)
         (updateMatrix (this w))
  /\ (toBoolean (enableCache (this w)) = true -> is_Some (cache (this w)))
  /\ exists doc,
       updateDOM Demo.demoHost "/b" "fresh" w
       = (Normal tt,
          set_trace (trace w ++ [ScrollTo 0 0])
            (set_pageOffset (0, 0)%Z (set_document doc w))).
Proof.
  cbv zeta.
  assert (Hvalid : Forall (fun rule => selectorValid Demo.demoHost (selector rule) = true)
                     (updateMatrix (this (Demo.constructed Demo.feedConfig))))
    by (repeat constructor).
  assert (Hready : toBoolean (enableCache (this (Demo.constructed Demo.feedConfig))) = true ->
                   is_Some (cache (this (Demo.constructed Demo.feedConfig))))
    by (intros H; vm_compute in H; discriminate H).
  split; [exact Hvalid|]. split; [exact Hready|].
  destruct (updateDOM_completes Demo.demoHost "/b" "fresh"
              (Demo.constructed Demo.feedConfig) Hvalid Hready) as (doc & Hrun & _).
  by exists doc.
Defined.

Lemma updateDOM_stops_at_invalid_selector_witness :
  let w := Demo.constructed Tour.mixedConfig in
  updateMatrix (this w)
  = [Tour.feedRule]
    ++ {| selector := "div["; updateHTML := Some true; updateAttrs := None |}
       :: [Tour.titleRule]
  /\ selectorValid Demo.demoHost "div[" = false
  /\ exists doc message,
       updateDOM Demo.demoHost "/b" "fresh" w
       = (Throw (SyntaxError message), set_document doc w)
       /\ childrenOf <$> nodeAt doc Demo.feed = Some [TextNode "fresh"]
       /\ childrenOf <$> nodeAt doc Tour.titleElement = Some [TextNode "A"].
Proof.
  cbv zeta. split; [reflexivity|]. split; [reflexivity|].
  destruct (updateDOM_stops_at_invalid_selector Demo.demoHost "/b" "fresh"
              (Demo.constructed Tour.mixedConfig) [Tour.feedRule]
              {| selector := "div["; updateHTML := Some true; updateAttrs := None |}
              [Tour.titleRule] eq_refl ltac:(repeat constructor) eq_refl
              ltac:(intros H; vm_compute in H; discriminate H))
    as (doc & message & Hgood & Hrun).
  exists doc, message. split; [exact Hrun|].
  vm_compute in Hgood. injection Hgood as <-. by vm_compute.
Defined.

Lemma patch_without_updateAttrs_witness :
  let w := Demo.constructed Demo.feedConfig in
  let newDoc := Demo.demoPage "fresh" in
  isSet (updateAttrs Tour.feedRule) = false
  /\ (querySelector Demo.demoHost "#feed" w).1 = Normal (Some Demo.feed)
  /\ (querySelectorIn Demo.demoHost newDoc "#feed" w).1 = Normal (Some Demo.feed)
  /\ exists doc,
       patch Demo.demoHost newDoc "/b" Tour.feedRule w = (Normal tt, set_document doc w)
       /\ nodeAt doc Demo.feed = Some (Elem "div" [("id", "feed")] [TextNode "fresh"]).
Proof.
  cbv zeta. split; [reflexivity|]. split; [reflexivity|]. split; [reflexivity|].
  destruct (patch_without_updateAttrs Demo.demoHost (Demo.demoPage "fresh") "/b"
              Tour.feedRule (Demo.constructed Demo.feedConfig) Demo.feed Demo.feed
              (Elem "div" [("id", "feed"); ("data-page", "fresh")] [TextNode "fresh"])
              eq_refl eq_refl eq_refl eq_refl
              ltac:(intros H; vm_compute in H; discriminate H))
    as [_ Hhtml].
  destruct (Hhtml eq_refl) as (cached & tag & attrs & old & doc & Hc & Hlive & Hrun & Hdoc).
  exists doc. split; [exact Hrun|].
  vm_compute in Hc. injection Hc as <-.
  vm_compute in Hlive. injection Hlive as <- <- <-. exact Hdoc.
Defined.

Lemma cache_round_trip_witness :
  let w := Demo.constructed Demo.cachingConfig in
  let v := Tour.withPromoCached in
  (plainKey "/b" = true /\ plainKey "title" = true
   /\ toBoolean (enableCache (this w)) = true
   /\ cache (this w) = Some ∅
   /\ (querySelector Demo.demoHost "title" w).1 = Normal (Some Tour.titleElement)
   /\ serialize Demo.demoHost [TextNode "A"] ≠ ""
   /\ exists w1,
        commitCacheEntry Demo.demoHost "/b" "title" w = (Normal tt, w1)
        /\ exists w3,
             patch Demo.demoHost (Demo.demoPage "fresh") "/b" Tour.titleRule w1
             = (Normal tt, w3)
             /\ childrenOf <$> nodeAt (document w3) Tour.titleElement
                = Some [TextNode "A"])
  /\ (plainKey "aside" = true
      /\ (querySelector Demo.demoHost "aside" v).1 = Normal (Some Tour.promo)
      /\ serialize Demo.demoHost [TextNode "sale"] ≠ ""
      /\ exists v1,
           commitCacheEntry Demo.demoHost "/b" "aside" v = (Normal tt, v1)
           /\ (querySelectorIn Demo.demoHost (Demo.demoPage "fresh") "aside" v1).1
              = Normal None
           /\ patch Demo.demoHost (Demo.demoPage "fresh") "/b" Tour.promoRule v1
              = (Normal tt, set_document (removeAt (document v1) Tour.promo) v1)
           /\ nodeAt (removeAt (document v1) Tour.promo) Tour.promo = None).
Proof.
  cbv zeta.
  assert (Hmarkup : serialize Demo.demoHost [TextNode "A"] ≠ "") by (by vm_compute).
  assert (Hsale : serialize Demo.demoHost [TextNode "sale"] ≠ "") by (by vm_compute).
  split.
  - split; [reflexivity|]. split; [reflexivity|].
    split; [reflexivity|]. split; [reflexivity|]. split; [reflexivity|].
    split; [exact Hmarkup|].
    destruct (cache_round_trip Demo.demoHost (Demo.constructed Demo.cachingConfig)
                "/b" "title" ∅ Tour.titleElement (Elem "title" [] [TextNode "A"])
                eq_refl eq_refl eq_refl eq_refl ltac:(done) ltac:(done) eq_refl eq_refl
                Hmarkup)
      as (w1 & Hrun & Hdoc & Hlater).
    exists w1. split; [exact Hrun|].
    pose proof (f_equal snd Hrun) as Hw1. cbn [snd] in Hw1.
    destruct (Hlater w1 (Demo.demoPage "fresh") Tour.titleRule Tour.titleElement)
      as [Hwins _]; try reflexivity; try (rewrite <- Hw1; reflexivity).
    apply (Hwins Tour.titleElement (Elem "title" [] [TextNode "fresh"]));
      try reflexivity; rewrite <- Hw1; reflexivity.
  - split; [reflexivity|]. split; [reflexivity|]. split; [exact Hsale|].
    destruct (cache_round_trip Demo.demoHost Tour.withPromoCached
                "/b" "aside" ∅ Tour.promo (Elem "aside" [("id", "promo")] [TextNode "sale"])
                eq_refl eq_refl eq_refl eq_refl ltac:(done) ltac:(done) eq_refl eq_refl
                Hsale)
      as (v1 & Hrun & Hdoc & Hlater).
    exists v1. pose proof (f_equal snd Hrun) as Hv1. cbn [snd] in Hv1.
    assert (Hnone : (querySelectorIn Demo.demoHost (Demo.demoPage "fresh") "aside" v1).1
                    = Normal None) by reflexivity.
    split; [exact Hrun|]. split; [exact Hnone|]. split.
    + refine (proj2 (Hlater v1 (Demo.demoPage "fresh") Tour.promoRule Tour.promo
                       _ _ _ _ _) Hnone);
        try reflexivity; rewrite <- Hv1; reflexivity.
    + rewrite Hdoc. reflexivity.
Defined.

Lemma commitCacheEntry_writes_one_entry_witness :
  let w := Demo.constructed Demo.cachingConfig in
  plainKey "/b" = true /\ plainKey "title" = true /\ plainKey "#feed" = true
  /\ toBoolean (enableCache (this w)) = true
  /\ cache (this w) = Some ∅
  /\ (querySelector Demo.demoHost "title" w).1 = Normal (Some Tour.titleElement)
  /\ exists stored : gmap string (gmap string string),
       commitCacheEntry Demo.demoHost "/b" "title" w
       = (Normal tt, set_this (with_cache (Some stored) (this w)) w)
       /\ stored !! "/b" ≫= (.!! "title") = Some "A"
       /\ stored !! "/b" ≫= (.!! "#feed") = None.
Proof.
  cbv zeta. split; [reflexivity|]. split; [reflexivity|]. split; [reflexivity|].
  split; [reflexivity|]. split; [reflexivity|]. split; [reflexivity|].
  destruct (commitCacheEntry_writes_one_entry Demo.demoHost
              (Demo.constructed Demo.cachingConfig) "/b" "title" ∅ Tour.titleElement
              (Elem "title" [] [TextNode "A"])
              eq_refl eq_refl eq_refl eq_refl ltac:(done) ltac:(done) eq_refl eq_refl)
    as (stored & Hrun & Hentry & Hothers).
  exists stored. split; [exact Hrun|]. split; [exact Hentry|].
  by rewrite (Hothers "/b" "#feed").
Defined.

Lemma onClick_leaves_alone_witness :
  let w := Demo.constructed Demo.feedConfig in
  isKeyModified Tour.controlClick = true
  /\ onClick Demo.demoHost Tour.controlClick w = (Normal tt, w).
Proof.
  cbv zeta. split; [reflexivity|].
  apply (onClick_leaves_alone Demo.demoHost Tour.controlClick
           (Demo.constructed Demo.feedConfig)).
  left. reflexivity.
Defined.

Lemma onClick_requests_href_witness :
  let w := Demo.constructed Demo.feedConfig in
  let e := Demo.plainClick Demo.link in
  isKeyModified e = false
  /\ climb (document w) (bodyOf (document w)) (rev (target e)) = Some Demo.link
  /\ Some Demo.link ≠ bodyOf (document w)
  /\ selectorValid Demo.demoHost (onClickExceptionSelector (this w)) = true
  /\ selects Demo.demoHost (onClickExceptionSelector (this w)) (document w) Demo.link
     = false
  /\ exists w', onClick Demo.demoHost e w = (Normal tt, w')
                /\ requests w' = [Demo.requestForB].
Proof.
  cbv zeta.
  assert (Hnb : Some Demo.link ≠ bodyOf (document (Demo.constructed Demo.feedConfig)))
    by (by vm_compute).
  split; [reflexivity|]. split; [reflexivity|]. split; [exact Hnb|].
  split; [reflexivity|]. split; [reflexivity|].
  destruct (onClick_requests_href Demo.demoHost (Demo.plainClick Demo.link)
              (Demo.constructed Demo.feedConfig) Demo.link
              eq_refl eq_refl Hnb eq_refl eq_refl)
    as (w' & reqs & between & Hrun & _ & _ & Hlen & Hreqs & _).
  exists w'. split; [exact Hrun|].
  destruct reqs as [|r reqs]; [exact Hreqs|]. simpl in Hlen. discriminate Hlen.
Defined.

Lemma onClick_invalid_exception_selector_witness :
  let e := Demo.plainClick Demo.link in
  isKeyModified e = false
  /\ climb (document Tour.brokenExceptions) (bodyOf (document Tour.brokenExceptions))
       (rev (target e)) = Some Demo.link
  /\ Some Demo.link ≠ bodyOf (document Tour.brokenExceptions)
  /\ selectorValid Demo.demoHost (onClickExceptionSelector (this Tour.brokenExceptions))
     = false
  /\ exists message,
       step Demo.demoHost (Click e) Tour.brokenExceptions
       = set_trace (trace Tour.brokenExceptions
                    ++ [UncaughtException (SyntaxError message)])
           Tour.brokenExceptions.
Proof.
  cbv zeta.
  assert (Hnb : Some Demo.link ≠ bodyOf (document Tour.brokenExceptions))
    by (by vm_compute).
  split; [reflexivity|]. split; [reflexivity|]. split; [exact Hnb|].
  split; [reflexivity|].
  destruct (onClick_invalid_exception_selector Demo.demoHost (Demo.plainClick Demo.link)
              Tour.brokenExceptions Demo.link eq_refl eq_refl Hnb eq_refl)
    as (message & _ & Hstep).
  by exists message.
Defined.

Lemma onPopState_supersedes_pending_request_witness :
  let state := {| so_url := "/a"; so_scroll := None |} in
  XHR (this Demo.clicked) = Some 0
  /\ requests Demo.clicked !! 0 = Some Demo.requestForB
  /\ inFlight Demo.requestForB = true
  /\ exists rest,
       trace (onPopState Demo.demoHost (Some state) Demo.clicked).2
       = trace Demo.clicked
         ++ XhrAbort 0 :: [LocationAssign "/b"] ++ rest ++ [XhrSend 1 "/a"].
Proof.
  cbv zeta. split; [reflexivity|]. split; [reflexivity|]. split; [reflexivity|].
  destruct (onPopState_supersedes_pending_request Demo.demoHost
              {| so_url := "/a"; so_scroll := None |} Demo.clicked 0 Demo.requestForB
              eq_refl eq_refl eq_refl) as (rest & Htrace & _).
  exists rest. exact Htrace.
Defined.

Lemma operational_clicked (config : JsValue) :
  updateMatrix (this (Tour.clickedWith config)) = [Tour.feedRule] ->
  enableCache (this (Tour.clickedWith config)) = JsBoolean false ->
  loadEvent (this (Tour.clickedWith config)) = Some "mercury:load" ->
  unloadEvent (this (Tour.clickedWith config)) = Some "mercury:unload" ->
  operational Demo.demoHost (this (Tour.clickedWith config)).
Proof.
  intros Hm Hc Hl Hu. split; [|split; [|split]]; try done.
  - rewrite Hm. by repeat constructor.
  - rewrite Hc. intros H. discriminate H.
Defined.

Lemma response_applied_at_once_witness :
  let w := Tour.clickedWith Demo.feedConfig in
  requests w !! 0 = Some Demo.requestForB
  /\ operational Demo.demoHost (this w)
  /\ notExcepted Demo.demoHost (this w) "B"
  /\ toBoolean (onLoadDelay (this w)) = false
  /\ trace (step Demo.demoHost (Load 0 200 "B") w)
     = trace w
       ++ [ DispatchEvent "mercury:unload";
            HistoryPushState {| so_url := "/b"; so_scroll := None |} "/b";
            ScrollTo 0 0; DispatchEvent "mercury:load" ]
  /\ nodeAt (document w) Demo.feed = Some (Elem "div" [("id", "feed")] [])
  /\ nodeAt (document (step Demo.demoHost (Load 0 200 "B") w)) Demo.feed
     = Some (Elem "div" [("id", "feed")] [TextNode "B"]).
Proof.
  cbv zeta.
  assert (Hop : operational Demo.demoHost (this (Tour.clickedWith Demo.feedConfig)))
    by (by apply operational_clicked).
  assert (Hexc : notExcepted Demo.demoHost (this (Tour.clickedWith Demo.feedConfig)) "B")
    by (intros pattern H; vm_compute in H; discriminate H).
  split; [reflexivity|]. split; [exact Hop|]. split; [exact Hexc|].
  split; [reflexivity|].
  destruct (response_applied_at_once Demo.demoHost
              (Tour.clickedWith Demo.feedConfig) 0 Demo.requestForB "B"
              eq_refl Hop Hexc eq_refl) as (Htrace & _ & Hdoc & _).
  split; [exact Htrace|]. split; [reflexivity|].
  rewrite Hdoc. reflexivity.
Defined.

Lemma response_applied_after_delay_witness :
  let w := Tour.clickedWith Tour.delayedConfig in
  requests w !! 0 = Some Demo.requestForB
  /\ inFlight Demo.requestForB = true
  /\ timers w = []
  /\ operational Demo.demoHost (this w)
  /\ notExcepted Demo.demoHost (this w) "B"
  /\ toBoolean (onLoadDelay (this w)) = true
  /\ exists w2,
       run Demo.demoHost [Load 0 200 "B"; TimerFired 1] w = Some w2
       /\ document (step Demo.demoHost (Load 0 200 "B") w) = document w
       /\ history w2
          = pushState {| so_url := "/b"; so_scroll := None |} "/b" (history w).
Proof.
  cbv zeta.
  assert (Hop : operational Demo.demoHost (this (Tour.clickedWith Tour.delayedConfig)))
    by (by apply operational_clicked).
  assert (Hexc : notExcepted Demo.demoHost (this (Tour.clickedWith Tour.delayedConfig)) "B")
    by (intros pattern H; vm_compute in H; discriminate H).
  split; [reflexivity|]. split; [reflexivity|]. split; [reflexivity|].
  split; [exact Hop|]. split; [exact Hexc|]. split; [reflexivity|].
  destruct (response_applied_after_delay Demo.demoHost
              (Tour.clickedWith Tour.delayedConfig) 0 Demo.requestForB "B"
              eq_refl eq_refl eq_refl Hop Hexc eq_refl)
    as (w2 & Hrun & Hdoc & _ & _ & _ & _ & _ & _ & Hhist & _).
  exists w2. split; [exact Hrun|]. split; [exact Hdoc|]. exact Hhist.
Defined.

Lemma excepted_response_full_navigation_witness :
  let w := Tour.clickedWith Tour.exceptingConfig in
  requests w !! 0 = Some Demo.requestForB
  /\ onRequestExceptionRegex (this w) = Some "login"
  /\ regExpFinds Demo.demoHost "login" "login" = true
  /\ trace (step Demo.demoHost (Load 0 200 "login") w)
     = trace w ++ [LocationAssign "/b"].
Proof.
  cbv zeta. split; [reflexivity|]. split; [reflexivity|]. split; [reflexivity|].
  by rewrite (excepted_response_full_navigation Demo.demoHost
                (Tour.clickedWith Tour.exceptingConfig) 0 Demo.requestForB
                "login" "login" eq_refl eq_refl eq_refl).
Defined.

Lemma admissible_feedConfig : admissible Demo.demoHost Demo.feedConfig.
Proof.
  split.
  - reflexivity.
  - intros rules [= <-]. repeat constructor. vm_compute. by eexists.
  - repeat constructor; vm_compute; by eexists.
  - intros items [= <-]. vm_compute. by eexists.
  - intros items [= <-]. done.
Defined.

Lemma admissible_exceptingConfig : admissible Demo.demoHost Tour.exceptingConfig.
Proof.
  split.
  - reflexivity.
  - intros rules [= <-]. repeat constructor. vm_compute. by eexists.
  - repeat constructor; vm_compute; by eexists.
  - intros items [= <-]. vm_compute. by eexists.
  - intros items [= <-] _. exists "login". by vm_compute.
Defined.

Lemma adequate_page : adequate Demo.demoHost Demo.page.
Proof. intros _ _ _. split; [reflexivity|]. vm_compute. by eexists. Defined.

Lemma construct_sets_up_witness :
  admissible Demo.demoHost Demo.feedConfig
  /\ adequate Demo.demoHost Demo.page
  /\ forallb acceptableRule [Demo.rule "#feed" (JsBoolean true) JsUndefined] = true
  /\ exists w',
       construct Demo.demoHost Demo.feedConfig Demo.page = (Normal tt, w')
       /\ typeof (timeout (this w')) = "number"
       /\ onLoadDelay (this w') = JsNumber (integer 0)
       /\ scrollRestoration w' = "manual"
       /\ operational Demo.demoHost (this w').
Proof.
  split; [exact admissible_feedConfig|]. split; [exact adequate_page|].
  split; [reflexivity|].
  destruct (construct_sets_up Demo.demoHost Demo.feedConfig Demo.page
              [Demo.rule "#feed" (JsBoolean true) JsUndefined]
              eq_refl eq_refl eq_refl admissible_feedConfig adequate_page
              eq_refl eq_refl)
    as (w' & Hrun & _ & Hopt & _ & _ & Hdelay & _ & _ & _ & _ & Hsr
        & _ & _ & _ & _ & _ & _ & Hop).
  exists w'. split; [exact Hrun|].
  apply Forall_cons in Hopt as [(Htimeout & _) _].
  split; [exact Htimeout|]. split; [exact Hdelay|]. split; [exact Hsr|].
  apply Hop. by repeat constructor.
Defined.

Lemma validateAndAssignConfig_joins_exceptions_witness :
  admissible Demo.demoHost Tour.exceptingConfig
  /\ exists w1,
       validateAndAssignConfig Demo.demoHost Tour.exceptingConfig Demo.page
       = (Normal true, w1)
       /\ join "," BASE_ON_CLICK_EXCEPTIONS = Some (onClickExceptionSelector (this w1))
       /\ onRequestExceptionRegex (this w1) = Some "login".
Proof.
  split; [exact admissible_exceptingConfig|].
  destruct (validateAndAssignConfig_joins_exceptions Demo.demoHost Tour.exceptingConfig
              Demo.page [Demo.rule "#feed" (JsBoolean true) JsUndefined]
              admissible_exceptingConfig eq_refl eq_refl)
    as (w1 & Hrun & Hclicks & Hregex).
  exists w1. split; [exact Hrun|]. split; [exact Hclicks|]. exact Hregex.
Defined.

Lemma construct_without_body_raises_witness :
  admissible Demo.demoHost Demo.feedConfig
  /\ bodyOf (document Tour.headOnly) = None
  /\ exists message w',
       construct Demo.demoHost Demo.feedConfig Tour.headOnly
       = (Throw (TypeError message), w')
       /\ listeners w' = []
       /\ scrollRestoration w' = "manual".
Proof.
  split; [exact admissible_feedConfig|]. split; [reflexivity|].
  destruct (construct_without_body_raises Demo.demoHost Demo.feedConfig Tour.headOnly
              [Demo.rule "#feed" (JsBoolean true) JsUndefined]
              eq_refl eq_refl eq_refl eq_refl admissible_feedConfig eq_refl eq_refl
              eq_refl)
    as (message & w' & Hrun & Hlis & Hsr & _).
  exists message, w'. split; [exact Hrun|]. split; [exact Hlis|]. exact Hsr.
Defined.

Lemma consistent_clicked : consistent Demo.clicked.
Proof.
  split; [|split].
  - intros [|[|xhr]]; vm_compute; intros; done.
  - vm_compute. intros t Hin. by apply elem_of_nil in Hin.
  - vm_compute. lia.
Defined.

Lemma destroy_takes_engine_down_witness :
  consistent Demo.clicked
  /\ bodyOf (document Demo.clicked) = Some [0; 1]
  /\ loadEvent (this Demo.clicked) = Some "mercury:load"
  /\ unloadEvent (this Demo.clicked) = Some "mercury:unload"
  /\ exists w',
       destroy Demo.demoHost Demo.clicked = (Normal tt, w')
       /\ listeners w' = []
       /\ inert w'.
Proof.
  split; [exact consistent_clicked|]. split; [reflexivity|]. split; [reflexivity|].
  split; [reflexivity|].
  destruct (destroy_takes_engine_down Demo.demoHost Demo.clicked [0; 1]
              "mercury:load" "mercury:unload" consistent_clicked eq_refl eq_refl eq_refl)
    as (w' & Hrun & Hlis & Hinert & _).
  exists w'. split; [exact Hrun|]. split; [|exact Hinert].
  rewrite Hlis. by vm_compute.
Defined.

Lemma destroy_without_events_raises_witness :
  let w := (construct Demo.demoHost (JsObject []) Demo.page).2 in
  loadEvent (this w) = None
  /\ trace w = [ConsoleError "updateMatrix is not an Array"]
  /\ exists message w', destroy Demo.demoHost w = (Throw (TypeError message), w').
Proof.
  cbv zeta. split; [reflexivity|]. split; [reflexivity|].
  exact (destroy_without_events_raises Demo.demoHost
           (construct Demo.demoHost (JsObject []) Demo.page).2 eq_refl).
Defined.

Lemma construct_then_destroy_witness :
  admissible Demo.demoHost Demo.feedConfig
  /\ adequate Demo.demoHost Demo.page
  /\ requests Demo.page = [] /\ timers Demo.page = []
  /\ Forall (fun type => type ∉ listeners Demo.page)
            ["click"; "popstate"; "mercury:load"; "mercury:unload"]
  /\ exists w1 w2,
       construct Demo.demoHost Demo.feedConfig Demo.page = (Normal tt, w1)
       /\ destroy Demo.demoHost w1 = (Normal tt, w2)
       /\ listeners w2 = listeners Demo.page.
Proof.
  assert (Hfresh : Forall (fun type => type ∉ listeners Demo.page)
                     ["click"; "popstate"; "mercury:load"; "mercury:unload"]).
  { repeat constructor; intros Hin; by apply elem_of_nil in Hin. }
  split; [exact admissible_feedConfig|]. split; [exact adequate_page|].
  split; [reflexivity|]. split; [reflexivity|]. split; [exact Hfresh|].
  destruct (construct_then_destroy Demo.demoHost Demo.feedConfig Demo.page
              [Demo.rule "#feed" (JsBoolean true) JsUndefined]
              eq_refl eq_refl eq_refl admissible_feedConfig adequate_page
              eq_refl eq_refl eq_refl eq_refl Hfresh)
    as (w1 & w2 & Hrun & _ & Hdestroy & Hlis & _).
  by exists w1, w2.
Defined.

Lemma traversal_rewrites_destination_entry_witness :
  let h := {| past := [];
              current := {| entry_state :=
                              Some {| so_url := "/a"; so_scroll := Some (0, 100)%Z |};
                            entry_url := "/a" |};
              future := [ {| entry_state := Some {| so_url := "/b"; so_scroll := None |};
                             entry_url := "/b" |} ] |} in
  traverse Back (history Tour.visitedB) = Some h
  /\ "popstate" ∈ listeners Tour.visitedB
  /\ entry_state (current (history (step Demo.demoHost (PopState Back) Tour.visitedB)))
     = Some {| so_url := "/a"; so_scroll := Some (0, 50)%Z |}.
Proof.
  cbv zeta.
  assert (Hpop : "popstate" ∈ listeners Tour.visitedB).
  { vm_compute. apply list_elem_of_In. simpl. tauto. }
  split; [reflexivity|]. split; [exact Hpop|].
  destruct (traversal_rewrites_destination_entry Demo.demoHost Back Tour.visitedB
              {| past := [];
                 current := {| entry_state :=
                                 Some {| so_url := "/a"; so_scroll := Some (0, 100)%Z |};
                               entry_url := "/a" |};
                 future := [ {| entry_state :=
                                  Some {| so_url := "/b"; so_scroll := None |};
                                entry_url := "/b" |} ] |}
              {| so_url := "/a"; so_scroll := Some (0, 100)%Z |}
              eq_refl Hpop eq_refl) as (_ & _ & _ & Hstate).
  exact Hstate.
Defined.

Lemma patch_removes_unmatched_element_witness :
  let newDoc := Demo.demoPage "fresh" in
  (querySelector Demo.demoHost "aside" Tour.withPromo).1 = Normal (Some ([0; 1] ++ [2]))
  /\ (querySelectorIn Demo.demoHost newDoc "aside" Tour.withPromo).1 = Normal None
  /\ childrenOf
       <$> nodeAt (document (patch Demo.demoHost newDoc "/b" Tour.promoRule
                               Tour.withPromo).2) [0; 1]
     = Some [ Elem "div" [("id", "feed")] [];
              Elem "a" [("href", "/b")] [TextNode "next"] ].
Proof.
  cbv zeta. split; [reflexivity|]. split; [reflexivity|].
  destruct (proj2 (patch_removes_unmatched_element Demo.demoHost (Demo.demoPage "fresh")
                     "/b" Tour.promoRule Tour.withPromo)
              [0; 1] 2
              (Elem "body" [("class", "live")]
                 [ Elem "div" [("id", "feed")] [];
                   Elem "a" [("href", "/b")] [TextNode "next"];
                   Elem "aside" [("id", "promo")] [TextNode "sale"] ])
              eq_refl eq_refl eq_refl) as (Hrun & Hparent).
  rewrite Hrun. cbn [snd document set_document]. by rewrite Hparent.
Defined.

Lemma climb_finds_nearest_witness :
  let doc := document Demo.page in
  climb doc (bodyOf doc) (rev Demo.feed) = Some [0; 1]
  /\ exists n, 0 < n <= length Demo.feed
               /\ [0; 1] = take n Demo.feed
               /\ isBodyOrLink doc (bodyOf doc) [0; 1] = true.
Proof.
  cbv zeta. split; [reflexivity|].
  destruct (proj1 (climb_finds_nearest (document Demo.page)
                     (bodyOf (document Demo.page)) Demo.feed) [0; 1] eq_refl)
    as (n & Hn & Hq & Hstop & _).
  by exists n.
Defined.

Lemma operational_constructed : operational Demo.demoHost (this (Demo.constructed Demo.feedConfig)).
Proof.
  split; [|split; [|split]]; try reflexivity.
  - by repeat constructor.
  - intros H. discriminate H.
Defined.

Lemma click_navigation_completes_witness :
  let w := Demo.constructed Demo.feedConfig in
  let e := Demo.plainClick Demo.link in
  isKeyModified e = false
  /\ climb (document w) (bodyOf (document w)) (rev (target e)) = Some Demo.link
  /\ Some Demo.link ≠ bodyOf (document w)
  /\ selectorValid Demo.demoHost (onClickExceptionSelector (this w)) = true
  /\ selects Demo.demoHost (onClickExceptionSelector (this w)) (document w) Demo.link
     = false
  /\ operational Demo.demoHost (this w)
  /\ notExcepted Demo.demoHost (this w) "B"
  /\ toBoolean (onLoadDelay (this w)) = false
  /\ depth (history (step Demo.demoHost (Load 0 200 "B") (step Demo.demoHost (Click e) w)))
     = 2.
Proof.
  cbv zeta.
  assert (Hnb : Some Demo.link ≠ bodyOf (document (Demo.constructed Demo.feedConfig)))
    by (by vm_compute).
  assert (Hexc : notExcepted Demo.demoHost (this (Demo.constructed Demo.feedConfig)) "B")
    by (intros pattern H; vm_compute in H; discriminate H).
  split; [reflexivity|]. split; [reflexivity|]. split; [exact Hnb|].
  split; [reflexivity|]. split; [reflexivity|]. split; [exact operational_constructed|].
  split; [exact Hexc|]. split; [reflexivity|].
  destruct (click_navigation_completes Demo.demoHost (Demo.plainClick Demo.link)
              (Demo.constructed Demo.feedConfig) Demo.link "B"
              eq_refl eq_refl Hnb eq_refl eq_refl operational_constructed Hexc eq_refl)
    as (_ & _ & Hdepth & _).
  exact Hdepth.
Defined.

Lemma replay_restores_scroll_witness :
  let h := {| past := [];
              current := {| entry_state :=
                              Some {| so_url := "/a"; so_scroll := Some (0, 100)%Z |};
                            entry_url := "/a" |};
              future := [ {| entry_state := Some {| so_url := "/b"; so_scroll := None |};
                             entry_url := "/b" |} ] |} in
  traverse Back (history Tour.visitedB) = Some h
  /\ "popstate" ∈ listeners Tour.visitedB
  /\ operational Demo.demoHost (this Tour.visitedB)
  /\ notExcepted Demo.demoHost (this Tour.visitedB) "A"
  /\ toBoolean (onLoadDelay (this Tour.visitedB)) = false
  /\ pageOffset
       (step Demo.demoHost (Load 1 200 "A")
          (step Demo.demoHost (PopState Back) Tour.visitedB))
     = (0, 100)%Z.
Proof.
  cbv zeta.
  assert (Hpop : "popstate" ∈ listeners Tour.visitedB).
  { vm_compute. apply list_elem_of_In. simpl. tauto. }
  assert (Hop : operational Demo.demoHost (this Tour.visitedB)).
  { split; [|split; [|split]]; try reflexivity.
    - by repeat constructor.
    - intros H. vm_compute in H. discriminate H. }
  assert (Hexc : notExcepted Demo.demoHost (this Tour.visitedB) "A")
    by (intros pattern H; vm_compute in H; discriminate H).
  split; [reflexivity|]. split; [exact Hpop|]. split; [exact Hop|].
  split; [exact Hexc|]. split; [reflexivity|].
  destruct (replay_restores_scroll Demo.demoHost Back Tour.visitedB
              {| past := [];
                 current := {| entry_state :=
                                 Some {| so_url := "/a"; so_scroll := Some (0, 100)%Z |};
                               entry_url := "/a" |};
                 future := [ {| entry_state :=
                                  Some {| so_url := "/b"; so_scroll := None |};
                                entry_url := "/b" |} ] |}
              {| so_url := "/a"; so_scroll := Some (0, 100)%Z |} "A"
              eq_refl Hpop eq_refl Hop Hexc eq_refl) as (_ & Hoffset & _).
  exact Hoffset.
Defined.
